(** * BunkerWeb reports agent: indexer and search API over Redis

    A shallow embedding of [bw_indexer.py] (function [main]), of
    [bw_api.py] (functions [to_epoch] and [search_reports], the latter with
    its aggregates) and of the summary that [api_search_reports] of
    [bw_chat.py] makes of a reply, together with the part of Redis the
    indexer and the search rely on.

    Conventions of the model.
    - Python [str] and [bytes] values are ASCII strings ([string]).
    - Python floats and Redis scores are rationals ([Q]).  [to_epoch]
      rounds to the nearest double ([float_round]); the dates of the records
      are taken as they are written; overflow, subnormal numbers, infinities
      and NaN are not modelled.
    - The Redis keyspace is one finite map from keys to typed values with an
      optional absolute expiration deadline (in seconds).  Every operation
      takes the clock value [now] at which the server executes it; a key whose
      deadline has been reached is invisible to it.  A search request
      happens at a single clock value.  A run of the indexer is modelled
      twice: [main_at] gives each command of the run its own clock value,
      [main] executes them all at one, and is [main_at] under a clock that
      stands still ([main_at_const]).
    - Uncaught Python exceptions are the [Raise] outcome of [result].
    - What the programs take from libraries (the JSON parser, [repr] of
      non-trivial values, [float] of a string, [dateutil], the rendering of a
      timestamp) is an interface, [Externals]. *)

From Stdlib Require Import QArith.
From stdpp Require Import gmap strings list sorting pretty.

Local Open Scope string_scope.
Local Open Scope list_scope.
Local Open Scope Z_scope.

(** ** Python values *)

#[warnings="-register-all"]
Inductive json :=
  | JNull
  | JBool (b : bool)
  | JInt (z : Z)
  | JFloat (q : Q)
  | JStr (s : string)
  | JArr (l : list json)
  | JObj (o : list (string * json)).

(** A Python [dict] with string keys, in insertion order. *)
Abbreviation dict := (list (string * json)).

Inductive exn :=
  | AttributeError
  | TypeError
  | ValueError
  | JSONDecodeError
  | ParserError
  | ResponseError.

Inductive result (A : Type) :=
  | Ok (a : A)
  | Raise (e : exn).
Arguments Ok {A} a.
Arguments Raise {A} e.

#[global] Instance result_ret : MRet result := λ A a, Ok a.
#[global] Instance result_bind : MBind result := λ A B f m,
  match m with
  | Ok a => f a
  | Raise e => Raise e
  end.

Definition is_ok {A} (r : result A) : bool :=
  match r with Ok _ => true | Raise _ => false end.

(** [d.get(k)] *)
Fixpoint dict_get (d : dict) (k : string) : option json :=
  match d with
  | [] => None
  | (k', v) :: d' => if String.eqb k' k then Some v else dict_get d' k
  end.

(** [d[k] = v] *)
Fixpoint dict_set (d : dict) (k : string) (v : json) : dict :=
  match d with
  | [] => [(k, v)]
  | (k', v') :: d' =>
      if String.eqb k' k then (k, v) :: d' else (k', v') :: dict_set d' k v
  end.

(** Truth value of a Python object. *)
Definition py_truthy (v : json) : bool :=
  match v with
  | JNull => false
  | JBool b => b
  | JInt z => negb (z =? 0)
  | JFloat q => negb (Qeq_bool q 0)
  | JStr s => negb (String.eqb s "")
  | JArr l => match l with [] => false | _ => true end
  | JObj o => match o with [] => false | _ => true end
  end.

(** [v is None or v == ""] *)
Definition none_or_empty (v : json) : bool :=
  match v with
  | JNull => true
  | JStr s => String.eqb s ""
  | _ => false
  end.

(** ** The library interface *)

Class Externals := {
  (** [json.loads(raw.decode("utf-8", "replace"))]; [None] when it raises. *)
  json_loads : string → option json;
  (** [str(v)] for floats, lists and dicts. *)
  py_repr : json → string;
  (** [float(s)] for a string; [None] when it raises. *)
  float_of_str : string → option Q;
  (** [dateutil.parser.parse] and the three [datetime] operations used. *)
  datetime : Type;
  dtparser_parse : string → option datetime;
  tzinfo_is_none : datetime → bool;
  replace_tzinfo : datetime → datetime;
  timestamp : datetime → Q;
  (** [datetime.fromtimestamp(ts, tz=TZ).isoformat()]; [None] when the
      timestamp is out of range. *)
  date_human : Q → option string;
}.

Section Python.
Context `{Externals}.

(** [str(v)] *)
Definition py_str (v : json) : string :=
  match v with
  | JNull => "None"
  | JBool true => "True"
  | JBool false => "False"
  | JInt z => pretty z
  | JStr s => s
  | _ => py_repr v
  end.

(** [float(v)] where [v] is the result of [obj.get(...)]; [None] when it
    raises. *)
Definition py_float (v : option json) : option Q :=
  match v with
  | Some (JInt z) => Some (inject_Z z)
  | Some (JFloat q) => Some q
  | Some (JBool b) => Some (inject_Z (if b then 1 else 0))
  | Some (JStr s) => float_of_str s
  | _ => None
  end.
End Python.

(** ** Doubles

    [float(s)] and the division of two floats give the double nearest to
    the exact result. *)

(** [2^k], for any integer [k]. *)
Definition pow2 (k : Z) : Q :=
  if 0 <=? k then inject_Z (2 ^ k) else Qinv (inject_Z (2 ^ (- k))).

(** The integer [e] with [2^e <= q < 2^(e+1)], for a positive [q]. *)
Definition ilog2 (q : Q) : Z :=
  let e := Z.log2 (Qnum q) - Z.log2 (Z.pos (Qden q)) in
  if Qle_bool (pow2 e) q then e else e - 1.

(** The nearest integer, ties to the even one. *)
Definition round_half_even (q : Q) : Z :=
  let f := Qnum q `div` Z.pos (Qden q) in
  match (q - inject_Z f ?= 1 # 2)%Q with
  | Lt => f
  | Gt => f + 1
  | Eq => if Z.even f then f else f + 1
  end.

(** The double nearest to [q], for [q >= 0]: 53 significant bits, ties to
    even.  Overflow and subnormal numbers are not modelled: the result is
    that of Python for [q = 0] and for [q] between [2^-1022] and the
    largest double. *)
Definition float_round (q : Q) : Q :=
  let q := Qred q in
  if Qnum q <=? 0 then 0%Q
  else
    let e := ilog2 q in
    Qred (inject_Z (round_half_even (q * pow2 (52 - e))) * pow2 (e - 52)).

(** ** Strings *)

(** The character [.] *)
Definition dot_char : Ascii.ascii := Ascii.ascii_of_N 46.

Definition is_space (c : Ascii.ascii) : bool :=
  let n := Ascii.N_of_ascii c in
  ((9 <=? n) && (n <=? 13) || (28 <=? n) && (n <=? 32))%N.

Definition is_digit (c : Ascii.ascii) : bool :=
  let n := Ascii.N_of_ascii c in ((48 <=? n) && (n <=? 57))%N.

Fixpoint lstrip (s : string) : string :=
  match s with
  | String c s' => if is_space c then lstrip s' else s
  | EmptyString => EmptyString
  end.

(** [s.strip()] *)
Definition py_strip (s : string) : string :=
  String.rev (lstrip (String.rev (lstrip s))).

(** [s.replace(".", "", 1)] *)
Fixpoint drop_first_dot (s : string) : string :=
  match s with
  | String c s' => if Ascii.eqb c dot_char then s' else String c (drop_first_dot s')
  | EmptyString => EmptyString
  end.

Fixpoint all_digits (s : string) : bool :=
  match s with
  | String c s' => is_digit c && all_digits s'
  | EmptyString => true
  end.

(** [s.isdigit()] *)
Definition isdigit (s : string) : bool :=
  match s with
  | EmptyString => false
  | _ => all_digits s
  end.

(** The value of a decimal numeral made of digits and at most one dot,
    read left to right: numerator, denominator, and whether the dot has
    been passed. *)
Fixpoint decimal_go (s : string) (num : Z) (den : positive) (dot : bool) : Q :=
  match s with
  | EmptyString => Qmake num den
  | String c s' =>
      if Ascii.eqb c dot_char then decimal_go s' num den true
      else
        let d := Z.of_N (Ascii.N_of_ascii c) - 48 in
        decimal_go s' (num * 10 + d) (if dot then den * 10 else den)%positive dot
  end.

Definition decimal_value (s : string) : Q := decimal_go s 0 1 false.

Definition ascii_lower (c : Ascii.ascii) : Ascii.ascii :=
  let n := Ascii.N_of_ascii c in
  if ((65 <=? n) && (n <=? 90))%N then Ascii.ascii_of_N (n + 32) else c.

(** [s.lower()] *)
Fixpoint str_lower (s : string) : string :=
  match s with
  | String c s' => String (ascii_lower c) (str_lower s')
  | EmptyString => EmptyString
  end.

(** [needle in hay] *)
Fixpoint contains (needle hay : string) : bool :=
  String.prefix needle hay ||
  match hay with
  | String _ hay' => contains needle hay'
  | EmptyString => false
  end.

(** [l[:n]] *)
Definition py_slice_to {A} (n : Z) (l : list A) : list A :=
  if 0 <=? n then take (Z.to_nat n) l
  else take (length l - Z.to_nat (- n)) l.

(** ** Redis *)

Inductive rval :=
  | VStr (s : string)
  | VSet (m : gset string)
  | VZSet (z : gmap string Q).

(** A stored value and its expiration deadline, if it has one. *)
Record entry := Entry { e_val : rval; e_exp : option Z }.

Abbreviation redis := (gmap string entry).

Definition alive (now : Z) (e : entry) : bool :=
  match e_exp e with
  | None => true
  | Some deadline => now <? deadline
  end.

(** What the server sees under key [k] at time [now]. *)
Definition rlookup (now : Z) (st : redis) (k : string) : option entry :=
  match st !! k with
  | Some e => if alive now e then Some e else None
  | None => None
  end.

(** The write commands the indexer queues on a pipeline.  [CSet] is
    [SET k v [NX] [EX seconds]]. *)
Inductive cmd :=
  | CSet (k v : string) (nx : bool) (ex : option Z)
  | CExpire (k : string) (seconds : Z)
  | CZAdd (k member : string) (score : Q)
  | CSAdd (k member : string).

(** Replies as redis-py hands them back: [True], [None], an integer, or a
    WRONGTYPE error. *)
Inductive reply :=
  | RTrue
  | RNone
  | RInt (n : Z)
  | RWrongType.

Definition reply_truthy (r : reply) : bool :=
  match r with
  | RTrue => true
  | RInt n => negb (n =? 0)
  | _ => false
  end.

Definition is_error (r : reply) : bool :=
  match r with RWrongType => true | _ => false end.

(** One command, executed at time [now].  [SET] replaces a value of any type
    and drops its expiration unless [EX] gives a new one; with [NX] it does
    nothing when the key is visible.  [EXPIRE] sets the deadline of a
    visible key.  [ZADD] and [SADD] create the key without expiration, or
    update a visible value of the right type and keep its expiration.  A
    key that has expired is treated as absent.  The indexer only asks for
    positive expirations ([ttl_of]); a deadline that is not in the future
    makes the key invisible at once. *)
Definition exec_cmd (now : Z) (st : redis) (c : cmd) : redis * reply :=
  match c with
  | CSet k v nx ex =>
      if nx && bool_decide (is_Some (rlookup now st k)) then (st, RNone)
      else (<[k := Entry (VStr v) ((λ t, now + t) <$> ex)]> st, RTrue)
  | CExpire k seconds =>
      match rlookup now st k with
      | Some e => (<[k := Entry (e_val e) (Some (now + seconds))]> st, RInt 1)
      | None => (st, RInt 0)
      end
  | CZAdd k member score =>
      match rlookup now st k with
      | None => (<[k := Entry (VZSet {[member := score]}) None]> st, RInt 1)
      | Some (Entry (VZSet z) x) =>
          (<[k := Entry (VZSet (<[member := score]> z)) x]> st,
           RInt (if z !! member is Some _ then 0 else 1))
      | Some _ => (st, RWrongType)
      end
  | CSAdd k member =>
      match rlookup now st k with
      | None => (<[k := Entry (VSet {[member]}) None]> st, RInt 1)
      | Some (Entry (VSet m) x) =>
          (<[k := Entry (VSet ({[member]} ∪ m)) x]> st,
           RInt (if bool_decide (member ∈ m) then 0 else 1))
      | Some _ => (st, RWrongType)
      end
  end.

(** The server runs the queued commands one after the other. *)
Fixpoint exec_all (now : Z) (st : redis) (cmds : list cmd) : redis * list reply :=
  match cmds with
  | [] => (st, [])
  | c :: cmds' =>
      let '(st1, r) := exec_cmd now st c in
      let '(st2, rs) := exec_all now st1 cmds' in
      (st2, r :: rs)
  end.

(** [p.execute()] of a pipeline without transaction: every command is run,
    then the first error reply, if any, is raised. *)
Definition pipeline_execute (now : Z) (st : redis) (cmds : list cmd)
    : result (redis * list reply) :=
  let '(st', rs) := exec_all now st cmds in
  if existsb is_error rs then Raise ResponseError else Ok (st', rs).

(** Order of a sorted set: by score, ties by member. *)
Definition zleb (a b : string * Q) : bool :=
  match Qcompare (snd a) (snd b) with
  | Lt => true
  | Eq => String.leb (fst a) (fst b)
  | Gt => false
  end.

Definition zle (a b : string * Q) : Prop := zleb a b = true.

#[global] Instance zle_dec : RelDecision zle := λ a b, decide (zleb a b = true).

Definition in_range (lo hi : Q) (a : string * Q) : bool :=
  Qle_bool lo (snd a) && Qle_bool (snd a) hi.

(** The members of a sorted set with their scores, in the set's order. *)
Definition zset_sorted (z : gmap string Q) : list (string * Q) :=
  merge_sort zle (map_to_list z).

(** [ZRANGEBYSCORE k lo hi] *)
Definition zrangebyscore (now : Z) (st : redis) (k : string) (lo hi : Q)
    : result (list string) :=
  match rlookup now st k with
  | None => Ok []
  | Some (Entry (VZSet z) _) =>
      Ok ((filter (λ a, in_range lo hi a = true) (zset_sorted z)).*1)
  | Some _ => Raise ResponseError
  end.

(** [SMEMBERS k] *)
Definition smembers (now : Z) (st : redis) (k : string) : result (gset string) :=
  match rlookup now st k with
  | None => Ok ∅
  | Some (Entry (VSet m) _) => Ok m
  | Some _ => Raise ResponseError
  end.

(** [GET k] *)
Definition rget (now : Z) (st : redis) (k : string) : result (option string) :=
  match rlookup now st k with
  | None => Ok None
  | Some (Entry (VStr v) _) => Ok (Some v)
  | Some _ => Raise ResponseError
  end.

(** ** Keys of the index *)

Definition z_ts_key (prefix : string) : string := prefix +:+ ":requests:by_date".
Definition seen_key (prefix rid : string) : string := prefix +:+ ":seen:" +:+ rid.
Definition req_key (prefix rid : string) : string := prefix +:+ ":req:" +:+ rid.
Definition set_key (prefix kind val : string) : string :=
  prefix +:+ ":" +:+ kind +:+ ":" +:+ val.

(** The attribute kinds and the record field each one indexes. *)
Definition index_fields : list (string * string) :=
  [("ip", "ip"); ("server", "server_name"); ("mode", "security_mode");
   ("status", "status"); ("reason", "reason"); ("country", "country");
   ("method", "method")].

(** ** The indexer: [bw_indexer.main] *)

Record counters := Counters {
  new_count : nat;
  bad_json : nat;
  no_id : nat;
  no_date : nat;
}.

Definition counters0 : counters := Counters 0 0 0 0.

(** [args.ttl_days * 86400 if args.ttl_days and args.ttl_days > 0 else None] *)
Definition ttl_of (ttl_days : Z) : option Z :=
  if negb (ttl_days =? 0) && (0 <? ttl_days) then Some (ttl_days * 86400) else None.

(** [if ttl: p.expire(k, ttl)] *)
Definition expire_cmds (ttl : option Z) (k : string) : list cmd :=
  match ttl with
  | Some t => [CExpire k t]
  | None => []
  end.

(** [range(0, total, step)] for a positive step. *)
Definition py_range (total step : Z) : list Z :=
  (λ i : nat, Z.of_nat i * step) <$> seq 0 (Z.to_nat ((total + step - 1) `div` step)).

(** [LRANGE] of a list with indices [0 <= start], [stop < length]: both ends
    inclusive. *)
Definition lrange {A} (l : list A) (start stop : Z) : list A :=
  take (Z.to_nat (stop - start + 1)) (drop (Z.to_nat start) l).

Section Indexer.
Context `{Externals}.
Context (prefix : string) (ttl : option Z) (now : Z).

(** The commands queued for the attribute indexes of one record. *)
Definition attr_cmds (rid : string) (obj : dict) : list cmd :=
  flat_map (λ kf : string * string,
    match dict_get obj kf.2 with
    | None => []
    | Some v =>
        if none_or_empty v then []
        else
          let k := set_key prefix kf.1 (py_str v) in
          CSAdd k rid :: expire_cmds ttl k
    end) index_fields.

(** The commands queued to commit one record. *)
Definition commit_cmds (rid : string) (obj : dict) (raw : string) (ts : Q)
    : list cmd :=
  CSet (req_key prefix rid) raw false None
    :: expire_cmds ttl (req_key prefix rid)
    ++ CZAdd (z_ts_key prefix) rid ts
    :: attr_cmds rid obj.

(** First pass over a chunk: the records that parse and carry an id, with
    the [SET NX] queued for each.  A parsed value that is not a dict makes
    [obj.get] raise.  An id that is truthy but not a string is outside the
    model (the source goes on to call [rid.encode()]): it raises here. *)
Fixpoint pass1 (items : list string) (cnt : counters)
    : result (list (string * dict * string) * list cmd * counters) :=
  match items with
  | [] => Ok ([], [], cnt)
  | raw :: items' =>
      match json_loads raw with
      | None =>
          pass1 items' (Counters (new_count cnt) (S (bad_json cnt))
                                 (no_id cnt) (no_date cnt))
      | Some (JObj obj) =>
          let skip :=
            pass1 items' (Counters (new_count cnt) (bad_json cnt)
                                   (S (no_id cnt)) (no_date cnt)) in
          match dict_get obj "id" with
          | None => skip
          | Some v =>
              if negb (py_truthy v) then skip
              else
                match v with
                | JStr rid =>
                    '(parsed, p, cnt') ← pass1 items' cnt;
                    Ok ((rid, obj, raw) :: parsed,
                        CSet (seen_key prefix rid) "1" true ttl :: p,
                        cnt')
                | _ => Raise AttributeError
                end
          end
      | Some _ => Raise AttributeError
      end
  end.

(** Second pass: the commands that commit the new records. *)
Fixpoint pass2 (todo : list ((string * dict * string) * reply)) (cnt : counters)
    : list cmd * counters :=
  match todo with
  | [] => ([], cnt)
  | ((rid, obj, raw), is_new) :: todo' =>
      if negb (reply_truthy is_new) then pass2 todo' cnt
      else
        match py_float (dict_get obj "date") with
        | None =>
            pass2 todo' (Counters (new_count cnt) (bad_json cnt)
                                  (no_id cnt) (S (no_date cnt)))
        | Some ts =>
            let '(p, cnt') :=
              pass2 todo' (Counters (S (new_count cnt)) (bad_json cnt)
                                    (no_id cnt) (no_date cnt)) in
            (commit_cmds rid obj raw ts ++ p, cnt')
        end
  end.

(** One iteration of the main loop, on the slice [items]. *)
Definition process_chunk (st : redis) (cnt : counters) (items : list string)
    : result (redis * counters) :=
  '(parsed, p1, cnt1) ← pass1 items cnt;
  '(st1, is_new_list) ←
    match parsed with
    | [] => Ok (st, [])
    | _ => pipeline_execute now st p1
    end;
  let '(p2, cnt2) := pass2 (zip parsed is_new_list) cnt1 in
  if negb (new_count cnt2 =? 0)%nat then
    '(st2, _) ← pipeline_execute now st1 p2;
    Ok (st2, cnt2)
  else Ok (st1, cnt2).

(** The main loop over the chunk starts, with its [break]. *)
Fixpoint main_loop (source : list string) (chunk : Z) (starts : list Z)
    (st : redis) (cnt : counters) : result (redis * counters) :=
  match starts with
  | [] => Ok (st, cnt)
  | start :: starts' =>
      let total := Z.of_nat (length source) in
      let items := lrange source start (Z.min (start + chunk - 1) (total - 1)) in
      match items with
      | [] => Ok (st, cnt)
      | _ =>
          '(st', cnt') ← process_chunk st cnt items;
          main_loop source chunk starts' st' cnt'
      end
  end.
End Indexer.

(** One run of the indexer over the list [source], at time [now].
    [range] raises on a zero step and is empty on a negative one. *)
Definition main `{Externals} (source : list string) (prefix : string)
    (ttl_days chunk : Z) (now : Z) (st : redis) : result (redis * counters) :=
  let ttl := ttl_of ttl_days in
  let total := Z.of_nat (length source) in
  if chunk =? 0 then Raise ValueError
  else if chunk <? 0 then Ok (st, counters0)
  else main_loop prefix ttl now source chunk (py_range total chunk) st counters0.

(** ** The indexer under a running clock

    [main] has the server execute every command of a run at one clock
    value.  Here the [i]-th command of the run is executed at [clk i]: the
    [SET NX EX] of a chunk are executed when its first pipeline is sent,
    the [SET], [EXPIRE], [ZADD] and [SADD] when its second pipeline is,
    chunk after chunk, and Redis counts each expiration from the moment
    it executes the command that asks for it. *)

(** The server runs the queued commands one after the other; [n] is the
    number of commands of the run it has executed before. *)
Fixpoint exec_all_at (clk : nat → Z) (n : nat) (st : redis) (cmds : list cmd)
    : redis * list reply :=
  match cmds with
  | [] => (st, [])
  | c :: cmds' =>
      let '(st1, r) := exec_cmd (clk n) st c in
      let '(st2, rs) := exec_all_at clk (S n) st1 cmds' in
      (st2, r :: rs)
  end.

(** [p.execute()]; the result carries the number of commands executed so
    far. *)
Definition pipeline_execute_at (clk : nat → Z) (n : nat) (st : redis)
    (cmds : list cmd) : result (redis * list reply * nat) :=
  let '(st', rs) := exec_all_at clk n st cmds in
  if existsb is_error rs then Raise ResponseError
  else Ok (st', rs, (n + length cmds)%nat).

Section IndexerAt.
Context `{Externals}.
Context (prefix : string) (ttl : option Z) (clk : nat → Z).

(** One iteration of the main loop: the first pipeline is executed, then
    the second. *)
Definition process_chunk_at (n : nat) (st : redis) (cnt : counters)
    (items : list string) : result (redis * counters * nat) :=
  '(parsed, p1, cnt1) ← pass1 prefix ttl items cnt;
  '(st1, is_new_list, n1) ←
    match parsed with
    | [] => Ok (st, [], n)
    | _ => pipeline_execute_at clk n st p1
    end;
  let '(p2, cnt2) := pass2 prefix ttl (zip parsed is_new_list) cnt1 in
  if negb (new_count cnt2 =? 0)%nat then
    '(st2, _, n2) ← pipeline_execute_at clk n1 st1 p2;
    Ok (st2, cnt2, n2)
  else Ok (st1, cnt2, n1).

Fixpoint main_loop_at (source : list string) (chunk : Z) (starts : list Z)
    (n : nat) (st : redis) (cnt : counters) : result (redis * counters * nat) :=
  match starts with
  | [] => Ok (st, cnt, n)
  | start :: starts' =>
      let total := Z.of_nat (length source) in
      let items := lrange source start (Z.min (start + chunk - 1) (total - 1)) in
      match items with
      | [] => Ok (st, cnt, n)
      | _ =>
          '(st', cnt', n') ← process_chunk_at n st cnt items;
          main_loop_at source chunk starts' n' st' cnt'
      end
  end.
End IndexerAt.

(** One run of the indexer over the list [source], started on the store
    [st]; the result carries the number of commands the server executed. *)
Definition main_at `{Externals} (clk : nat → Z) (source : list string)
    (prefix : string) (ttl_days chunk : Z) (st : redis)
    : result (redis * counters * nat) :=
  let ttl := ttl_of ttl_days in
  let total := Z.of_nat (length source) in
  if chunk =? 0 then Raise ValueError
  else if chunk <? 0 then Ok (st, counters0, 0%nat)
  else main_loop_at prefix ttl clk source chunk (py_range total chunk)
         0%nat st counters0.

(** ** The search API: [bw_api.to_epoch] and [bw_api.search_reports] *)

(** The query parameters, as the framework hands them to the handler:
    [start] and [end] are required, [status] and [limit] are integers. *)
Record request := Request {
  start : string;
  end_ : string;
  prefix : string;
  server_name : option string;
  ip : option string;
  security_mode : option string;
  status : option Z;
  reason : option string;
  country : option string;
  method : option string;
  url_contains : option string;
  ua_contains : option string;
  order : string;
  limit : Z;
}.

(** The response; the three top-10 aggregates are left out. *)
Record response := Response {
  count : nat;
  results : list dict;
}.

(** [if value: intersect(kind, value)] *)
Definition filter_if (kind : string) (value : option string)
    : list (string * string) :=
  match value with
  | Some v => if String.eqb v "" then [] else [(kind, v)]
  | None => []
  end.

(** The exact filters a request supplies, in the order the handler applies
    them. *)
Definition exact_filters (q : request) : list (string * string) :=
  filter_if "ip" (ip q)
  ++ filter_if "server" (server_name q)
  ++ filter_if "mode" (security_mode q)
  ++ match status q with
     | Some n => [("status", pretty n)]
     | None => []
     end
  ++ filter_if "reason" (reason q)
  ++ filter_if "country" (country q)
  ++ filter_if "method" (method q).

(** [needle and needle not in hay] *)
Definition rejects (needle : option string) (hay : string) : bool :=
  match needle with
  | Some n => negb (String.eqb n "") && negb (contains n hay)
  | None => false
  end.

Section Api.
Context `{Externals}.

Definition to_epoch (x : string) : result Q :=
  let s := py_strip x in
  if isdigit (drop_first_dot s) then
    let n := float_round (decimal_value s) in
    Ok (if negb (Qle_bool n 10000000000) then float_round (n / 1000) else n)%Q
  else
    match dtparser_parse s with
    | None => Raise ParserError
    | Some dt =>
        let dt := if tzinfo_is_none dt then replace_tzinfo dt else dt in
        Ok (timestamp dt)
    end.

(** A value the numeric test of [to_epoch] accepts. *)
Definition numeric (x : string) : Prop :=
  isdigit (drop_first_dot (py_strip x)) = true.

(** A value [to_epoch] cannot resolve: not numeric, and refused by
    [dateutil]. *)
Definition unparseable (x : string) : Prop :=
  isdigit (drop_first_dot (py_strip x)) = false
  ∧ dtparser_parse (py_strip x) = None.

Context (now : Z) (st : redis).

(** The ids of the time window, in the requested order. *)
Definition search_ids (q : request) : result (list string) :=
  start_ts ← to_epoch (start q);
  end_ts ← to_epoch (end_ q);
  ids ← zrangebyscore now st (z_ts_key (prefix q)) start_ts end_ts;
  Ok (if String.eqb (order q) "newest" then reverse ids else ids).

(** The nested function [intersect]. *)
Definition intersect (pfx : string) (candidates : gset string)
    (kv : string * string) : result (gset string) :=
  members ← smembers now st (set_key pfx kv.1 kv.2);
  Ok (candidates ∩ members).

Fixpoint apply_filters (pfx : string) (candidates : gset string)
    (filters : list (string * string)) : result (gset string) :=
  match filters with
  | [] => Ok candidates
  | kv :: filters' =>
      candidates' ← intersect pfx candidates kv;
      apply_filters pfx candidates' filters'
  end.

(** The candidate set once every supplied exact filter has been applied. *)
Definition search_candidates (q : request) (ids : list string)
    : result (gset string) :=
  apply_filters (prefix q) (list_to_set ids) (exact_filters q).

(** [[rid for rid in ids if rid in candidates][:limit]] *)
Definition search_ordered (q : request) (ids : list string)
    (candidates : gset string) : list string :=
  py_slice_to (limit q) (filter (λ rid, rid ∈ candidates) ids).

(** What the loop over [ordered] does with one fetched record: [None] when
    a substring filter drops it. *)
Definition load_record (q : request) (raw : string) : result (option dict) :=
  match json_loads raw with
  | None => Raise JSONDecodeError
  | Some (JObj obj) =>
      if rejects (url_contains q)
           (py_str (default (JStr "") (dict_get obj "url"))) then Ok None
      else if rejects (str_lower <$> ua_contains q)
           (str_lower (py_str (default (JStr "") (dict_get obj "user_agent"))))
      then Ok None
      else
        match py_float (Some (default (JInt 0) (dict_get obj "date"))) with
        | None => Raise TypeError
        | Some ts =>
            match date_human ts with
            | None => Raise ValueError
            | Some h => Ok (Some (dict_set obj "_date_human" (JStr h)))
            end
        end
  | Some _ => Raise AttributeError
  end.

(** The loop over [ordered]. *)
Fixpoint collect (q : request) (ordered : list string) : result (list dict) :=
  match ordered with
  | [] => Ok []
  | rid :: ordered' =>
      raw ← rget now st (req_key (prefix q) rid);
      match raw with
      | None => collect q ordered'
      | Some raw =>
          if String.eqb raw "" then collect q ordered'
          else
            o ← load_record q raw;
            rs ← collect q ordered';
            Ok (match o with Some obj => obj :: rs | None => rs end)
      end
  end.

Definition search_reports (q : request) : result response :=
  ids ← search_ids q;
  candidates ← search_candidates q ids;
  rs ← collect q (search_ordered q ids candidates);
  Ok (Response (length rs) rs).
End Api.

(** The status the framework answers with: 200 when the handler returns,
    500 when an exception escapes it (the handler raises no HTTP error of
    its own). *)
Definition http_status {A} (r : result A) : Z :=
  match r with
  | Ok _ => 200
  | Raise _ => 500
  end.

Definition client_error (code : Z) : Prop := 400 ≤ code ≤ 499.

(** ** The aggregates of the search API *)

(** Values a [Counter] accepts as keys: lists and dicts are not hashable. *)
Definition py_hashable (v : json) : bool :=
  match v with
  | JArr _ | JObj _ => false
  | _ => true
  end.

(** The number a [bool], [int] or [float] stands for. *)
Definition key_num (v : json) : option Q :=
  match v with
  | JBool b => Some (inject_Z (if b then 1 else 0))
  | JInt z => Some (inject_Z z)
  | JFloat q => Some q
  | _ => None
  end.

(** [a == b] on dict keys: numbers by value, whatever their type, strings
    by content. *)
Definition py_eq (a b : json) : bool :=
  match key_num a, key_num b with
  | Some x, Some y => Qeq_bool x y
  | None, None =>
      match a, b with
      | JStr s, JStr t => String.eqb s t
      | JNull, JNull => true
      | _, _ => false
      end
  | _, _ => false
  end.

(** [c[v] += 1]: the first key equal to [v] is kept. *)
Fixpoint counter_add (c : list (json * nat)) (v : json) : list (json * nat) :=
  match c with
  | [] => [(v, 1%nat)]
  | (k, n) :: c' =>
      if py_eq k v then (k, S n) :: c' else (k, n) :: counter_add c' v
  end.

(** [Counter(l)], keys in order of first insertion. *)
Definition Counter (l : list json) : result (list (json * nat)) :=
  if forallb py_hashable l then Ok (foldl counter_add [] l)
  else Raise TypeError.

(** Insertion before the first pair that does not count more. *)
Fixpoint insert_by_count (x : json * nat) (l : list (json * nat))
    : list (json * nat) :=
  match l with
  | [] => [x]
  | y :: l' =>
      if (y.2 <=? x.2)%nat then x :: l else y :: insert_by_count x l'
  end.

(** [c.most_common(n)]: the pairs by decreasing count, equal counts in
    order of insertion, cut at [n]. *)
Definition most_common (n : nat) (c : list (json * nat)) : list (json * nat) :=
  take n (foldr insert_by_count [] c).

(** [[x.get(field) for x in results if x.get(field)]] *)
Definition field_values (field : string) (results : list dict) : list json :=
  omap (λ x : dict,
    match dict_get x field with
    | Some v => if py_truthy v then Some v else None
    | None => None
    end) results.

(** [Counter([...]).most_common(10)] *)
Definition top (field : string) (results : list dict)
    : result (list (json * nat)) :=
  c ← Counter (field_values field results);
  Ok (most_common 10 c).

(** The whole answer of the handler: the response and its three
    aggregates. *)
Record answer := Answer {
  body : response;
  top_ips : list (json * nat);
  top_urls : list (json * nat);
  top_reasons : list (json * nat);
}.

Section Answer.
Context `{Externals}.
Context (now : Z) (st : redis).

Definition search_reports_answer (q : request) : result answer :=
  resp ← search_reports now st q;
  ips ← top "ip" (results resp);
  urls ← top "url" (results resp);
  reasons ← top "reason" (results resp);
  Ok (Answer resp ips urls reasons).
End Answer.

(** ** The chat client's summary *)

(** The body the API sends for an answer: a JSON object, the pairs of the
    aggregates as two-element arrays. *)
Definition encode_top (t : list (json * nat)) : json :=
  JArr ((λ kn : json * nat, JArr [kn.1; JInt (Z.of_nat kn.2)]) <$> t).

Definition encode_answer (a : answer) : json :=
  JObj [("count", JInt (Z.of_nat (count (body a))));
        ("top_ips", encode_top (top_ips a));
        ("top_urls", encode_top (top_urls a));
        ("top_reasons", encode_top (top_reasons a));
        ("results", JArr (JObj <$> results (body a)))].

(** [v[:10]]; only lists and strings can be sliced. *)
Definition py_slice10 (v : json) : result json :=
  match v with
  | JArr l => Ok (JArr (take 10 l))
  | JStr s => Ok (JStr (String.substring 0 10 s))
  | _ => Raise TypeError
  end.

(** The keys of a sample, in order. *)
Definition sample_keys : list string :=
  ["_date_human"; "server_name"; "ip"; "reason"; "security_mode"; "status";
   "method"; "url"].

(** [{k: r.get(k) for k in (...)}] *)
Definition sample_of (r : json) : result json :=
  match r with
  | JObj d => Ok (JObj ((λ k, (k, default JNull (dict_get d k))) <$> sample_keys))
  | _ => Raise AttributeError
  end.

Fixpoint samples_of (l : list json) : result (list json) :=
  match l with
  | [] => Ok []
  | r :: l' =>
      s ← sample_of r;
      ss ← samples_of l';
      Ok (s :: ss)
  end.

(** [api_search_reports], from the decoded body [data] of the reply
    ([resp.json()]); the request itself is left out. *)
Definition api_search_reports (data : json) : result json :=
  match data with
  | JObj d =>
      let cnt := default (JInt 0) (dict_get d "count") in
      ips ← py_slice10 (default (JArr []) (dict_get d "top_ips"));
      urls ← py_slice10 (default (JArr []) (dict_get d "top_urls"));
      reasons ← py_slice10 (default (JArr []) (dict_get d "top_reasons"));
      let rs := default JNull (dict_get d "results") in
      first ← py_slice10 (if py_truthy rs then rs else JArr []);
      samples ← match first with
                | JArr l => samples_of l
                | _ => Raise AttributeError
                end;
      Ok (JObj [("count", cnt); ("top_ips", ips); ("top_urls", urls);
                ("top_reasons", reasons); ("samples", JArr samples)])
  | _ => Raise AttributeError
  end.

(** ** Vocabulary of the properties *)

(** A string of the characters [0] to [9]. *)
Definition digits_only (s : string) : Prop :=
  Forall (λ c, (48 ≤ Ascii.N_of_ascii c ≤ 57)%N) (String.list_ascii_of_string s).

(** The number that a string of digits writes after the digits of [acc]. *)
Fixpoint digits_acc (acc : Z) (s : string) : Z :=
  match s with
  | EmptyString => acc
  | String c s' => digits_acc (acc * 10 + (Z.of_N (Ascii.N_of_ascii c) - 48)) s'
  end.

(** The number a string of digits writes. *)
Definition digits_value (s : string) : Z := digits_acc 0 s.

(** The value of the numeral with integer part [a] and fraction [b]. *)
Definition numeral_value (a b : string) : Q :=
  (inject_Z (digits_value (a +:+ b))
   / inject_Z (10 ^ Z.of_nat (String.length b)))%Q.

(** The key a write command addresses. *)
Definition cmd_key (c : cmd) : string :=
  match c with
  | CSet k _ _ _ => k
  | CExpire k _ => k
  | CZAdd k _ _ => k
  | CSAdd k _ => k
  end.

(** The sorted set stored under [k], empty when there is none. *)
Definition zset_at (st : redis) (k : string) : gmap string Q :=
  match st !! k with
  | Some (Entry (VZSet z) _) => z
  | _ => ∅
  end.

(** The members of the set stored under [k]. *)
Definition set_at (st : redis) (k : string) : gset string :=
  match st !! k with
  | Some (Entry (VSet m) _) => m
  | _ => ∅
  end.

(** The order of scores is transitive. *)
#[global] Instance Qle_transitive : Transitive Qle := Qle_trans.

(** The store a list of commands leaves behind. *)
Definition run_cmds (now : Z) (st : redis) (cmds : list cmd) : redis :=
  (exec_all now st cmds).1.

(** The score of [rid] in the sorted set stored under [k]. *)
Definition score_at (st : redis) (k rid : string) : Q :=
  default 0%Q (zset_at st k !! rid).

(** The request [q] with another [order]. *)
Definition with_order (o : string) (q : request) : request :=
  Request (start q) (end_ q) (prefix q) (server_name q) (ip q)
          (security_mode q) (status q) (reason q) (country q) (method q)
          (url_contains q) (ua_contains q) o (limit q).

(** [k] is visible at time [now]. *)
Definition marked (now : Z) (st : redis) (k : string) : Prop :=
  is_Some (rlookup now st k).

(** The record [rid] gains no footprint from [st] to [st']: its forward
    entry is untouched, and it enters neither the time index nor any set. *)
Definition no_gain (pfx rid : string) (st st' : redis) : Prop :=
  st' !! req_key pfx rid = st !! req_key pfx rid
  ∧ (∀ s, zset_at st' (z_ts_key pfx) !! rid = Some s →
          zset_at st (z_ts_key pfx) !! rid = Some s)
  ∧ (∀ k, rid ∈ set_at st' k → rid ∈ set_at st k).

(** The expiration of the time index, as visible at [now]. *)
Definition z_exp (pfx : string) (now : Z) (st : redis) : option Z :=
  rlookup now st (z_ts_key pfx) ≫= e_exp.

(** The slices the main loop reads. *)
Definition chunks_of (source : list string) (chunk : Z) (starts : list Z)
    : list (list string) :=
  (λ s, lrange source s
          (Z.min (s + chunk - 1) (Z.of_nat (length source) - 1))) <$> starts.

(** The [SET NX] commands of the first pass. *)
Definition seen_cmds (pfx : string) (ttl : option Z)
    (parsed : list (string * dict * string)) : list cmd :=
  (λ t : string * dict * string, CSet (seen_key pfx t.1.1) "1" true ttl) <$> parsed.

(** The marker the first pass writes. *)
Definition marker (ttl : option Z) (now : Z) : entry :=
  Entry (VStr "1") ((λ t, now + t) <$> ttl).

(** Commands that leave a visible marker as it is. *)
Definition keeps_markers (pfx : string) (c : cmd) : Prop :=
  (∃ r v ex, c = CSet (seen_key pfx r) v true ex)
  ∨ ∀ r, cmd_key c ≠ seen_key pfx r.

(** Commands that leave the footprints of [rid] alone: the [SET NX] of a
    marker, and the commands that commit another record. *)
Inductive benign (pfx : string) (ttl : option Z) (rid : string) : cmd → Prop :=
  | benign_seen r : benign pfx ttl rid (CSet (seen_key pfx r) "1" true ttl)
  | benign_req r raw :
      r ≠ rid → benign pfx ttl rid (CSet (req_key pfx r) raw false None)
  | benign_req_expire r t :
      r ≠ rid → ttl = Some t → benign pfx ttl rid (CExpire (req_key pfx r) t)
  | benign_zadd r s :
      r ≠ rid → benign pfx ttl rid (CZAdd (z_ts_key pfx) r s)
  | benign_sadd r kf v :
      r ≠ rid → kf ∈ index_fields →
      benign pfx ttl rid (CSAdd (set_key pfx kf.1 v) r)
  | benign_set_expire kf v t :
      kf ∈ index_fields → ttl = Some t →
      benign pfx ttl rid (CExpire (set_key pfx kf.1 v) t).

(** The store [st'] is reached from [st] by benign commands only. *)
Definition benign_run (pfx : string) (ttl : option Z) (now : Z) (rid : string)
    (st st' : redis) : Prop :=
  ∃ cmds, Forall (benign pfx ttl rid) cmds ∧ st' = run_cmds now st cmds.

(** An entry of the second pass that is not a new entry of [rid]. *)
Definition refused (rid : string) (tr : (string * dict * string) * reply) : Prop :=
  tr.1.1.1 = rid → reply_truthy tr.2 = false.

(** The set under [k] holds [rid] and expires at [now + T]. *)
Definition attr_fact (T now : Z) (rid k : string) (st : redis) : Prop :=
  ∃ m, st !! k = Some (Entry (VSet m) (Some (now + T))) ∧ rid ∈ m.

(** The time index holds [rid] with score [ts], and is visible. *)
Definition zset_fact (pfx : string) (now : Z) (rid : string) (ts : Q)
    (st : redis) : Prop :=
  ∃ z x, st !! z_ts_key pfx = Some (Entry (VZSet z) x)
         ∧ alive now (Entry (VZSet z) x) = true
         ∧ z !! rid = Some ts.

(** Commands that keep [attr_fact] at the key [k]. *)
Definition attr_safe (T : Z) (k : string) (c : cmd) : Prop :=
  cmd_key c ≠ k ∨ (∃ m, c = CSAdd k m) ∨ c = CExpire k T.

(** Commands that leave the expiration of the time index as it is. *)
Definition z_neutral (pfx : string) (c : cmd) : Prop :=
  cmd_key c ≠ z_ts_key pfx ∨ ∃ m s, c = CZAdd (z_ts_key pfx) m s.

Section Vocabulary.
Context `{Externals}.

(** A triple queued by the first pass: its raw entry parses to its dict,
    whose id is the non-empty string [rid]. *)
Definition parsed_ok (t : string * dict * string) : Prop :=
  json_loads t.2 = Some (JObj t.1.2)
  ∧ dict_get t.1.2 "id" = Some (JStr t.1.1)
  ∧ t.1.1 ≠ "".

(** [float(obj.get("date", 0))], the date the search API reads off a
    record; 0 stands in where the conversion raises. *)
Definition date_of (obj : dict) : Q :=
  default 0%Q (py_float (Some (default (JInt 0) (dict_get obj "date")))).

(** Consistency of the forward store with the time index: the time index
    is a sorted set without expiration, and every stored record parses to
    a dict whose date is the score of its id. *)
Definition index_ok (pfx : string) (st : redis) : Prop :=
  (∀ e, st !! z_ts_key pfx = Some e → ∃ z, e = Entry (VZSet z) None)
  ∧ (∀ rid e, st !! req_key pfx rid = Some e →
       ∃ raw obj ts,
         e_val e = VStr raw
         ∧ json_loads raw = Some (JObj obj)
         ∧ py_float (dict_get obj "date") = Some ts
         ∧ zset_at st (z_ts_key pfx) !! rid = Some ts).

(** The stores the indexer builds under the prefix [pfx]: the empty store,
    and the outcome of a completed run on such a store. *)
Inductive built (pfx : string) : redis → Prop :=
  | built_empty : built pfx ∅
  | built_run st source ttl_days chunk now st' cnt :
      built pfx st →
      main source pfx ttl_days chunk now st = Ok (st', cnt) →
      built pfx st'.

(** What the first pass keeps of a raw entry. *)
Definition entry_of (raw : string) : option (string * dict * string) :=
  match json_loads raw with
  | Some (JObj obj) =>
      match dict_get obj "id" with
      | Some (JStr rid) => if String.eqb rid "" then None else Some (rid, obj, raw)
      | _ => None
      end
  | _ => None
  end.

(** The first entry of [items] that carries the id [rid]. *)
Definition first_with_id (rid : string) (items : list string)
    : option (string * dict * string) :=
  head (filter (λ t : string * dict * string, t.1.1 = rid) (omap entry_of items)).

(** The commands of the second pass. *)
Definition commit_plan (pfx : string) (ttl : option Z)
    (todo : list ((string * dict * string) * reply)) : list cmd :=
  flat_map (λ tr : (string * dict * string) * reply,
    if reply_truthy tr.2 then
      match py_float (dict_get tr.1.1.2 "date") with
      | Some ts => commit_cmds pfx ttl tr.1.1.1 tr.1.1.2 tr.1.2 ts
      | None => []
      end
    else []) todo.

(** The commands that commit the entry [t], if its date parses. *)
Definition commit_of (pfx : string) (ttl : option Z)
    (t : string * dict * string) : list cmd :=
  match py_float (dict_get t.1.2 "date") with
  | Some ts => commit_cmds pfx ttl t.1.1 t.1.2 t.2 ts
  | None => []
  end.

(** What [attr_cmds] queues for one attribute kind when retention is [T]. *)
Definition attr_cmds_for (pfx : string) (T : Z) (rid : string) (obj : dict)
    (kf : string * string) : list cmd :=
  match dict_get obj kf.2 with
  | None => []
  | Some v =>
      if none_or_empty v then []
      else
        let k := set_key pfx kf.1 (py_str v) in
        CSAdd k rid :: expire_cmds (Some T) k
  end.

(** The main loop, over the slices themselves. *)
Fixpoint loop_chunks (pfx : string) (ttl : option Z) (now : Z)
    (chunks : list (list string)) (st : redis) (cnt : counters)
    : result (redis * counters) :=
  match chunks with
  | [] => Ok (st, cnt)
  | items :: chunks' =>
      match items with
      | [] => Ok (st, cnt)
      | _ =>
          '(st', cnt') ← process_chunk pfx ttl now st cnt items;
          loop_chunks pfx ttl now chunks' st' cnt'
      end
  end.
End Vocabulary.

(** [rid] is a member of the set the index keeps for the value [v] of the
    attribute [kind], as [SMEMBERS] answers at [now]. *)
Definition in_attr_set (now : Z) (st : redis) (pfx kind v rid : string) : Prop :=
  ∃ m, smembers now st (set_key pfx kind v) = Ok m ∧ rid ∈ m.

(** [needle] occurs in [hay]. *)
Definition substring (needle hay : string) : Prop :=
  ∃ a b, hay = a +:+ needle +:+ b.

(** The request [q] without its substring filters. *)
Definition without_substrings (q : request) : request :=
  Request (start q) (end_ q) (prefix q) (server_name q) (ip q)
          (security_mode q) (status q) (reason q) (country q) (method q)
          None None (order q) (limit q).

Section RecordVocabulary.
Context `{Externals}.

(** The record [obj] passes the substring filters of [q]: its url contains
    [url_contains] as it is written, its user agent contains [ua_contains]
    whatever the case of the letters; an absent or empty filter lets every
    record pass. *)
Definition passes (q : request) (obj : dict) : Prop :=
  (∀ n, url_contains q = Some n → n ≠ "" →
     substring n (py_str (default (JStr "") (dict_get obj "url"))))
  ∧ (∀ n, ua_contains q = Some n → n ≠ "" →
     substring (str_lower n)
       (str_lower (py_str (default (JStr "") (dict_get obj "user_agent"))))).

(** The record the search reads for [rid] at [now]. *)
Definition stored_record (now : Z) (st : redis) (pfx rid : string)
    (obj : dict) : Prop :=
  ∃ raw, rget now st (req_key pfx rid) = Ok (Some raw)
         ∧ raw ≠ "" ∧ json_loads raw = Some (JObj obj).

(** The entries of [parsed] that a run started on [st] at [now] marks: of
    each id the first entry that carries it, unless the marker of the id
    is visible in [st] or the id is in [old]. *)
Fixpoint fresh_entries (now : Z) (st : redis) (pfx : string)
    (old : gset string) (parsed : list (string * dict * string))
    : list (string * dict * string) :=
  match parsed with
  | [] => []
  | t :: parsed' =>
      let rest := fresh_entries now st pfx ({[t.1.1]} ∪ old) parsed' in
      if bool_decide (t.1.1 ∈ old)
         || bool_decide (marked now st (seen_key pfx t.1.1))
      then rest else t :: rest
  end.

(** The date of the entry does not convert to a number. *)
Definition undated (t : string * dict * string) : bool :=
  match py_float (dict_get t.1.2 "date") with
  | None => true
  | Some _ => false
  end.

(** The entries of the source that a run started on [st] at [now] marks. *)
Definition newly_marked (now : Z) (st : redis) (pfx : string)
    (source : list string) : list (string * dict * string) :=
  fresh_entries now st pfx ∅ (omap entry_of source).
End RecordVocabulary.

(** The markers of [st] are those of [st0] and those of the ids of
    [old]. *)
Definition markers_of (pfx : string) (now : Z) (st0 : redis)
    (old : gset string) (st : redis) : Prop :=
  ∀ r, marked now st (seen_key pfx r)
       ↔ marked now st0 (seen_key pfx r) ∨ r ∈ old.

(** The commands of a run come in groups: a marker with its expiration, a
    [SET] or [SADD] followed by the [EXPIRE] of its key, a [ZADD] on the
    time index [z]. *)
Inductive grouped (z : string) (T : Z) : list cmd → Prop :=
  | grouped_nil : grouped z T []
  | grouped_marker k v l :
      k ≠ z → grouped z T l → grouped z T (CSet k v true (Some T) :: l)
  | grouped_set k v l :
      k ≠ z → grouped z T l →
      grouped z T (CSet k v false None :: CExpire k T :: l)
  | grouped_zadd r s l :
      grouped z T l → grouped z T (CZAdd z r s :: l)
  | grouped_sadd k r l :
      k ≠ z → grouped z T l →
      grouped z T (CSAdd k r :: CExpire k T :: l).

(** What a run that started on [st0] and has had [n] commands executed may
    have made of the entry [e] under the key [k]: nothing; on the time
    index [z], an entry without expiration or with the expiration it had
    in [st0]; elsewhere, an entry whose deadline is [T] after the time of
    one of the commands, or that had expired by then. *)
Definition touched (clk : nat → Z) (T : Z) (z : string) (st0 : redis)
    (n : nat) (k : string) (e : entry) : Prop :=
  st0 !! k = Some e
  ∨ (k = z ∧ (e_exp e = None ∨ ∃ e0, st0 !! k = Some e0 ∧ e_exp e = e_exp e0))
  ∨ (k ≠ z ∧ ∃ i, (i < n)%nat
       ∧ (e_exp e = Some (clk i + T) ∨ alive (clk i) e = false)).

Definition horizons (clk : nat → Z) (T : Z) (z : string) (st0 : redis)
    (n : nat) (st : redis) : Prop :=
  ∀ k e, st !! k = Some e → touched clk T z st0 n k e.

(** The outcome of a run without its number of commands. *)
Definition forget {A B C} (r : result (A * B * C)) : result (A * B) :=
  match r with
  | Ok (a, b, _) => Ok (a, b)
  | Raise e => Raise e
  end.

(** The expirations a run asks for: none or [T] on a [SET], [T] on an
    [EXPIRE], and none on the time index [z]. *)
Definition timed (z : string) (T : Z) (c : cmd) : Prop :=
  match c with
  | CSet k _ _ ex => ex = None ∨ (ex = Some T ∧ k ≠ z)
  | CExpire k s => s = T ∧ k ≠ z
  | _ => True
  end.

(** The entry [ec] of a run under the clock [clk] against the entry [es] of
    the same run with every command executed at [clk 0]: the same value;
    [ec] is visible at every clock value of the run if and only if [es] is
    visible at the first; the same deadline, or deadlines that both runs
    have set. *)
Definition entry_sim (clk : nat → Z) (T : Z) (z : string) (N : nat)
    (k : string) (ec es : entry) : Prop :=
  e_val ec = e_val es
  ∧ (∀ j, (j < N)%nat → alive (clk j) ec = alive (clk 0%nat) es)
  ∧ (e_exp ec = e_exp es
     ∨ (k ≠ z ∧ e_exp es = Some (clk 0%nat + T)
        ∧ ∃ i, (i < N)%nat ∧ e_exp ec = Some (clk i + T))).

Definition store_sim (clk : nat → Z) (T : Z) (z : string) (N : nat)
    (stc sts : redis) : Prop :=
  ∀ k, option_Forall2 (entry_sim clk T z N k) (stc !! k) (sts !! k).

(** A run of [n] commands whose clock does not go back and that lasts less
    than [T]. *)
Definition short_run (clk : nat → Z) (n : nat) (T : Z) : Prop :=
  (∀ i j, (i ≤ j)%nat → clk i ≤ clk j)
  ∧ ∀ i, (i < n)%nat → clk i < clk 0%nat + T.

(** No key that is visible in [st] when the run starts expires before the
    run ends. *)
Definition no_expiry (clk : nat → Z) (n : nat) (st : redis) : Prop :=
  ∀ k e i, (i < n)%nat → st !! k = Some e →
           alive (clk 0%nat) e = true → alive (clk i) e = true.

(** The deadline of [e] is [T] after the time of one of the [n] commands of
    the run. *)
Definition deadline_in (clk : nat → Z) (n : nat) (T : Z) (e : entry) : Prop :=
  ∃ i, (i < n)%nat ∧ e_exp e = Some (clk i + T).

(** ** A concrete instance of the interface, for the examples

    The parser is a table from a few raw entries to their parsed values:
    [rec_a] and [rec_b] are the two records of the specification's scenario,
    [rec_nodate] has no date, [rec_c] and [rec_d] carry a url, [rec_e] has
    the address of [rec_a]. *)

Definition rec_a : dict :=
  [("id", JStr "a"); ("date", JInt 1000); ("ip", JStr "1.2.3.4");
   ("security_mode", JStr "block")].
Definition rec_b : dict :=
  [("id", JStr "b"); ("date", JInt 2000); ("ip", JStr "5.6.7.8");
   ("security_mode", JStr "allow")].
Definition rec_nodate : dict :=
  [("id", JStr "n"); ("ip", JStr "1.2.3.4")].
Definition rec_c : dict :=
  [("id", JStr "c"); ("date", JInt 3000); ("url", JStr "/index")].
Definition rec_d : dict :=
  [("id", JStr "d"); ("date", JInt 4000); ("url", JStr "/admin")].
Definition rec_e : dict :=
  [("id", JStr "e"); ("date", JInt 5000); ("ip", JStr "1.2.3.4")].

Definition demo_json_loads (raw : string) : option json :=
  if String.eqb raw "rec_a" then Some (JObj rec_a)
  else if String.eqb raw "rec_b" then Some (JObj rec_b)
  else if String.eqb raw "rec_nodate" then Some (JObj rec_nodate)
  else if String.eqb raw "rec_c" then Some (JObj rec_c)
  else if String.eqb raw "rec_d" then Some (JObj rec_d)
  else if String.eqb raw "rec_e" then Some (JObj rec_e)
  else None.

Definition demo : Externals := {|
  json_loads := demo_json_loads;
  py_repr := λ _, "?";
  float_of_str := λ _, None;
  datetime := Q;
  dtparser_parse := λ _, None;
  tzinfo_is_none := λ _, false;
  replace_tzinfo := λ dt, dt;
  timestamp := λ dt, dt;
  date_human := λ _, Some "t";
|}.

(** A request with neither filters nor substring filters. *)
Definition plain_request (s e : string) (o : string) (lim : Z) : request :=
  Request s e "bw_idx" None None None None None None None None None o lim.

(** The index after one run over the source [source], from the empty store at
    time 0 with the default retention and chunk size. *)
Definition demo_index (source : list string) : redis :=
  match @main demo source "bw_idx" 60 500 0 ∅ with
  | Ok (st, _) => st
  | Raise _ => ∅
  end.

(** The blocked requests of one address, any time. *)
Definition blocked_request : request :=
  Request "0" "9999" "bw_idx" None (Some "1.2.3.4") (Some "block") None
          None None None None None "newest" 50.

(** The oldest record whose url contains [admin]. *)
Definition admin_request : request :=
  Request "0" "9999" "bw_idx" None None None None
          None None None (Some "admin") None "oldest" 1.

(** A record as the search API returns it under [demo]. *)
Definition annotated (obj : dict) : dict :=
  dict_set obj "_date_human" (JStr "t").

(** The index [demo_index ["rec_a"]] after a second run, 100 seconds later,
    over a source that holds [rec_e]. *)
Definition demo_index_later : redis :=
  match @main demo ["rec_e"] "bw_idx" 60 500 100 (demo_index ["rec_a"]) with
  | Ok (st, _) => st
  | Raise _ => ∅
  end.

(** The requests of one address, any time. *)
Definition ip_request : request :=
  Request "0" "9999" "bw_idx" None (Some "1.2.3.4") None None
          None None None None None "newest" 50.

(** The reading of the retention invariant that gives the forward entry, the
    marker and the time index of a record one common expiration. *)
Definition same_horizon (pfx : string) (st : redis) (rid : string) : Prop :=
  ∃ h : option Z,
    e_exp <$> st !! req_key pfx rid = Some h
    ∧ e_exp <$> st !! seen_key pfx rid = Some h
    ∧ e_exp <$> st !! z_ts_key pfx = Some h.

(** ** Vocabulary of the further properties *)

(** What the first pass does not queue. *)
Section Rejected.
Context `{Externals}.

(** The first pass counts [raw] in [bad_json]. *)
Definition malformed (raw : string) : bool :=
  match json_loads raw with None => true | Some _ => false end.

(** The first pass counts [raw] in [no_id]: a dict without a truthy id. *)
Definition lacks_id (raw : string) : bool :=
  match json_loads raw with
  | Some (JObj obj) =>
      match dict_get obj "id" with
      | None => true
      | Some v => negb (py_truthy v)
      end
  | _ => false
  end.
End Rejected.


(** How often a key equal to [k] occurs in [l]. *)
Definition count_of (k : json) (l : list json) : nat :=
  length (List.filter (py_eq k) l).

(** No two pairs of [c] have equal keys. *)
Definition distinct_keys (c : list (json * nat)) : Prop :=
  NoDup c ∧ ∀ x y, x ∈ c → y ∈ c → py_eq x.1 y.1 = true → x = y.

(** The table after counting [l]. *)
Definition counts_ok (l : list json) (c : list (json * nat)) : Prop :=
  distinct_keys c
  ∧ (∀ k n, (k, n) ∈ c → k ∈ l ∧ n = count_of k l)
  ∧ (∀ v, v ∈ l → ∃ k n, (k, n) ∈ c ∧ py_eq k v = true).

(** The order of [most_common]. *)
Definition by_count : relation (json * nat) := λ x y, (y.2 ≤ x.2)%nat.

(** The three aggregates of an answer, with the field each one counts. *)
Definition tops_of (a : answer) : list (string * list (json * nat)) :=
  [("ip", top_ips a); ("url", top_urls a); ("reason", top_reasons a)].

(** The fields the aggregates count. *)
Definition top_fields : list string := ["ip"; "url"; "reason"].

(** The sample of a record. *)
Definition sample (d : dict) : json :=
  JObj ((λ k, (k, default JNull (dict_get d k))) <$> sample_keys).

(** What a run sends, and what it keeps true of the store. *)
Section Sent.
Context `{Externals}.

(** The commands a run of the indexer sends. *)
Inductive issued (pfx : string) (ttl : option Z) : cmd → Prop :=
  | issued_seen r : issued pfx ttl (CSet (seen_key pfx r) "1" true ttl)
  | issued_req r obj raw :
      parsed_ok (r, obj, raw) →
      issued pfx ttl (CSet (req_key pfx r) raw false None)
  | issued_req_expire r t :
      ttl = Some t → issued pfx ttl (CExpire (req_key pfx r) t)
  | issued_zadd r s : issued pfx ttl (CZAdd (z_ts_key pfx) r s)
  | issued_sadd r kf v :
      kf ∈ index_fields → issued pfx ttl (CSAdd (set_key pfx kf.1 v) r)
  | issued_set_expire kf v t :
      kf ∈ index_fields → ttl = Some t →
      issued pfx ttl (CExpire (set_key pfx kf.1 v) t).

(** Every attribute key of the index holds a set. *)
Definition sets_ok (pfx : string) (st : redis) : Prop :=
  ∀ kf v e, kf ∈ index_fields → st !! set_key pfx kf.1 v = Some e →
    ∃ m, e_val e = VSet m.

End Sent.

(** ** A second instance, for the examples of the further properties

    The table of [demo], and four records more: [rec_l], whose address is
    a list, [rec_noid], which has no id, [rec_u], which carries a url and a
    user agent, and [rec_m], whose date is not a number. *)

Definition rec_l : dict :=
  [("id", JStr "l"); ("date", JInt 6000);
   ("ip", JArr [JStr "1.2.3.4"; JStr "5.6.7.8"])].
Definition rec_noid : dict :=
  [("date", JInt 7000); ("ip", JStr "1.2.3.4")].
Definition rec_u : dict :=
  [("id", JStr "u"); ("date", JInt 8000); ("ip", JStr "5.6.7.8");
   ("url", JStr "/Admin/login"); ("user_agent", JStr "Mozilla/5.0 SQLMap")].

Definition rec_m : dict :=
  [("id", JStr "m"); ("date", JStr "soon"); ("ip", JStr "1.2.3.4")].

Definition odd_json_loads (raw : string) : option json :=
  if String.eqb raw "rec_l" then Some (JObj rec_l)
  else if String.eqb raw "rec_noid" then Some (JObj rec_noid)
  else if String.eqb raw "rec_u" then Some (JObj rec_u)
  else if String.eqb raw "rec_m" then Some (JObj rec_m)
  else demo_json_loads raw.

Definition odd : Externals := {|
  json_loads := odd_json_loads;
  py_repr := λ _, "?";
  float_of_str := λ _, None;
  datetime := Q;
  dtparser_parse := λ _, None;
  tzinfo_is_none := λ _, false;
  replace_tzinfo := λ dt, dt;
  timestamp := λ dt, dt;
  date_human := λ _, Some "t";
|}.

(** The store after one run under [odd] over [source], with a retention of
    [ttl_days] days, started at time [now] on the store [st]. *)
Definition odd_run (source : list string) (ttl_days now : Z) (st : redis)
    : redis :=
  match @main odd source "bw_idx" ttl_days 500 now st with
  | Ok (st', _) => st'
  | Raise _ => ∅
  end.

(** Everything whose url contains [Admin] and whose user agent contains
    [sqlmap]. *)
Definition probe_request : request :=
  Request "0" "9999" "bw_idx" None None None None
          None None None (Some "Admin") (Some "sqlmap") "newest" 50.

(** The oldest record whose url contains [Admin] and whose user agent
    contains [sqlmap], asked for in capitals. *)
Definition probe_oldest : request :=
  Request "0" "9999" "bw_idx" None None None None
          None None None (Some "Admin") (Some "SQLMAP") "oldest" 1.

(** The index after one run over [source] from the empty store, with the
    default retention and chunk size, under a clock that advances by one
    second with every command. *)
Definition demo_index_at (source : list string) : redis :=
  match @main_at demo Z.of_nat source "bw_idx" 60 500 ∅ with
  | Ok (st, _, _) => st
  | Raise _ => ∅
  end.

(** The answer to a search for everything, over five records. *)
Definition demo_answer : answer :=
  match @search_reports_answer demo 0
          (demo_index ["rec_a"; "rec_b"; "rec_c"; "rec_d"; "rec_e"])
          (plain_request "0" "9999" "newest" 50) with
  | Ok a => a
  | Raise _ => Answer (Response 0 []) [] [] []
  end.

(** The summary the chat client makes of it. *)
Definition demo_summary : json :=
  match api_search_reports (encode_answer demo_answer) with
  | Ok s => s
  | Raise _ => JNull
  end.

(** * Properties *)

(** ** Resolving [start] and [end] *)

Example decimal_value_seconds :
  decimal_value "1767285096.831" = Qmake 1767285096831 1000.
Proof. reflexivity. Qed.

Example decimal_value_trailing_dot : decimal_value "5." = Qmake 5 1.
Proof. reflexivity. Qed.

Example to_epoch_at_threshold :
  @to_epoch demo " 10000000000 " = Ok (Qmake 10000000000 1).
Proof. reflexivity. Qed.

Example to_epoch_above_threshold :
  @to_epoch demo "10000000001" = Ok (Qmake 5368709120536871 536870912).
Proof. vm_compute. reflexivity. Qed.

Example float_round_tenth :
  float_round (1 # 10) = Qmake 3602879701896397 36028797018963968.
Proof. vm_compute. reflexivity. Qed.

Example float_round_tie_even :
  float_round 9007199254740993 = 9007199254740992%Q
  ∧ float_round 9007199254740995 = 9007199254740996%Q.
Proof. split; vm_compute; reflexivity. Qed.

(** *** Doubles and numerals *)

Lemma float_round_proper p q : (p == q)%Q → float_round p = float_round q.
Proof. intros Heq. unfold float_round. by rewrite (Qred_complete _ _ Heq). Qed.

Lemma Qred_inject_Z k : Qred (inject_Z k) = inject_Z k.
Proof.
  pose proof (Qred_correct (inject_Z k)) as Heq.
  pose proof (gcd_Qred (inject_Z k)) as Hg.
  destruct (Qred (inject_Z k)) as [a d]. unfold Qeq in Heq. simpl in *.
  rewrite Z.mul_1_r in Heq. subst a.
  rewrite Z.gcd_comm, (Z.mul_comm k), Z.gcd_mul_diag_l in Hg by lia.
  assert (d = 1%positive) as -> by lia. unfold inject_Z. f_equal. lia.
Qed.

Lemma float_round_int k :
  0 < k < 2 ^ 53 → (float_round (inject_Z k) == inject_Z k)%Q.
Proof.
  intros [Hpos Hlt]. unfold float_round.
  rewrite Qred_inject_Z.
  cbn [Qnum inject_Z]. destruct (Z.leb_spec k 0); [lia|].
  pose proof (Z.log2_spec k Hpos) as [Hlo Hhi].
  pose proof (Z.log2_nonneg k) as Hnn.
  assert (Z.log2 k ≤ 52) as H52.
  { apply Z.lt_succ_r, (Z.pow_lt_mono_r_iff 2); lia. }
  assert (ilog2 (inject_Z k) = Z.log2 k) as ->.
  { unfold ilog2. cbn [Qnum Qden inject_Z]. change (Z.log2 1) with 0.
    rewrite Z.sub_0_r.
    assert (Qle_bool (pow2 (Z.log2 k)) (inject_Z k) = true) as ->; [|done].
    apply Qle_bool_iff. unfold pow2. destruct (Z.leb_spec 0 (Z.log2 k)); [|lia].
    rewrite <-Zle_Qle. done. }
  set (d := 52 - Z.log2 k).
  assert (0 ≤ d) by (unfold d; lia).
  assert (pow2 d = inject_Z (2 ^ d)) as ->.
  { unfold pow2. by destruct (Z.leb_spec 0 d); [|lia]. }
  assert (round_half_even (inject_Z k * inject_Z (2 ^ d)) = k * 2 ^ d) as ->.
  { rewrite <-inject_Z_mult. generalize (k * 2 ^ d). intros z.
    unfold round_half_even. cbn [Qnum Qden inject_Z].
    rewrite Z.div_1_r.
    assert (Qcompare (inject_Z z - inject_Z z) (1 # 2) = Lt) as ->; [|done].
    assert (inject_Z z - inject_Z z == 0)%Q as -> by ring. done. }
  rewrite Qred_correct.
  assert (Z.log2 k - 52 = - d) as -> by (unfold d; lia).
  unfold pow2. destruct (Z.leb_spec 0 (- d)).
  - assert (d = 0) as -> by lia. simpl. unfold Qeq. simpl. lia.
  - rewrite Z.opp_involutive.
    assert (0 < 2 ^ d) by (apply Z.pow_pos_nonneg; lia).
    rewrite inject_Z_mult. field.
    intros Heq. apply (inject_Z_injective (2 ^ d) 0) in Heq. lia.
Qed.

Lemma digits_only_all s : digits_only s ↔ all_digits s = true.
Proof.
  unfold digits_only. induction s as [|c s IH]; simpl.
  - split; [done|constructor].
  - rewrite Forall_cons, IH, andb_true_iff. unfold is_digit.
    rewrite andb_true_iff, !N.leb_le. tauto.
Qed.

Lemma digits_acc_app a b acc :
  digits_acc acc (a +:+ b) = digits_acc (digits_acc acc a) b.
Proof.
  revert acc. induction a as [|c a IH]; intros acc; [done|].
  change (String c a +:+ b) with (String c (a +:+ b)). simpl. apply IH.
Qed.

Lemma digit_not_dot c : is_digit c = true → Ascii.eqb c dot_char = false.
Proof. intros Hd. apply Ascii.eqb_neq. by intros ->. Qed.

(** Reading digits before the dot. *)
Lemma decimal_go_int a rest : ∀ num den,
  all_digits a = true →
  decimal_go (a +:+ rest) num den false
  = decimal_go rest (digits_acc num a) den false.
Proof.
  induction a as [|c a IH]; intros num den Ha; [done|].
  simpl in Ha. apply andb_true_iff in Ha as [Hc Ha].
  change (String c a +:+ rest) with (String c (a +:+ rest)).
  cbn [decimal_go digits_acc]. rewrite (digit_not_dot _ Hc).
  by rewrite IH.
Qed.

(** Reading digits after the dot. *)
Lemma decimal_go_frac b : ∀ num den,
  all_digits b = true →
  decimal_go b num den true
  = Qmake (digits_acc num b)
          (den * Z.to_pos (10 ^ Z.of_nat (String.length b))).
Proof.
  induction b as [|c b IH]; intros num den Hb.
  - simpl. by rewrite Pos.mul_1_r.
  - simpl in Hb. apply andb_true_iff in Hb as [Hc Hb].
    cbn [decimal_go digits_acc]. rewrite (digit_not_dot _ Hc).
    rewrite IH by done. f_equal.
    cbn [String.length]. rewrite Nat2Z.inj_succ, Z.pow_succ_r by lia.
    assert (0 < 10 ^ Z.of_nat (String.length b)) by (apply Z.pow_pos_nonneg; lia).
    rewrite Z2Pos.inj_mul by lia. simpl. lia.
Qed.

Lemma drop_first_dot_int a rest :
  all_digits a = true →
  drop_first_dot (a +:+ "." +:+ rest) = a +:+ rest.
Proof.
  induction a as [|c a IH]; intros Ha; [done|].
  simpl in Ha. apply andb_true_iff in Ha as [Hc Ha].
  change (String c a +:+ "." +:+ rest) with (String c (a +:+ "." +:+ rest)).
  change (String c a +:+ rest) with (String c (a +:+ rest)).
  cbn [drop_first_dot]. rewrite (digit_not_dot _ Hc). by rewrite IH.
Qed.

Lemma drop_first_dot_digits a : all_digits a = true → drop_first_dot a = a.
Proof.
  induction a as [|c a IH]; intros Ha; [done|].
  simpl in Ha. apply andb_true_iff in Ha as [Hc Ha].
  cbn [drop_first_dot]. rewrite (digit_not_dot _ Hc). by rewrite IH.
Qed.

Lemma all_digits_app s t :
  all_digits s = true → all_digits t = true → all_digits (s +:+ t) = true.
Proof.
  induction s as [|c s IH]; [done|].
  change (String c s +:+ t) with (String c (s +:+ t)). simpl.
  intros [Hc Hs]%andb_true_iff Ht. rewrite Hc. by apply IH.
Qed.

Lemma string_app_nil_r s : s +:+ "" = s.
Proof.
  induction s as [|c s IH]; [done|].
  change (String c (s +:+ "") = String c s). by rewrite IH.
Qed.

(** The numerals the numeric test accepts, and what they denote. *)
Lemma numeral_numeric s a b :
  digits_only a → digits_only b → a +:+ b ≠ "" →
  s = a +:+ "." +:+ b ∨ (s = a ∧ b = "") →
  isdigit (drop_first_dot s) = true
  ∧ (decimal_value s == numeral_value a b)%Q.
Proof.
  intros Ha%digits_only_all Hb%digits_only_all Hne [->|[-> ->]].
  - split.
    + rewrite drop_first_dot_int by done.
      unfold isdigit. destruct (a +:+ b) eqn:Hab; [done|].
      rewrite <-Hab. by apply all_digits_app.
    + unfold decimal_value, numeral_value, digits_value.
      rewrite decimal_go_int by done.
      change ("." +:+ b) with (String dot_char b). cbn [decimal_go].
      rewrite Ascii.eqb_refl, decimal_go_frac by done.
      rewrite digits_acc_app.
      assert (0 < 10 ^ Z.of_nat (String.length b)) by (apply Z.pow_pos_nonneg; lia).
      rewrite Pos.mul_1_l.
      unfold Qeq, Qdiv, Qmult, Qinv. simpl.
      destruct (10 ^ Z.of_nat (String.length b)) eqn:Hp; try lia.
      simpl. lia.
  - rewrite string_app_nil_r in *. split.
    + rewrite drop_first_dot_digits by done. unfold isdigit.
      by destruct a.
    + unfold decimal_value, numeral_value. rewrite string_app_nil_r.
      rewrite <-(string_app_nil_r a) at 1. rewrite decimal_go_int by done.
      simpl. unfold Qeq, Qdiv, Qmult, Qinv, digits_value. simpl. lia.
Qed.

Section ToEpoch.
Context `{Externals}.

Lemma to_epoch_unparseable x : unparseable x → to_epoch x = Raise ParserError.
Proof. intros [Hd Hp]. unfold to_epoch. by rewrite Hd, Hp. Qed.

(** C8, as amended: for a numeral with integer part [a] and fraction [b]
    (digits, with at most one dot between them; at most 308 digits before
    the dot and 300 after it, so that [float] neither overflows nor leaves
    the normal numbers), the threshold is tested on [n], the double nearest
    to the value of the numeral: the outcome is [n / 1000], as a double,
    when [n > 10^10], and [n] otherwise, [10^10] itself included; the date
    parser of the interface plays no part in it. *)
Theorem to_epoch_threshold (x a b : string) :
  digits_only a → digits_only b →
  (String.length a ≤ 308)%nat → (String.length b ≤ 300)%nat →
  a +:+ b ≠ "" →
  py_strip x = a +:+ "." +:+ b ∨ (py_strip x = a ∧ b = "") →
  let n := float_round (numeral_value a b) in
  ((10000000000 < n)%Q → to_epoch x = Ok (float_round (n / 1000)))
  ∧ ((n <= 10000000000)%Q → to_epoch x = Ok n)
  ∧ ∀ E' : Externals, @to_epoch E' x = to_epoch x.
Proof.
  intros Ha Hb _ _ Hne Hs n.
  destruct (numeral_numeric _ _ _ Ha Hb Hne Hs) as [Hnum Hval].
  unfold to_epoch. rewrite Hnum.
  rewrite (float_round_proper _ _ Hval). fold n. split_and!.
  - intros Hlt. destruct (Qle_bool n 10000000000) eqn:Hle; [|done].
    apply Qle_bool_iff in Hle. by apply Qlt_not_le in Hlt.
  - intros Hle. apply Qle_bool_iff in Hle. by rewrite Hle.
  - done.
Qed.
End ToEpoch.

Lemma to_epoch_threshold_witness :
  @to_epoch demo " 10000000000 " = Ok (Qmake 10000000000 1)
  ∧ @to_epoch demo "1767285096831" = Ok (Qmake 7412530950778651 4194304)
  ∧ @to_epoch demo "1767285096.831" = Ok (Qmake 7412530950778651 4194304).
Proof.
  split_and!.
  - destruct (@to_epoch_threshold demo " 10000000000 " "10000000000" "")
      as (_ & Hle & _).
    + by apply digits_only_all.
    + by apply digits_only_all.
    + simpl. lia.
    + simpl. lia.
    + discriminate.
    + right. split; reflexivity.
    + apply Hle. vm_compute. discriminate.
  - destruct (@to_epoch_threshold demo "1767285096831" "1767285096831" "")
      as (Hlt & _ & _).
    + by apply digits_only_all.
    + by apply digits_only_all.
    + simpl. lia.
    + simpl. lia.
    + discriminate.
    + right. split; reflexivity.
    + apply Hlt. vm_compute. reflexivity.
  - destruct (@to_epoch_threshold demo "1767285096.831" "1767285096" "831")
      as (_ & Hle & _).
    + by apply digits_only_all.
    + by apply digits_only_all.
    + simpl. lia.
    + simpl. lia.
    + discriminate.
    + left. reflexivity.
    + apply Hle. vm_compute. discriminate.
Defined.

(** C8, as stated, fails: the value of the numeral [10000000000.0000001] is
    strictly greater than 10^10, yet it resolves to 10^10, as seconds: the
    double nearest to it is 10^10. *)
Lemma to_epoch_threshold_counterexample :
  (10000000000 < numeral_value "10000000000" "0000001")%Q
  ∧ @to_epoch demo "10000000000.0000001" = Ok 10000000000%Q
  ∧ ¬ (10000000000 == numeral_value "10000000000" "0000001" / 1000)%Q.
Proof.
  split_and!.
  - vm_compute. reflexivity.
  - vm_compute. reflexivity.
  - vm_compute. discriminate.
Qed.

(** ** The result monad *)

Lemma bind_Ok {A B} (m : result A) (f : A → result B) b :
  m ≫= f = Ok b ↔ ∃ a, m = Ok a ∧ f a = Ok b.
Proof.
  destruct m as [a|e]; simpl; split.
  - eauto.
  - by intros (? & [= <-] & ?).
  - done.
  - by intros (? & ? & ?).
Qed.

Ltac inv_bind H :=
  repeat match type of H with
  | _ ≫= _ = Ok _ =>
      let a := fresh "a" in
      let Ha := fresh "Ha" in
      apply bind_Ok in H as (a & Ha & H)
  end.

(** ** Time range errors *)

Section TimeErrors.
Context `{Externals}.

(** C5, as amended: a request whose [start] or [end] cannot be resolved
    is not answered with defaulted bounds; the parser's exception escapes
    the handler and the caller receives status 500. *)
Theorem search_unparseable_time (now : Z) (st : redis) (q : request) :
  unparseable (start q) ∨ unparseable (end_ q) →
  is_ok (search_reports now st q) = false
  ∧ http_status (search_reports now st q) = 500.
Proof.
  intros Hbad.
  assert (∃ e, search_reports now st q = Raise e) as [e He];
    [|by rewrite He].
  unfold search_reports, search_ids.
  destruct Hbad as [Hs|He].
  - rewrite (to_epoch_unparseable _ Hs). by eexists.
  - rewrite (to_epoch_unparseable _ He).
    destruct (to_epoch (start q)); by eexists.
Qed.
End TimeErrors.

Lemma search_unparseable_time_witness :
  http_status (@search_reports demo 0 ∅ (plain_request "yesterday" "0" "newest" 50))
  = 500.
Proof.
  apply (@search_unparseable_time demo 0 ∅
           (plain_request "yesterday" "0" "newest" 50)).
  left. split; reflexivity.
Defined.

(** C5, as stated, fails: the status answered for an unparseable [start] is
    not a client error. *)
Lemma search_unparseable_time_not_client_error :
  ¬ client_error
      (http_status
         (@search_reports demo 0 ∅ (plain_request "yesterday" "0" "newest" 50))).
Proof. vm_compute. intros [_ Hle]. by apply Hle. Qed.

(** ** Exact filters *)

Section Filters.
Context `{Externals}.
Context (now : Z) (st : redis).

Lemma smembers_raise k e :
  smembers now st k = Raise e → e = ResponseError.
Proof.
  unfold smembers.
  destruct (rlookup now st k) as [[[] ?]|]; naive_solver.
Qed.

Lemma apply_filters_elem pfx fs : ∀ c c',
  apply_filters now st pfx c fs = Ok c' →
  ∀ rid, rid ∈ c' ↔
    rid ∈ c ∧ ∀ kv, kv ∈ fs →
      ∃ m, smembers now st (set_key pfx kv.1 kv.2) = Ok m ∧ rid ∈ m.
Proof.
  induction fs as [|kv fs IH]; intros c c' Hc rid; simpl in Hc.
  - injection Hc as <-. split; [|tauto].
    intros ?. split; [done|]. intros ? ?%elem_of_nil. done.
  - inv_bind Hc. unfold intersect in Ha. inv_bind Ha.
    injection Ha as <-.
    rewrite (IH _ _ Hc). split.
    + intros [[Hin Hm]%elem_of_intersection Hfs]. split; [done|].
      intros kv' [->|?]%elem_of_cons; eauto.
    + intros [Hin Hfs]. split.
      * apply elem_of_intersection. split; [done|].
        destruct (Hfs kv) as (m & Hm & ?); [left|]. congruence.
      * intros kv' ?. apply Hfs. by right.
Qed.

Lemma apply_filters_swap pfx c x y fs :
  apply_filters now st pfx c (x :: y :: fs)
  = apply_filters now st pfx c (y :: x :: fs).
Proof.
  simpl. unfold intersect.
  destruct (smembers now st (set_key pfx x.1 x.2)) as [mx|ex] eqn:Hx;
    destruct (smembers now st (set_key pfx y.1 y.2)) as [my|ey] eqn:Hy;
    simpl; rewrite ?Hx, ?Hy; simpl.
  - by rewrite <-!(assoc_L (∩)), (comm_L (∩) mx).
  - done.
  - done.
  - apply smembers_raise in Hx, Hy. congruence.
Qed.

Lemma apply_filters_perm pfx fs fs' :
  fs ≡ₚ fs' → ∀ c,
  apply_filters now st pfx c fs = apply_filters now st pfx c fs'.
Proof.
  induction 1 as [|x l l' _ IH|x y l|l l' l'' _ IH1 _ IH2]; intros c.
  - done.
  - simpl. destruct (intersect now st pfx c x); simpl; [apply IH|done].
  - apply apply_filters_swap.
  - by rewrite IH1.
Qed.

Lemma filter_if_Forall (P : string * string → Prop) kind o :
  Forall P (filter_if kind o) ↔ ∀ v, o = Some v → v ≠ "" → P (kind, v).
Proof.
  unfold filter_if. destruct o as [v|].
  - destruct (String.eqb_spec v "") as [->|Hne].
    + split; [by intros _ ? [= <-]|constructor].
    + rewrite Forall_singleton. split; [by intros ?? [= <-]|]. eauto.
  - split; [done|constructor].
Qed.

(** The filters a request supplies, field by field. *)
Lemma exact_filters_Forall (P : string * string → Prop) q :
  Forall P (exact_filters q) ↔
    (∀ v, ip q = Some v → v ≠ "" → P ("ip", v))
    ∧ (∀ v, server_name q = Some v → v ≠ "" → P ("server", v))
    ∧ (∀ v, security_mode q = Some v → v ≠ "" → P ("mode", v))
    ∧ (∀ n, status q = Some n → P ("status", pretty n))
    ∧ (∀ v, reason q = Some v → v ≠ "" → P ("reason", v))
    ∧ (∀ v, country q = Some v → v ≠ "" → P ("country", v))
    ∧ (∀ v, method q = Some v → v ≠ "" → P ("method", v)).
Proof.
  unfold exact_filters. rewrite !Forall_app, !filter_if_Forall.
  assert (Forall P match status q with
                   | Some n => [("status", pretty n)]
                   | None => []
                   end
          ↔ ∀ n, status q = Some n → P ("status", pretty n)) as ->; [|done].
  destruct (status q) as [n|].
  - rewrite Forall_singleton. split; [by intros ?? [= <-]|eauto].
  - split; [done|constructor].
Qed.

(** C4: the candidate set is exactly the ids of the time window that
    belong, for every exact filter the request carries with a value that is
    not empty, to the attribute-index set of that value ([status], whenever
    it is given, under its decimal string); a filter that is absent or
    empty imposes nothing; and applying the supplied filters in any other
    order gives the same set. *)
Theorem candidates_intersection (q : request) (ids : list string)
    (c : gset string) :
  search_candidates now st q ids = Ok c →
  (∀ rid, rid ∈ c ↔
     rid ∈ ids
     ∧ (∀ v, ip q = Some v → v ≠ "" →
          in_attr_set now st (prefix q) "ip" v rid)
     ∧ (∀ v, server_name q = Some v → v ≠ "" →
          in_attr_set now st (prefix q) "server" v rid)
     ∧ (∀ v, security_mode q = Some v → v ≠ "" →
          in_attr_set now st (prefix q) "mode" v rid)
     ∧ (∀ n, status q = Some n →
          in_attr_set now st (prefix q) "status" (pretty n) rid)
     ∧ (∀ v, reason q = Some v → v ≠ "" →
          in_attr_set now st (prefix q) "reason" v rid)
     ∧ (∀ v, country q = Some v → v ≠ "" →
          in_attr_set now st (prefix q) "country" v rid)
     ∧ (∀ v, method q = Some v → v ≠ "" →
          in_attr_set now st (prefix q) "method" v rid))
  ∧ (∀ fs, fs ≡ₚ exact_filters q →
       apply_filters now st (prefix q) (list_to_set ids) fs = Ok c).
Proof.
  unfold search_candidates. intros Hc. split.
  - intros rid. rewrite (apply_filters_elem _ _ _ _ Hc).
    rewrite elem_of_list_to_set.
    rewrite <-(exact_filters_Forall
                 (λ kv, in_attr_set now st (prefix q) kv.1 kv.2 rid) q).
    by rewrite Forall_forall.
  - intros fs Hp. by rewrite (apply_filters_perm _ _ _ Hp).
Qed.
(** Which filters a request supplies: an absent or empty value supplies
    none, and [status] is supplied as the decimal string of its value. *)
Lemma exact_filters_status q n :
  status q = Some n → ("status", pretty n) ∈ exact_filters q.
Proof. intros Hn. unfold exact_filters. rewrite Hn. set_solver. Qed.

Lemma exact_filters_absent q :
  ip q = None → server_name q = None → security_mode q = None →
  status q = None → reason q = None → country q = None → method q = None →
  exact_filters q = [].
Proof. unfold exact_filters. by intros -> -> -> -> -> -> ->. Qed.
End Filters.

Lemma candidates_intersection_witness :
  ("a" ∈ ({["a"]} : gset string) ↔
     "a" ∈ ["b"; "a"]
     ∧ (∀ v, ip blocked_request = Some v → v ≠ "" →
          in_attr_set 5 (demo_index ["rec_a"; "rec_b"]) "bw_idx" "ip" v "a")
     ∧ (∀ v, server_name blocked_request = Some v → v ≠ "" →
          in_attr_set 5 (demo_index ["rec_a"; "rec_b"]) "bw_idx" "server" v "a")
     ∧ (∀ v, security_mode blocked_request = Some v → v ≠ "" →
          in_attr_set 5 (demo_index ["rec_a"; "rec_b"]) "bw_idx" "mode" v "a")
     ∧ (∀ n, status blocked_request = Some n →
          in_attr_set 5 (demo_index ["rec_a"; "rec_b"]) "bw_idx" "status"
            (pretty n) "a")
     ∧ (∀ v, reason blocked_request = Some v → v ≠ "" →
          in_attr_set 5 (demo_index ["rec_a"; "rec_b"]) "bw_idx" "reason" v "a")
     ∧ (∀ v, country blocked_request = Some v → v ≠ "" →
          in_attr_set 5 (demo_index ["rec_a"; "rec_b"]) "bw_idx" "country" v "a")
     ∧ (∀ v, method blocked_request = Some v → v ≠ "" →
          in_attr_set 5 (demo_index ["rec_a"; "rec_b"]) "bw_idx" "method" v "a"))
  ∧ apply_filters 5 (demo_index ["rec_a"; "rec_b"]) "bw_idx"
      (list_to_set ["b"; "a"]) [("mode", "block"); ("ip", "1.2.3.4")]
    = Ok {["a"]}.
Proof.
  destruct (candidates_intersection 5 (demo_index ["rec_a"; "rec_b"])
              blocked_request ["b"; "a"] {["a"]}) as [Hmem Hperm].
  - vm_compute. reflexivity.
  - split; [apply Hmem|]. apply Hperm, Permutation_swap.
Defined.

(** ** Substring filters and the limit *)

Lemma prefix_spec n h : String.prefix n h = true ↔ ∃ b, h = n +:+ b.
Proof.
  revert h. induction n as [|c n IH]; intros h.
  - destruct h; simpl; (split; [by eexists|done]).
  - destruct h as [|c' h]; simpl; [split; [done|by intros [??]]|].
    destruct (Ascii.ascii_dec c c') as [->|Hne].
    + rewrite IH. split; intros [b Hb]; exists b; [by rewrite Hb|].
      simpl in Hb. by injection Hb.
    + split; [done|]. intros [b Hb]. simpl in Hb. by injection Hb.
Qed.

Lemma contains_spec n h : contains n h = true ↔ ∃ a b, h = a +:+ n +:+ b.
Proof.
  induction h as [|c h IH].
  - cbn [contains]. rewrite orb_false_r, prefix_spec. split.
    + intros [b Hb]. by exists "", b.
    + intros ([|??] & b & Hb); [by exists b|done].
  - cbn [contains]. rewrite orb_true_iff, prefix_spec, IH. split.
    + intros [[b Hb]|(a & b & ->)]; [by exists "", b|by exists (String c a), b].
    + intros ([|c' a] & b & Hb); [left; by exists b|right].
      simpl in Hb. injection Hb as -> ->. by exists a, b.
Qed.

Lemma str_lower_nonempty n : n ≠ "" → str_lower n ≠ "".
Proof. by destruct n. Qed.

Section Substring.
Context `{Externals}.
Context (now : Z) (st : redis).

Lemma collect_length q l rs :
  collect now st q l = Ok rs → (length rs ≤ length l)%nat.
Proof.
  revert rs. induction l as [|rid l IH]; intros rs Hrs; simpl in Hrs.
  - injection Hrs as <-. done.
  - apply bind_Ok in Hrs as ([raw|] & _ & Hrs);
      [|specialize (IH _ Hrs); simpl; lia].
    destruct (String.eqb raw ""); [specialize (IH _ Hrs); simpl; lia|].
    apply bind_Ok in Hrs as (o & _ & Hrs).
    apply bind_Ok in Hrs as (rs' & Hrs' & Hrs).
    injection Hrs as <-.
    specialize (IH _ Hrs'). destruct o; simpl; lia.
Qed.

Lemma py_slice_to_length {A} (n : Z) (l : list A) :
  0 ≤ n → (length (py_slice_to n l) ≤ Z.to_nat n)%nat.
Proof.
  intros Hn. unfold py_slice_to.
  destruct (Z.leb_spec 0 n); [|lia]. rewrite length_take. lia.
Qed.

(** The records a search returns are obtained by running the substring
    filters over the truncated list only. *)
Lemma search_reports_inv q resp :
  search_reports now st q = Ok resp →
  ∃ ids candidates,
    search_ids now st q = Ok ids
    ∧ search_candidates now st q ids = Ok candidates
    ∧ collect now st q
        (py_slice_to (limit q) (filter (λ rid, rid ∈ candidates) ids))
      = Ok (results resp)
    ∧ count resp = length (results resp).
Proof.
  unfold search_reports. intros Hs. inv_bind Hs. injection Hs as <-.
  exists a, a0. by repeat split.
Qed.
End Substring.

Section SubstringSpec.
Context `{Externals}.
Context (now : Z) (st : redis).

Lemma rejects_spec n hay :
  rejects n hay = false ↔ ∀ m, n = Some m → m ≠ "" → substring m hay.
Proof.
  unfold rejects, substring. destruct n as [n|]; [|by split].
  split.
  - intros Hr m [= <-] Hn. apply contains_spec.
    apply String.eqb_neq in Hn. rewrite Hn in Hr. simpl in Hr.
    by destruct (contains n hay).
  - intros Hs. destruct (String.eqb_spec n "") as [|Hn]; [done|]. simpl.
    apply negb_false_iff, contains_spec. by apply Hs.
Qed.

Lemma rejects_passes q obj :
  rejects (url_contains q)
    (py_str (default (JStr "") (dict_get obj "url"))) = false
  ∧ rejects (str_lower <$> ua_contains q)
      (str_lower (py_str (default (JStr "") (dict_get obj "user_agent"))))
    = false
  ↔ passes q obj.
Proof.
  unfold passes. rewrite !rejects_spec. split; intros [Hu Ha]; (split; [done|]).
  - intros n Hn Hne. apply Ha; [by rewrite Hn|by apply str_lower_nonempty].
  - intros m Hm Hne. destruct (ua_contains q) as [n|]; [|done].
    injection Hm as <-. apply Ha; [done|]. by intros ->.
Qed.

(** What [load_record] returns, when it returns. *)
Lemma load_record_Ok q raw o :
  load_record q raw = Ok o →
  ∃ obj, json_loads raw = Some (JObj obj)
    ∧ ((¬ passes q obj ∧ o = None)
       ∨ (passes q obj
          ∧ ∃ h, date_human (date_of obj) = Some h
                 ∧ o = Some (dict_set obj "_date_human" (JStr h)))).
Proof.
  unfold load_record.
  destruct (json_loads raw) as [[| | | | | |obj]|]; try done.
  intros Hl. exists obj. split; [done|].
  pose proof (rejects_passes q obj) as Hp.
  destruct (rejects (url_contains q) _) eqn:Hu.
  { left. split; [|by injection Hl]. intros Hpass. apply Hp in Hpass as [? _].
    congruence. }
  destruct (rejects (str_lower <$> ua_contains q) _) eqn:Ha.
  { left. split; [|by injection Hl]. intros Hpass. apply Hp in Hpass as [_ ?].
    congruence. }
  right. split; [by apply Hp|].
  unfold date_of.
  destruct (py_float _) as [ts|]; [|done]. simpl.
  destruct (date_human ts) as [h|]; [|done]. injection Hl as <-. by exists h.
Qed.

(** The records [collect] returns are those of the list that are stored
    and pass the filters. *)
Lemma collect_spec q l rs :
  collect now st q l = Ok rs →
  ∀ obj', obj' ∈ rs ↔
    ∃ rid obj h,
      rid ∈ l ∧ stored_record now st (prefix q) rid obj ∧ passes q obj
      ∧ date_human (date_of obj) = Some h
      ∧ obj' = dict_set obj "_date_human" (JStr h).
Proof.
  revert rs. induction l as [|r l IH]; intros rs Hc obj'; simpl in Hc.
  - injection Hc as <-. split; [by intros ?%elem_of_nil|].
    by intros (? & ? & ? & ?%elem_of_nil & _).
  - apply bind_Ok in Hc as (oraw & Hget & Hc).
    assert (∀ rs', collect now st q l = Ok rs' →
      (∀ obj, ¬ (stored_record now st (prefix q) r obj ∧ passes q obj)) →
      obj' ∈ rs' ↔
        ∃ rid obj h,
          rid ∈ r :: l ∧ stored_record now st (prefix q) rid obj
          ∧ passes q obj ∧ date_human (date_of obj) = Some h
          ∧ obj' = dict_set obj "_date_human" (JStr h)) as Hskip.
    { intros rs' Hrs' Hnot. rewrite (IH _ Hrs'). split.
      - intros (rid & obj & h & ? & ?). exists rid, obj, h.
        split; [by right|done].
      - intros (rid & obj & h & [->|?]%elem_of_cons & Hst & Hp & ?).
        + by destruct (Hnot obj).
        + by exists rid, obj, h. }
    destruct oraw as [raw|].
    2:{ apply Hskip; [done|]. intros obj [(raw & Hraw & _) _]. congruence. }
    destruct (String.eqb_spec raw "") as [->|Hne].
    { apply Hskip; [done|]. intros obj [(raw & Hraw & ? & _) _]. congruence. }
    apply bind_Ok in Hc as (o & Hload & Hc).
    apply bind_Ok in Hc as (rs' & Hrs' & Hc). injection Hc as <-.
    destruct (load_record_Ok _ _ _ Hload)
      as (obj & Hobj & [[Hnp ->]|(Hp & h & Hh & ->)]).
    + apply Hskip; [done|]. intros obj0 [(raw0 & Hraw0 & _ & Hobj0) Hp0].
      congruence.
    + rewrite elem_of_cons, (IH _ Hrs'). split.
      * intros [->|(rid & obj0 & h0 & ? & ?)].
        -- exists r, obj, h. split_and!; [left| |done..]. by exists raw.
        -- exists rid, obj0, h0. split; [by right|done].
      * intros (rid & obj0 & h0 & [->|?]%elem_of_cons & Hst & Hp0 & Hh0 & ->).
        -- left. destruct Hst as (raw0 & Hraw0 & _ & Hobj0).
           assert (obj0 = obj) as -> by congruence. congruence.
        -- right. by exists rid, obj0, h0.
Qed.
End SubstringSpec.

(** C7: the records a search returns are those of the list truncated to
    [limit], and only those, that are stored and pass the substring
    filters: [url_contains] must occur in the url as it is written,
    [ua_contains] in the user agent whatever the case of the letters.  So
    the count is at most [limit]; and it can be lower than [limit] although
    a record past the cut passes every filter, where the same request
    without the substring filters fills the limit. *)
Theorem substring_after_limit :
  (∀ (E : Externals) now st q resp,
     0 ≤ limit q →
     search_reports now st q = Ok resp →
     ∃ ids candidates,
       search_ids now st q = Ok ids
       ∧ search_candidates now st q ids = Ok candidates
       ∧ collect now st q
           (py_slice_to (limit q) (filter (λ rid, rid ∈ candidates) ids))
         = Ok (results resp)
       ∧ (count resp ≤ Z.to_nat (limit q))%nat
       ∧ ∀ obj', obj' ∈ results resp ↔
           ∃ rid obj h,
             rid ∈ py_slice_to (limit q)
                     (filter (λ rid, rid ∈ candidates) ids)
             ∧ stored_record now st (prefix q) rid obj
             ∧ passes q obj
             ∧ date_human (date_of obj) = Some h
             ∧ obj' = dict_set obj "_date_human" (JStr h))
  ∧ (∃ (E : Externals) now st q resp resp0 ids candidates rid obj u a,
       url_contains q = Some u ∧ u ≠ ""
       ∧ ua_contains q = Some a ∧ a ≠ "" ∧ str_lower a ≠ a
       ∧ 0 ≤ limit q
       ∧ search_reports now st q = Ok resp
       ∧ Z.of_nat (count resp) < limit q
       ∧ search_ids now st q = Ok ids
       ∧ search_candidates now st q ids = Ok candidates
       ∧ filter (λ rid, rid ∈ candidates) ids !! Z.to_nat (limit q) = Some rid
       ∧ stored_record now st (prefix q) rid obj
       ∧ passes q obj
       ∧ search_reports now st (without_substrings q) = Ok resp0
       ∧ Z.of_nat (count resp0) = limit q).
Proof.
  split.
  - intros E now st q resp Hlim Hs.
    destruct (search_reports_inv _ _ _ _ Hs) as (ids & c & Hids & Hc & Hcol & Hn).
    exists ids, c. split_and!; [done..| |].
    + rewrite Hn. etrans; [by eapply collect_length|].
      by apply py_slice_to_length.
    + by apply collect_spec.
  - exists odd, 5, (odd_run ["rec_c"; "rec_u"] 60 0 ∅), probe_oldest.
    exists (Response 0 []), (Response 1 [annotated rec_c]).
    exists ["c"; "u"], {["c"; "u"]}, "u", rec_u, "Admin", "SQLMAP".
    split_and!; try done; try (vm_compute; reflexivity).
    + exists "rec_u". split_and!; [vm_compute; reflexivity|done|done].
    + split.
      * intros n [= <-] _. by exists "/", "/login".
      * intros n [= <-] _. by exists "mozilla/5.0 ", "".
Qed.

Lemma substring_after_limit_witness :
  ∃ ids candidates,
    @search_ids odd 5 (odd_run ["rec_c"; "rec_u"] 60 0 ∅) probe_request
    = Ok ids
    ∧ search_candidates 5 (odd_run ["rec_c"; "rec_u"] 60 0 ∅) probe_request
        ids
      = Ok candidates
    ∧ @collect odd 5 (odd_run ["rec_c"; "rec_u"] 60 0 ∅) probe_request
        (py_slice_to (limit probe_request)
           (filter (λ rid, rid ∈ candidates) ids))
      = Ok (results (Response 1 [annotated rec_u]))
    ∧ (count (Response 1 [annotated rec_u])
       ≤ Z.to_nat (limit probe_request))%nat
    ∧ ∀ obj', obj' ∈ results (Response 1 [annotated rec_u]) ↔
        ∃ rid obj h,
          rid ∈ py_slice_to (limit probe_request)
                  (filter (λ rid, rid ∈ candidates) ids)
          ∧ @stored_record odd 5 (odd_run ["rec_c"; "rec_u"] 60 0 ∅)
              (prefix probe_request) rid obj
          ∧ @passes odd probe_request obj
          ∧ @date_human odd (@date_of odd obj) = Some h
          ∧ obj' = dict_set obj "_date_human" (JStr h).
Proof.
  apply (proj1 substring_after_limit odd 5
           (odd_run ["rec_c"; "rec_u"] 60 0 ∅) probe_request
           (Response 1 [annotated rec_u])).
  - vm_compute. discriminate.
  - vm_compute. reflexivity.
Defined.

(** ** Keys of distinct kinds are distinct *)


Lemma req_key_ne_z_ts pfx rid : req_key pfx rid ≠ z_ts_key pfx.
Proof.
  unfold req_key, z_ts_key. intros Heq.
  apply (inj (String.app pfx)) in Heq. by simplify_eq/=.
Qed.

Lemma seen_key_ne_z_ts pfx rid : seen_key pfx rid ≠ z_ts_key pfx.
Proof.
  unfold seen_key, z_ts_key. intros Heq.
  apply (inj (String.app pfx)) in Heq. by simplify_eq/=.
Qed.

Lemma seen_key_ne_req pfx rid rid' : seen_key pfx rid ≠ req_key pfx rid'.
Proof.
  unfold seen_key, req_key. intros Heq.
  apply (inj (String.app pfx)) in Heq. by simplify_eq/=.
Qed.

Lemma set_key_ne_z_ts pfx kf v :
  kf ∈ index_fields → set_key pfx kf.1 v ≠ z_ts_key pfx.
Proof.
  unfold set_key, z_ts_key, index_fields. intros Hin Heq.
  apply (inj (String.app pfx)) in Heq.
  repeat (apply elem_of_cons in Hin as [->|Hin]; [simpl in Heq; discriminate|]).
  inversion Hin.
Qed.

Lemma set_key_ne_req pfx kf v rid :
  kf ∈ index_fields → set_key pfx kf.1 v ≠ req_key pfx rid.
Proof.
  unfold set_key, req_key, index_fields. intros Hin Heq.
  apply (inj (String.app pfx)) in Heq.
  repeat (apply elem_of_cons in Hin as [->|Hin]; [simpl in Heq; discriminate|]).
  inversion Hin.
Qed.

Lemma set_key_ne_seen pfx kf v rid :
  kf ∈ index_fields → set_key pfx kf.1 v ≠ seen_key pfx rid.
Proof.
  unfold set_key, seen_key, index_fields. intros Hin Heq.
  apply (inj (String.app pfx)) in Heq.
  repeat (apply elem_of_cons in Hin as [->|Hin]; [simpl in Heq; discriminate|]).
  inversion Hin.
Qed.

Lemma seen_key_inj pfx : Inj (=) (=) (seen_key pfx).
Proof.
  intros r1 r2 Heq. unfold seen_key in Heq.
  apply (inj (String.app pfx)) in Heq. by simplify_eq/=.
Qed.

Lemma run_cmds_cons now st c cmds :
  run_cmds now st (c :: cmds) = run_cmds now (exec_cmd now st c).1 cmds.
Proof.
  unfold run_cmds. simpl. destruct (exec_cmd now st c) as [st1 r]. simpl.
  by destruct (exec_all now st1 cmds).
Qed.

Lemma run_cmds_app now st l1 l2 :
  run_cmds now st (l1 ++ l2) = run_cmds now (run_cmds now st l1) l2.
Proof.
  revert st. induction l1 as [|c l1 IH]; intros st; [done|].
  simpl. by rewrite !run_cmds_cons, IH.
Qed.

Lemma exec_cmd_lookup_ne now st c k :
  cmd_key c ≠ k → (exec_cmd now st c).1 !! k = st !! k.
Proof.
  destruct c; simpl; intros ?; repeat case_match; simpl;
    by rewrite ?lookup_insert_ne.
Qed.

Lemma run_cmds_lookup_ne now cmds k : ∀ st,
  Forall (λ c, cmd_key c ≠ k) cmds → run_cmds now st cmds !! k = st !! k.
Proof.
  induction cmds as [|c cmds IH]; intros st Hall; [done|].
  apply Forall_cons in Hall as [Hc Hall].
  by rewrite run_cmds_cons, IH, exec_cmd_lookup_ne.
Qed.

Lemma pipeline_execute_Ok now st cmds st' rs :
  pipeline_execute now st cmds = Ok (st', rs) →
  st' = run_cmds now st cmds ∧ rs = (exec_all now st cmds).2
  ∧ existsb is_error rs = false.
Proof.
  unfold pipeline_execute, run_cmds.
  destruct (exec_all now st cmds) as [st1 rs1].
  destruct (existsb is_error rs1) eqn:He; [done|]. by intros [= <- <-].
Qed.

Section Preservation.
Context `{Externals}.
Context (pfx : string) (ttl : option Z) (now : Z).

Lemma zset_at_eq st st' k : st' !! k = st !! k → zset_at st' k = zset_at st k.
Proof. unfold zset_at. by intros ->. Qed.

Lemma index_ok_frame st st' :
  index_ok pfx st →
  st' !! z_ts_key pfx = st !! z_ts_key pfx →
  (∀ rid, st' !! req_key pfx rid = st !! req_key pfx rid) →
  index_ok pfx st'.
Proof.
  intros [Hz Hr] Hz' Hr'. split.
  - intros e. rewrite Hz'. apply Hz.
  - intros rid e. rewrite Hr', (zset_at_eq _ _ _ Hz'). apply Hr.
Qed.

Lemma index_ok_commit st st' rid raw obj ts x :
  index_ok pfx st →
  json_loads raw = Some (JObj obj) →
  py_float (dict_get obj "date") = Some ts →
  st' !! req_key pfx rid = Some (Entry (VStr raw) x) →
  (∀ rid', rid' ≠ rid → st' !! req_key pfx rid' = st !! req_key pfx rid') →
  st' !! z_ts_key pfx
    = Some (Entry (VZSet (<[rid := ts]> (zset_at st (z_ts_key pfx)))) None) →
  index_ok pfx st'.
Proof.
  intros [Hz Hr] Hraw Hts Hreq Hother Hzs. split.
  - intros e. rewrite Hzs. intros [= <-]. eauto.
  - intros rid' e. unfold zset_at at 1. rewrite Hzs.
    destruct (decide (rid' = rid)) as [->|Hne].
    + rewrite Hreq. intros [= <-]. exists raw, obj, ts.
      by rewrite lookup_insert_eq.
    + rewrite (Hother _ Hne), lookup_insert_ne by done. apply Hr.
Qed.

Lemma attr_cmds_keys rid obj :
  Forall (λ c, ∃ kf v, kf ∈ index_fields ∧ cmd_key c = set_key pfx kf.1 v)
         (attr_cmds pfx ttl rid obj).
Proof.
  unfold attr_cmds. induction index_fields as [|kf l IH]; [by constructor|].
  simpl. apply Forall_app. split.
  - destruct (dict_get obj kf.2) as [v|]; [|by constructor].
    destruct (none_or_empty v); [by constructor|].
    assert (kf ∈ kf :: l) by left.
    constructor; [by eauto|].
    destruct ttl; simpl; repeat constructor; eauto.
  - eapply Forall_impl; [apply IH|].
    intros c (kf' & v & ? & ?). exists kf', v. split; [by right|done].
Qed.

Lemma attr_cmds_lookup_ne st rid obj k :
  (∀ kf v, kf ∈ index_fields → set_key pfx kf.1 v ≠ k) →
  run_cmds now st (attr_cmds pfx ttl rid obj) !! k = st !! k.
Proof.
  intros Hk. apply run_cmds_lookup_ne.
  eapply Forall_impl; [apply attr_cmds_keys|].
  intros c (kf & v & Hin & ->). by apply Hk.
Qed.

(** State after [SET k raw] and the optional [EXPIRE k ttl]. *)
Lemma run_set_expire st k raw :
  run_cmds now st (CSet k raw false None :: expire_cmds ttl k)
  = <[k := Entry (VStr raw) ((λ t, now + t) <$> ttl)]> st.
Proof.
  rewrite run_cmds_cons. simpl. destruct ttl as [t|]; simpl; [|done].
  unfold run_cmds. simpl. unfold rlookup. rewrite lookup_insert_eq. simpl.
  by rewrite insert_insert_eq.
Qed.

Lemma run_zadd st k rid ts :
  (∀ e, st !! k = Some e → ∃ z, e = Entry (VZSet z) None) →
  (exec_cmd now st (CZAdd k rid ts)).1
  = <[k := Entry (VZSet (<[rid := ts]> (zset_at st k))) None]> st.
Proof.
  intros Hz. simpl. unfold rlookup, zset_at.
  destruct (st !! k) as [e|] eqn:He; [|by rewrite insert_empty].
  destruct (Hz e) as [z ->]; done.
Qed.

Lemma run_commit_cmds st rid obj raw ts :
  index_ok pfx st →
  json_loads raw = Some (JObj obj) →
  py_float (dict_get obj "date") = Some ts →
  index_ok pfx (run_cmds now st (commit_cmds pfx ttl rid obj raw ts)).
Proof.
  intros Hok Hraw Hts. unfold commit_cmds.
  rewrite (app_comm_cons _ _ (CSet _ _ _ _)), run_cmds_app, run_set_expire.
  rewrite run_cmds_cons.
  set (st1 := <[req_key pfx rid := _]> st).
  assert (st1 !! z_ts_key pfx = st !! z_ts_key pfx) as Hz1.
  { unfold st1. rewrite lookup_insert_ne; [done|apply req_key_ne_z_ts]. }
  rewrite run_zadd; last first.
  { intros e. rewrite Hz1. apply Hok. }
  rewrite (zset_at_eq _ _ _ Hz1).
  set (st2 := <[z_ts_key pfx := _]> st1).
  eapply (index_ok_frame st2).
  - apply (index_ok_commit st st2 rid raw obj ts ((λ t, now + t) <$> ttl));
      try done.
    + unfold st2, st1.
      rewrite lookup_insert_ne, lookup_insert_eq; [done|].
      intros Heq. by apply (req_key_ne_z_ts pfx rid).
    + intros rid' Hne. unfold st2, st1.
      rewrite !lookup_insert_ne; [done|..].
      * intros Heq. by apply Hne, (inj (req_key pfx)).
      * intros Heq. by apply (req_key_ne_z_ts pfx rid').
    + unfold st2. by rewrite lookup_insert_eq.
  - apply attr_cmds_lookup_ne. intros. by apply set_key_ne_z_ts.
  - intros rid'. apply attr_cmds_lookup_ne. intros. by apply set_key_ne_req.
Qed.
End Preservation.

Lemma Forall_zip_fst {A B} (P : A → Prop) (l : list A) (k : list B) :
  Forall P l → Forall P (zip l k).*1.
Proof.
  intros Hl. revert k. induction Hl as [|x l Hx _ IH]; intros [|y k]; simpl;
    [constructor..|].
  constructor; [done|apply IH].
Qed.

Section Preservation2.
Context `{Externals}.
Context (pfx : string) (ttl : option Z) (now : Z).

Lemma pass1_inv items : ∀ cnt parsed p cnt',
  pass1 pfx ttl items cnt = Ok (parsed, p, cnt') →
  Forall parsed_ok parsed
  ∧ p = (λ t : string * dict * string,
           CSet (seen_key pfx t.1.1) "1" true ttl) <$> parsed
  ∧ new_count cnt' = new_count cnt ∧ no_date cnt' = no_date cnt.
Proof.
  induction items as [|raw items IH]; intros cnt parsed p cnt' Hp; simpl in Hp.
  - injection Hp as <- <- <-. by repeat split.
  - destruct (json_loads raw) as [[| | | | | |obj]|] eqn:Hraw; try done.
    + destruct (dict_get obj "id") as [v|] eqn:Hid;
        [|by apply IH in Hp].
      destruct (py_truthy v) eqn:Htruthy; simpl in Hp;
        [|by apply IH in Hp].
      destruct v as [| | | |rid| |]; try done.
      apply bind_Ok in Hp as ([[parsed' p'] cnt''] & Hrec & Hp).
      injection Hp as <- <- <-.
      destruct (IH _ _ _ _ Hrec) as (Hall & -> & ? & ?).
      repeat split; try done.
      constructor; [|done]. repeat split; simpl; try done.
      intros ->. done.
    + by apply IH in Hp.
Qed.

Lemma pass2_index_ok todo : ∀ cnt st,
  Forall parsed_ok todo.*1 →
  index_ok pfx st →
  index_ok pfx (run_cmds now st (pass2 pfx ttl todo cnt).1).
Proof.
  induction todo as [|[[[rid obj] raw] is_new] todo IH];
    intros cnt st Hall Hok; [done|].
  apply Forall_cons in Hall as [(Hraw & _ & _) Hall]. simpl in *.
  destruct (reply_truthy is_new); simpl; [|by apply IH].
  destruct (py_float (dict_get obj "date")) as [ts|] eqn:Hts; [|by apply IH].
  destruct (pass2 pfx ttl todo _) as [p cnt'] eqn:Hrec. cbn [fst].
  change (index_ok pfx (run_cmds now st (commit_cmds pfx ttl rid obj raw ts ++ p))).
  rewrite run_cmds_app.
  specialize (IH (Counters (S (new_count cnt)) (bad_json cnt) (no_id cnt)
                           (no_date cnt))).
  rewrite Hrec in IH. apply IH; [done|].
  by apply run_commit_cmds.
Qed.

Lemma seen_cmds_index_ok (parsed : list (string * dict * string)) st :
  index_ok pfx st →
  index_ok pfx
    (run_cmds now st
       ((λ t : string * dict * string,
           CSet (seen_key pfx t.1.1) "1" true ttl) <$> parsed)).
Proof.
  intros Hok. eapply index_ok_frame; [done|..].
  - apply run_cmds_lookup_ne, Forall_fmap, Forall_true.
    intros t. apply seen_key_ne_z_ts.
  - intros rid. apply run_cmds_lookup_ne, Forall_fmap, Forall_true.
    intros t. apply seen_key_ne_req.
Qed.

Lemma process_chunk_index_ok st cnt items st' cnt' :
  process_chunk pfx ttl now st cnt items = Ok (st', cnt') →
  index_ok pfx st → index_ok pfx st'.
Proof.
  unfold process_chunk. intros Hp Hok.
  apply bind_Ok in Hp as ([[parsed p1] cnt1] & Hp1 & Hp).
  apply pass1_inv in Hp1 as (Hall & -> & _).
  apply bind_Ok in Hp as ([st1 is_new] & Hex & Hp).
  assert (index_ok pfx st1) as Hok1.
  { destruct parsed; [by injection Hex as <- <-|].
    apply pipeline_execute_Ok in Hex as (-> & _).
    by apply seen_cmds_index_ok. }
  assert (Forall parsed_ok (zip parsed is_new).*1) as Hall'.
  { by apply Forall_zip_fst. }
  destruct (pass2 pfx ttl (zip parsed is_new) cnt1) as [p2 cnt2] eqn:Hp2.
  pose proof (pass2_index_ok _ cnt1 _ Hall' Hok1) as Hok2.
  rewrite Hp2 in Hok2. simpl in Hok2.
  destruct (new_count cnt2 =? 0)%nat; simpl in Hp.
  - by injection Hp as <- <-.
  - apply bind_Ok in Hp as ([st2 rs] & Hex2 & Hp). injection Hp as <- <-.
    by apply pipeline_execute_Ok in Hex2 as (-> & _).
Qed.

Lemma main_loop_index_ok source chunk starts : ∀ st cnt st' cnt',
  main_loop pfx ttl now source chunk starts st cnt = Ok (st', cnt') →
  index_ok pfx st → index_ok pfx st'.
Proof.
  induction starts as [|s starts IH]; intros st cnt st' cnt' Hm Hok;
    simpl in Hm.
  - by injection Hm as <- <-.
  - destruct (lrange source s _) as [|i items] eqn:Hitems.
    + by injection Hm as <- <-.
    + apply bind_Ok in Hm as ([st1 cnt1] & Hp & Hm).
      eapply IH; [done|]. by eapply process_chunk_index_ok.
Qed.
End Preservation2.

Lemma main_index_ok `{Externals} source pfx ttl_days chunk now st st' cnt :
  main source pfx ttl_days chunk now st = Ok (st', cnt) →
  index_ok pfx st → index_ok pfx st'.
Proof.
  unfold main. intros Hm Hok.
  destruct (chunk =? 0); [done|].
  destruct (chunk <? 0); [by injection Hm as <- <-|].
  by eapply main_loop_index_ok.
Qed.

Lemma built_index_ok `{Externals} pfx st : built pfx st → index_ok pfx st.
Proof.
  induction 1 as [|st source ttl_days chunk now st' cnt _ IH Hm].
  - split; intros *; by rewrite lookup_empty.
  - by eapply main_index_ok.
Qed.

(** ** The order of the time index *)
Lemma zle_total : Total zle.
Proof.
  intros [m1 s1] [m2 s2]. unfold zle, zleb. simpl.
  rewrite <-(Qcompare_antisym s2 s1).
  destruct (s2 ?= s1)%Q; simpl; auto.
  destruct (String.leb_total m1 m2); auto.
Qed.

Lemma zle_score a b : zle a b → (a.2 <= b.2)%Q.
Proof.
  unfold zle, zleb. destruct (a.2 ?= b.2)%Q eqn:Hc; [| |done]; intros _.
  - apply Qle_lteq. right. by apply Qeq_alt.
  - apply Qlt_le_weak. by apply Qlt_alt.
Qed.

Lemma StronglySorted_sublist {A} (R : relation A) l1 l2 :
  l1 `sublist_of` l2 → StronglySorted R l2 → StronglySorted R l1.
Proof.
  induction 1 as [|x l1 l2 Hsub IH|x l1 l2 Hsub IH]; intros Hs.
  - done.
  - apply StronglySorted_cons in Hs as [Hx Hs].
    apply StronglySorted_cons. split; [|by apply IH].
    eapply Forall_forall. intros y Hy.
    eapply Forall_forall in Hx; [done|]. by eapply elem_of_sublist.
  - apply StronglySorted_cons in Hs as [_ Hs]. by apply IH.
Qed.

Lemma sublist_fmap' {A B} (f : A → B) l1 l2 :
  l1 `sublist_of` l2 → f <$> l1 `sublist_of` f <$> l2.
Proof. induction 1; simpl; by constructor. Qed.

Lemma zset_sorted_scores z : StronglySorted Qle (zset_sorted z).*2.
Proof.
  apply Sorted_StronglySorted; [apply _|].
  apply (Sorted_fmap snd zle Qle); [apply zle_score|].
  apply Sorted_merge_sort, zle_total.
Qed.

Lemma zset_sorted_lookup z a : a ∈ zset_sorted z → z !! a.1 = Some a.2.
Proof.
  unfold zset_sorted. rewrite merge_sort_Permutation.
  destruct a. apply elem_of_map_to_list.
Qed.

Section SearchOrder.
Context `{Externals}.
Context (now : Z) (st : redis).

Lemma rlookup_Some k e : rlookup now st k = Some e → st !! k = Some e.
Proof. unfold rlookup. destruct (st !! k); [|done]. by case_match. Qed.

Lemma zrangebyscore_inv k lo hi ids :
  zrangebyscore now st k lo hi = Ok ids →
  StronglySorted Qle (score_at st k <$> ids)
  ∧ Forall (λ rid, (lo <= score_at st k rid <= hi)%Q
                    ∧ is_Some (zset_at st k !! rid)) ids.
Proof.
  unfold zrangebyscore.
  destruct (rlookup now st k) as [[[ | |z] x]|] eqn:Hk; try done.
  - intros [= <-]. apply rlookup_Some in Hk.
    assert (zset_at st k = z) as Hz by (unfold zset_at; by rewrite Hk).
    assert (∀ a, a ∈ zset_sorted z → score_at st k a.1 = a.2) as Hsc.
    { intros a Ha. unfold score_at. rewrite Hz.
      by rewrite (zset_sorted_lookup _ _ Ha). }
    set (pairs := filter _ (zset_sorted z)).
    assert (pairs `sublist_of` zset_sorted z) as Hsub by apply sublist_filter.
    assert (score_at st k <$> pairs.*1 = pairs.*2) as ->.
    { rewrite <-list_fmap_compose. apply list_fmap_ext.
      intros i a Ha. apply Hsc. eapply elem_of_sublist; [|done].
      by eapply list_elem_of_lookup_2. }
    split.
    + eapply StronglySorted_sublist; [|apply zset_sorted_scores].
      by apply sublist_fmap'.
    + apply Forall_fmap, Forall_forall. intros a Ha.
      assert (a ∈ zset_sorted z) as Ha' by by eapply elem_of_sublist.
      apply list_elem_of_filter in Ha as [Hr _].
      simpl. rewrite (Hsc _ Ha'). unfold score_at. rewrite Hz.
      rewrite (zset_sorted_lookup _ _ Ha').
      unfold in_range in Hr.
      apply andb_true_iff in Hr as [?%Qle_bool_iff ?%Qle_bool_iff].
      eauto.
  - intros [= <-]. split; constructor.
Qed.
End SearchOrder.

Lemma dict_get_set_ne d k k' v :
  k ≠ k' → dict_get (dict_set d k v) k' = dict_get d k'.
Proof.
  intros Hne. induction d as [|[k0 v0] d IH]; simpl.
  - by apply String.eqb_neq in Hne as ->.
  - destruct (String.eqb_spec k0 k) as [->|?]; simpl.
    + by apply String.eqb_neq in Hne as ->.
    + by rewrite IH.
Qed.

Section SearchDates.
Context `{Externals}.
Context (now : Z) (st : redis).

Lemma rget_inv k raw :
  rget now st k = Ok (Some raw) → ∃ x, st !! k = Some (Entry (VStr raw) x).
Proof.
  unfold rget. destruct (rlookup now st k) as [[[v| |] x]|] eqn:Hk; try done.
  intros [= <-]. apply rlookup_Some in Hk. eauto.
Qed.

Lemma load_record_date q raw obj obj' ts :
  json_loads raw = Some (JObj obj) →
  py_float (dict_get obj "date") = Some ts →
  load_record q raw = Ok (Some obj') →
  date_of obj' = ts.
Proof.
  intros Hraw Hts. unfold load_record. rewrite Hraw.
  destruct (rejects (url_contains q) _); [done|].
  destruct (rejects _ _); [done|].
  destruct (dict_get obj "date") as [v|] eqn:Hd; [|done].
  change (default (JInt 0) (Some v)) with v.
  rewrite Hts. destruct (date_human ts); [|done].
  intros [= <-]. unfold date_of.
  rewrite dict_get_set_ne, Hd by done.
  change (default (JInt 0) (Some v)) with v. by rewrite Hts.
Qed.

(** The records collected come, in order, from ids of the list, and each
    carries as date the score of its id. *)
Lemma collect_dates q l rs :
  index_ok (prefix q) st →
  collect now st q l = Ok rs →
  ∃ l', l' `sublist_of` l
        ∧ date_of <$> rs = score_at st (z_ts_key (prefix q)) <$> l'.
Proof.
  intros [_ Hr]. revert rs. induction l as [|rid l IH]; intros rs Hrs;
    simpl in Hrs.
  - injection Hrs as <-. by exists [].
  - apply bind_Ok in Hrs as ([raw|] & Hget & Hrs); last first.
    { destruct (IH _ Hrs) as (l' & ? & ?). exists l'. split; [by constructor|done]. }
    destruct (String.eqb raw "").
    { destruct (IH _ Hrs) as (l' & ? & ?). exists l'. split; [by constructor|done]. }
    apply bind_Ok in Hrs as (o & Hload & Hrs).
    apply bind_Ok in Hrs as (rs' & Hrs' & Hrs). injection Hrs as <-.
    destruct (IH _ Hrs') as (l' & Hsub & Hd).
    destruct o as [obj'|]; [|exists l'; split; [by constructor|done]].
    exists (rid :: l'). split; [by constructor|].
    rewrite !fmap_cons, Hd. f_equal.
    apply rget_inv in Hget as [x Hst].
    destruct (Hr _ _ Hst) as (raw' & obj & ts & [= <-] & Hraw & Hts & Hz).
    unfold score_at. rewrite Hz. simpl. by eapply load_record_date.
Qed.

Lemma search_ordered_sublist q ids c : search_ordered q ids c `sublist_of` ids.
Proof.
  unfold search_ordered, py_slice_to.
  destruct (0 <=? limit q); (etrans; [apply sublist_take|apply sublist_filter]).
Qed.

(** Results of a search on a consistent store: their dates are the scores
    of a sub-list of the ids of the time window. *)
Lemma search_reports_dates q resp :
  index_ok (prefix q) st →
  search_reports now st q = Ok resp →
  ∃ ids l', search_ids now st q = Ok ids
            ∧ l' `sublist_of` ids
            ∧ date_of <$> results resp
              = score_at st (z_ts_key (prefix q)) <$> l'.
Proof.
  intros Hok Hs. unfold search_reports in Hs.
  apply bind_Ok in Hs as (ids & Hids & Hs).
  apply bind_Ok in Hs as (c & Hc & Hs).
  apply bind_Ok in Hs as (rs & Hrs & Hs). injection Hs as <-. simpl.
  destruct (collect_dates _ _ _ Hok Hrs) as (l' & Hsub & Hd).
  exists ids, l'. split_and!; [done| |done].
  etrans; [done|apply search_ordered_sublist].
Qed.

Lemma search_ids_inv q ids :
  search_ids now st q = Ok ids →
  ∃ lo hi ids0,
    to_epoch (start q) = Ok lo ∧ to_epoch (end_ q) = Ok hi
    ∧ zrangebyscore now st (z_ts_key (prefix q)) lo hi = Ok ids0
    ∧ ids = if String.eqb (order q) "newest" then reverse ids0 else ids0.
Proof.
  unfold search_ids. intros Hs.
  apply bind_Ok in Hs as (lo & Hlo & Hs).
  apply bind_Ok in Hs as (hi & Hhi & Hs).
  apply bind_Ok in Hs as (ids0 & Hz & Hs). injection Hs as <-.
  by exists lo, hi, ids0.
Qed.
End SearchDates.


(** ** Range correctness and ordering of the results *)

Section SearchResults.
Context `{Externals}.
Context (now : Z) (st : redis).

Lemma search_dates_in_window q resp :
  index_ok (prefix q) st →
  search_reports now st q = Ok resp →
  ∃ lo hi,
    to_epoch (start q) = Ok lo ∧ to_epoch (end_ q) = Ok hi
    ∧ Forall (λ obj, (lo <= date_of obj <= hi)%Q) (results resp).
Proof.
  intros Hok Hs.
  destruct (search_reports_dates _ _ _ _ Hok Hs)
    as (ids & l' & Hids & Hsub & Hd).
  destruct (search_ids_inv _ _ _ _ Hids)
    as (lo & hi & ids0 & Hlo & Hhi & Hz & ->).
  exists lo, hi. split_and!; [done..|].
  apply zrangebyscore_inv in Hz as [_ Hall].
  apply (Forall_fmap date_of (λ d, (lo <= d <= hi)%Q)).
  rewrite Hd. apply Forall_fmap, Forall_forall. intros rid Hrid. simpl.
  assert (rid ∈ ids0) as Hin.
  { eapply elem_of_sublist in Hrid; [|done].
    destruct (String.eqb (order q) "newest"); [by apply elem_of_reverse|done]. }
  eapply Forall_forall in Hall; [|done]. tauto.
Qed.

Lemma search_dates_sorted q resp :
  index_ok (prefix q) st →
  search_reports now st q = Ok resp →
  if String.eqb (order q) "newest"
  then StronglySorted (flip Qle) (date_of <$> results resp)
  else StronglySorted Qle (date_of <$> results resp).
Proof.
  intros Hok Hs.
  destruct (search_reports_dates _ _ _ _ Hok Hs)
    as (ids & l' & Hids & Hsub & Hd).
  destruct (search_ids_inv _ _ _ _ Hids)
    as (lo & hi & ids0 & Hlo & Hhi & Hz & ->).
  apply zrangebyscore_inv in Hz as [Hsorted _].
  rewrite Hd. destruct (String.eqb (order q) "newest").
  - eapply StronglySorted_sublist; [by apply sublist_fmap'|].
    rewrite fmap_reverse.
    apply Sorted_StronglySorted; [apply _|].
    apply Sorted_reverse, StronglySorted_Sorted, Hsorted.
  - eapply StronglySorted_sublist; [by apply sublist_fmap'|done].
Qed.

(** The handler looks at [order] once, to compare it with [newest]. *)
Lemma collect_with_order q o l :
  collect now st (with_order o q) l = collect now st q l.
Proof.
  induction l as [|rid l IH]; [done|]. simpl. rewrite IH.
  destruct (rget now st _) as [[raw|]|]; simpl; [|done..].
  destruct (String.eqb raw ""); [done|].
  by change (load_record (with_order o q) raw) with (load_record q raw).
Qed.

Lemma search_reports_order q o :
  String.eqb o "newest" = false →
  search_reports now st (with_order o q)
  = search_reports now st (with_order "oldest" q).
Proof.
  intros Ho.
  assert (search_ids now st (with_order o q)
          = search_ids now st (with_order "oldest" q)) as Hids.
  { unfold search_ids. change (order (with_order o q)) with o.
    by rewrite Ho. }
  unfold search_reports. rewrite Hids.
  destruct (search_ids now st (with_order "oldest" q)) as [ids|]; [|done].
  simpl.
  change (search_candidates now st (with_order o q) ids)
    with (search_candidates now st (with_order "oldest" q) ids).
  destruct (search_candidates now st _ ids) as [c|]; [|done]. simpl.
  change (search_ordered (with_order o q) ids c)
    with (search_ordered (with_order "oldest" q) ids c).
  by rewrite !collect_with_order.
Qed.
End SearchResults.

(** C3: on a store built by the indexer, every record a search returns has
    its date between the resolved [start] and [end], both included; so no
    record dated outside the window is returned. *)
Theorem search_in_window `{Externals} pfx st now q resp :
  built pfx st → prefix q = pfx →
  search_reports now st q = Ok resp →
  ∃ lo hi,
    to_epoch (start q) = Ok lo ∧ to_epoch (end_ q) = Ok hi
    ∧ ∀ obj, obj ∈ results resp → (lo <= date_of obj <= hi)%Q.
Proof.
  intros Hb <- Hs. apply built_index_ok in Hb.
  destruct (search_dates_in_window _ _ _ _ Hb Hs) as (lo & hi & ? & ? & Hall).
  exists lo, hi. split_and!; [done..|]. by apply Forall_forall.
Qed.

(** C9: on a store built by the indexer, the results of a search with order
    [newest] are non-increasing in date, and those of a search with order
    [oldest] are non-decreasing. *)
Theorem search_sorted `{Externals} pfx st now q resp :
  built pfx st → prefix q = pfx →
  search_reports now st q = Ok resp →
  (order q = "newest" →
     StronglySorted (λ d1 d2, (d2 <= d1)%Q) (date_of <$> results resp))
  ∧ (order q = "oldest" →
     StronglySorted Qle (date_of <$> results resp)).
Proof.
  intros Hb <- Hs. apply built_index_ok in Hb.
  pose proof (search_dates_sorted _ _ _ _ Hb Hs) as Hsorted.
  split; intros Ho; by rewrite Ho in Hsorted.
Qed.

(** C10: an [order] other than [newest], recognised or not, is answered as
    [oldest] is: the same outcome, and on a store built by the indexer the
    results are non-decreasing in date. *)
Theorem search_order_default `{Externals} pfx st now q o resp :
  built pfx st → prefix q = pfx →
  o ≠ "newest" →
  search_reports now st (with_order o q)
  = search_reports now st (with_order "oldest" q)
  ∧ (search_reports now st (with_order o q) = Ok resp →
     StronglySorted Qle (date_of <$> results resp)).
Proof.
  intros Hb <- Ho. apply built_index_ok in Hb.
  apply String.eqb_neq in Ho. split; [by apply search_reports_order|].
  intros Hs.
  pose proof (search_dates_sorted now st (with_order o q) resp Hb Hs) as Hsorted.
  simpl in Hsorted. by rewrite Ho in Hsorted.
Qed.

Lemma demo_index_built source : @built demo "bw_idx" (demo_index source).
Proof.
  unfold demo_index.
  destruct (@main demo source "bw_idx" 60 500 0 ∅) as [[st cnt]|e] eqn:Hm.
  - eapply built_run; [apply built_empty|exact Hm].
  - apply built_empty.
Qed.

Lemma search_in_window_witness :
  ∃ lo hi,
    @to_epoch demo "500" = Ok lo ∧ @to_epoch demo "1500" = Ok hi
    ∧ ∀ obj, obj ∈ [annotated rec_a] → (lo <= @date_of demo obj <= hi)%Q.
Proof.
  apply (@search_in_window demo "bw_idx" (demo_index ["rec_a"; "rec_b"]) 5
           (plain_request "500" "1500" "newest" 50)
           (Response 1 [annotated rec_a])).
  - apply demo_index_built.
  - reflexivity.
  - vm_compute. reflexivity.
Defined.

Lemma search_sorted_witness :
  StronglySorted (λ d1 d2, (d2 <= d1)%Q)
    (@date_of demo <$> [annotated rec_b; annotated rec_a]).
Proof.
  apply (@search_sorted demo "bw_idx" (demo_index ["rec_a"; "rec_b"]) 5
           (plain_request "0" "9999" "newest" 50)
           (Response 2 [annotated rec_b; annotated rec_a])).
  - apply demo_index_built.
  - reflexivity.
  - vm_compute. reflexivity.
  - reflexivity.
Defined.

Lemma search_order_default_witness :
  StronglySorted Qle (@date_of demo <$> [annotated rec_a; annotated rec_b]).
Proof.
  apply (@search_order_default demo "bw_idx" (demo_index ["rec_a"; "rec_b"]) 5
           (plain_request "0" "9999" "newest" 50) "sideways"
           (Response 2 [annotated rec_a; annotated rec_b])).
  - apply demo_index_built.
  - reflexivity.
  - discriminate.
  - vm_compute. reflexivity.
Defined.

(** ** Execution of a chunk *)

Lemma exec_all_app now l1 l2 : ∀ st,
  exec_all now st (l1 ++ l2)
  = ((exec_all now (exec_all now st l1).1 l2).1,
     (exec_all now st l1).2 ++ (exec_all now (exec_all now st l1).1 l2).2).
Proof.
  induction l1 as [|c l1 IH]; intros st; simpl.
  - by destruct (exec_all now st l2).
  - destruct (exec_cmd now st c) as [st1 r]. rewrite IH.
    destruct (exec_all now st1 l1) as [st2 rs]. simpl.
    by destruct (exec_all now st2 l2).
Qed.

Section Plan.
Context `{Externals}.
Context (pfx : string) (ttl : option Z) (now : Z).

Lemma pass1_entries items : ∀ cnt parsed p cnt',
  pass1 pfx ttl items cnt = Ok (parsed, p, cnt') →
  parsed = omap entry_of items.
Proof.
  induction items as [|raw items IH]; intros cnt parsed p cnt' Hp; simpl in Hp.
  - by injection Hp as <- <- <-.
  - simpl. unfold entry_of at 1.
    destruct (json_loads raw) as [[| | | | | |obj]|] eqn:Hraw; try done.
    + destruct (dict_get obj "id") as [v|] eqn:Hid; [|by eapply IH].
      destruct (py_truthy v) eqn:Htruthy; simpl in Hp.
      * destruct v as [| | | |rid| |]; try done.
        apply bind_Ok in Hp as ([[parsed' p'] cnt''] & Hrec & Hp).
        injection Hp as <- <- <-. simpl in Htruthy.
        destruct (String.eqb rid ""); [done|]. f_equal. by eapply IH.
      * destruct v as [| | | |rid| |]; try (by eapply IH).
        simpl in Htruthy. destruct (String.eqb rid ""); [|done]. by eapply IH.
    + by eapply IH.
Qed.

Lemma pass2_plan todo : ∀ cnt,
  (pass2 pfx ttl todo cnt).1 = commit_plan pfx ttl todo.
Proof.
  induction todo as [|[[[rid obj] raw] r] todo IH]; intros cnt; [done|].
  simpl. destruct (reply_truthy r); simpl; [|apply IH].
  destruct (py_float (dict_get obj "date")); [|apply IH].
  specialize (IH (Counters (S (new_count cnt)) (bad_json cnt) (no_id cnt)
                           (no_date cnt))).
  destruct (pass2 pfx ttl todo _) as [p c]. simpl in *. by rewrite IH.
Qed.

Lemma pass2_new_count todo : ∀ cnt,
  (new_count cnt ≤ new_count (pass2 pfx ttl todo cnt).2)%nat
  ∧ (no_date cnt ≤ no_date (pass2 pfx ttl todo cnt).2)%nat
  ∧ (new_count (pass2 pfx ttl todo cnt).2 = new_count cnt →
     commit_plan pfx ttl todo = []).
Proof.
  induction todo as [|[[[rid obj] raw] r] todo IH]; intros cnt; [done|].
  simpl. destruct (reply_truthy r); simpl; [|apply IH].
  destruct (py_float (dict_get obj "date")) as [ts|]; [|].
  - specialize (IH (Counters (S (new_count cnt)) (bad_json cnt) (no_id cnt)
                             (no_date cnt))).
    destruct (pass2 pfx ttl todo _) as [p c]. simpl in *. lia.
  - specialize (IH (Counters (new_count cnt) (bad_json cnt) (no_id cnt)
                             (S (no_date cnt)))).
    simpl in *. split_and!; [lia|lia|tauto].
Qed.

(** What one iteration does to the store: it runs the markers, then the
    commit plan, and no command fails. *)
Lemma process_chunk_inv st cnt items st' cnt' :
  process_chunk pfx ttl now st cnt items = Ok (st', cnt') →
  let parsed := omap entry_of items in
  let p1 := seen_cmds pfx ttl parsed in
  let st1 := run_cmds now st p1 in
  let todo := zip parsed (exec_all now st p1).2 in
  let p2 := commit_plan pfx ttl todo in
  st' = run_cmds now st1 p2
  ∧ existsb is_error (exec_all now st1 p2).2 = false
  ∧ (∃ cnt1, new_count cnt1 = new_count cnt ∧ no_date cnt1 = no_date cnt
             ∧ cnt' = (pass2 pfx ttl todo cnt1).2).
Proof.
  unfold process_chunk. intros Hp.
  apply bind_Ok in Hp as ([[parsed p1] cnt1] & Hp1 & Hp).
  pose proof (pass1_entries _ _ _ _ _ Hp1) as Hparsed.
  apply pass1_inv in Hp1 as (Hall & -> & Hn & Hd).
  apply bind_Ok in Hp as ([st1 rs] & Hex & Hp).
  rewrite <-Hparsed. fold (seen_cmds pfx ttl parsed).
  assert (st1 = run_cmds now st (seen_cmds pfx ttl parsed)
          ∧ zip parsed rs = zip parsed (exec_all now st (seen_cmds pfx ttl parsed)).2)
    as [-> Hzip].
  { destruct parsed; [by injection Hex as <- <-|].
    by apply pipeline_execute_Ok in Hex as (-> & -> & _). }
  rewrite Hzip in Hp. clear Hzip Hex.
  set (todo := zip parsed _) in *.
  pose proof (pass2_plan todo cnt1) as Hplan.
  pose proof (pass2_new_count todo cnt1) as (Hle & _ & Hnil).
  destruct (pass2 pfx ttl todo cnt1) as [p2 cnt2] eqn:Hp2. simpl in *.
  subst p2.
  destruct (Nat.eqb_spec (new_count cnt2) 0) as [H0|H0]; simpl in Hp.
  - injection Hp as <- <-.
    rewrite Hnil by lia. split_and!; [done..|]. exists cnt1. by rewrite Hp2.
  - apply bind_Ok in Hp as ([st2 rs2] & Hex2 & Hp). injection Hp as <- <-.
    apply pipeline_execute_Ok in Hex2 as (-> & -> & Herr).
    split_and!; [done..|]. exists cnt1. by rewrite Hp2.
Qed.
End Plan.

(** ** Dedupe markers *)
Section Markers.
Context (pfx : string) (ttl : option Z) (now : Z).

Lemma alive_rlookup st k e :
  st !! k = Some e → alive now e = true → rlookup now st k = Some e.
Proof. unfold rlookup. by intros -> ->. Qed.

Lemma rlookup_alive st k e :
  rlookup now st k = Some e → st !! k = Some e ∧ alive now e = true.
Proof.
  unfold rlookup. destruct (st !! k) as [e'|]; [|done].
  destruct (alive now e') eqn:Ha; [|done]. by intros [= <-].
Qed.

Lemma keeps_markers_exec st c r e :
  (keeps_markers pfx) c →
  st !! seen_key pfx r = Some e → alive now e = true →
  (exec_cmd now st c).1 !! seen_key pfx r = Some e.
Proof.
  intros [(r' & v & ex & ->)|Hne] He Ha.
  - simpl. destruct (decide (r' = r)) as [->|Hr].
    + by rewrite (alive_rlookup _ _ _ He Ha), bool_decide_eq_true_2.
    + case_match; simpl; [done|]. rewrite lookup_insert_ne; [done|].
      intros Heq. by apply Hr, (inj (seen_key pfx)).
  - by rewrite exec_cmd_lookup_ne.
Qed.

Lemma keeps_markers_run cmds : ∀ st r e,
  Forall (keeps_markers pfx) cmds →
  st !! seen_key pfx r = Some e → alive now e = true →
  run_cmds now st cmds !! seen_key pfx r = Some e.
Proof.
  induction cmds as [|c cmds IH]; intros st r e Hall He Ha; [done|].
  apply Forall_cons in Hall as [Hc Hall]. rewrite run_cmds_cons.
  apply IH; [done| |done]. by apply keeps_markers_exec.
Qed.

Lemma seen_cmds_keep parsed : Forall (keeps_markers pfx) (seen_cmds pfx ttl parsed).
Proof. apply Forall_fmap, Forall_true. intros t. left. eauto. Qed.
End Markers.

Section MarkersPlan.
Context `{Externals}.
Context (pfx : string) (ttl : option Z) (now : Z).

Lemma commit_cmds_not_seen rid obj raw ts :
  Forall (λ c, ∀ r, cmd_key c ≠ seen_key pfx r)
         (commit_cmds pfx ttl rid obj raw ts).
Proof.
  unfold commit_cmds. constructor; [|apply Forall_app; split; [|constructor]].
  - intros r Heq. by apply (seen_key_ne_req pfx r rid).
  - destruct ttl; simpl; [constructor; [|constructor]|constructor].
    intros r Heq. by apply (seen_key_ne_req pfx r rid).
  - intros r Heq. by apply (seen_key_ne_z_ts pfx r).
  - eapply Forall_impl; [apply attr_cmds_keys|].
    intros c (kf & v & Hin & Hk) r. rewrite Hk. by apply set_key_ne_seen.
Qed.

Lemma commit_plan_not_seen todo :
  Forall (λ c, ∀ r, cmd_key c ≠ seen_key pfx r) (commit_plan pfx ttl todo).
Proof.
  unfold commit_plan. induction todo as [|tr todo IH]; [constructor|].
  simpl. apply Forall_app. split; [|done].
  destruct (reply_truthy tr.2); [|constructor].
  destruct (py_float _); [apply commit_cmds_not_seen|constructor].
Qed.

Lemma commit_plan_keep todo :
  Forall (keeps_markers pfx) (commit_plan pfx ttl todo).
Proof.
  eapply Forall_impl; [apply commit_plan_not_seen|]. intros c Hc. by right.
Qed.
End MarkersPlan.

Section Rerun.
Context `{Externals}.
Context (pfx : string).


Lemma marked_kept_cmd now st c r :
  keeps_markers pfx c →
  marked now st (seen_key pfx r) →
  marked now (exec_cmd now st c).1 (seen_key pfx r).
Proof.
  intros Hc [e He]. apply rlookup_alive in He as [He Ha].
  exists e. apply alive_rlookup; [|done]. by apply keeps_markers_exec.
Qed.











Lemma ttl_of_pos ttl_days t : ttl_of ttl_days = Some t → 0 < t.
Proof.
  unfold ttl_of. destruct (ttl_days =? 0); simpl; [done|].
  destruct (Z.ltb_spec 0 ttl_days); [|done]. intros [= <-]. lia.
Qed.

End Rerun.

(** ** Commands that leave a record alone *)
Section Benign.
Context (pfx : string) (ttl : option Z) (now : Z) (rid : string).

Lemma no_gain_refl st : no_gain pfx rid st st.
Proof. by repeat split. Qed.

Lemma no_gain_trans st1 st2 st3 :
  no_gain pfx rid st1 st2 → no_gain pfx rid st2 st3 → no_gain pfx rid st1 st3.
Proof.
  intros (Hr1 & Hz1 & Hs1) (Hr2 & Hz2 & Hs2). split_and!.
  - by rewrite Hr2.
  - eauto.
  - eauto.
Qed.

(** A store that differs from [st] at the key [k] only. *)
Lemma no_gain_at st st' k :
  (∀ k', k' ≠ k → st' !! k' = st !! k') →
  k ≠ req_key pfx rid →
  (k = z_ts_key pfx → ∀ s, zset_at st' k !! rid = Some s →
                           zset_at st k !! rid = Some s) →
  (rid ∈ set_at st' k → rid ∈ set_at st k) →
  no_gain pfx rid st st'.
Proof.
  intros Hother Hreq Hz Hs. split_and!.
  - by apply Hother.
  - destruct (decide (z_ts_key pfx = k)) as [<-|Hne]; [by apply Hz|].
    unfold zset_at. by rewrite Hother.
  - intros k'. destruct (decide (k' = k)) as [->|Hne]; [done|].
    unfold set_at. by rewrite Hother.
Qed.

Lemma benign_no_gain st c :
  benign pfx ttl rid c → no_gain pfx rid st (exec_cmd now st c).1.
Proof.
  intros Hc.
  apply (no_gain_at _ _ (cmd_key c)).
  - intros k' Hne. by apply exec_cmd_lookup_ne.
  - destruct Hc; simpl.
    + apply seen_key_ne_req.
    + intros Heq. by apply (inj (req_key pfx)) in Heq.
    + intros Heq. by apply (inj (req_key pfx)) in Heq.
    + intros Heq. by apply (req_key_ne_z_ts pfx rid).
    + by apply set_key_ne_req.
    + by apply set_key_ne_req.
  - intros Hk s. unfold zset_at.
    destruct Hc; simpl in *; unfold rlookup;
      repeat (case_match; simplify_eq/=);
      rewrite ?lookup_insert_eq; try done;
      rewrite ?lookup_insert_ne, ?lookup_singleton_ne; try done;
      simplify_map_eq; try done.
  - unfold set_at.
    destruct Hc; simpl; unfold rlookup;
      repeat (case_match; simplify_eq/=);
      rewrite ?lookup_insert_eq in *; simplify_eq/=; try done.
  all: try (intros ?%elem_of_singleton; congruence).
  all: try (intros [?%elem_of_singleton|?]%elem_of_union; [congruence|done]).
  all: by intros ?%elem_of_empty.
Qed.

Lemma benign_run_no_gain cmds : ∀ st,
  Forall (benign pfx ttl rid) cmds → no_gain pfx rid st (run_cmds now st cmds).
Proof.
  induction cmds as [|c cmds IH]; intros st Hall; [apply no_gain_refl|].
  apply Forall_cons in Hall as [Hc Hall]. rewrite run_cmds_cons.
  eapply no_gain_trans; [by apply benign_no_gain|by apply IH].
Qed.
End Benign.

Lemma exec_all_cons now st c cmds :
  exec_all now st (c :: cmds)
  = ((exec_all now (exec_cmd now st c).1 cmds).1,
     (exec_cmd now st c).2 :: (exec_all now (exec_cmd now st c).1 cmds).2).
Proof.
  simpl. destruct (exec_cmd now st c) as [st1 r]. simpl.
  by destruct (exec_all now st1 cmds).
Qed.

Lemma exec_all_length now cmds : ∀ st,
  length (exec_all now st cmds).2 = length cmds.
Proof.
  induction cmds as [|c cmds IH]; intros st; [done|].
  rewrite exec_all_cons. simpl. by rewrite IH.
Qed.

Lemma head_filter_split {A} (P : A → Prop) `{∀ x, Decision (P x)} l x :
  head (filter P l) = Some x →
  ∃ pre post, l = pre ++ x :: post ∧ Forall (λ y, ¬ P y) pre ∧ P x.
Proof.
  induction l as [|y l IH]; [done|].
  rewrite filter_cons. destruct (decide (P y)) as [Hy|Hy].
  - intros [= ->]. by exists [], l.
  - intros (pre & post & -> & Hpre & Hx)%IH.
    exists (y :: pre), post. split_and!; [done| |done]. by constructor.
Qed.

Lemma head_filter_none {A} (P : A → Prop) `{∀ x, Decision (P x)} l :
  head (filter P l) = None → Forall (λ y, ¬ P y) l.
Proof.
  intros Hl%head_None. apply Forall_forall. intros y Hy HP.
  assert (y ∈ filter P l) as Hin by by apply list_elem_of_filter.
  rewrite Hl in Hin. by apply elem_of_nil in Hin.
Qed.

Section Classify.
Context `{Externals}.
Context (pfx : string) (ttl : option Z) (now : Z) (rid : string).

Lemma attr_cmds_benign r obj :
  r ≠ rid → Forall (benign pfx ttl rid) (attr_cmds pfx ttl r obj).
Proof.
  intros Hr. unfold attr_cmds.
  assert (∀ kf, kf ∈ index_fields → kf ∈ index_fields) as Hsub by done.
  revert Hsub. generalize index_fields at 1 3. intros l.
  induction l as [|kf l IH]; intros Hsub; [by constructor|].
  simpl. apply Forall_app. split.
  - assert (kf ∈ index_fields) by (apply Hsub; left).
    destruct (dict_get obj kf.2) as [v|]; [|by constructor].
    destruct (none_or_empty v); [by constructor|].
    constructor; [by constructor|].
    destruct ttl as [t|] eqn:Httl; simpl; [|constructor].
    constructor; [|constructor]. rewrite <-Httl. by econstructor.
  - apply IH. intros ? ?. apply Hsub. by right.
Qed.

Lemma commit_cmds_benign r obj raw ts :
  r ≠ rid → Forall (benign pfx ttl rid) (commit_cmds pfx ttl r obj raw ts).
Proof.
  intros Hr. unfold commit_cmds.
  constructor; [by constructor|].
  apply Forall_app. split.
  - destruct ttl as [t|] eqn:Httl; simpl; [|constructor].
    constructor; [|constructor]. rewrite <-Httl. by econstructor.
  - constructor; [by constructor|by apply attr_cmds_benign].
Qed.

Lemma seen_cmds_benign parsed :
  Forall (benign pfx ttl rid) (seen_cmds pfx ttl parsed).
Proof. apply Forall_fmap, Forall_true. intros t. constructor. Qed.

Lemma commit_plan_benign todo :
  Forall (refused rid) todo → Forall (benign pfx ttl rid) (commit_plan pfx ttl todo).
Proof.
  unfold commit_plan. induction 1 as [|tr todo Htr _ IH]; [constructor|].
  simpl. apply Forall_app. split; [|done].
  destruct (reply_truthy tr.2) eqn:Hr; [|constructor].
  destruct (py_float _); [|constructor].
  apply commit_cmds_benign. intros Heq. apply Htr in Heq. congruence.
Qed.

Lemma seen_replies_marked parsed : ∀ st,
  marked now st (seen_key pfx rid) →
  Forall (refused rid) (zip parsed (exec_all now st (seen_cmds pfx ttl parsed)).2).
Proof.
  induction parsed as [|t parsed IH]; intros st Hm; [constructor|].
  unfold seen_cmds. rewrite fmap_cons, exec_all_cons.
  cbn [fst snd zip zip_with]. constructor.
  - intros Heq. simpl in *. rewrite Heq.
    by rewrite bool_decide_eq_true_2.
  - apply IH. apply marked_kept_cmd; [|done]. left. eauto.
Qed.

Lemma seen_replies_other parsed : ∀ st,
  Forall (λ t : string * dict * string, t.1.1 ≠ rid) parsed →
  Forall (refused rid) (zip parsed (exec_all now st (seen_cmds pfx ttl parsed)).2)
  ∧ run_cmds now st (seen_cmds pfx ttl parsed) !! seen_key pfx rid
    = st !! seen_key pfx rid.
Proof.
  intros st Hall. split.
  - apply Forall_forall. intros [t r] Htr Heq. simpl in *.
    apply elem_of_zip_l in Htr.
    eapply Forall_forall in Hall; [|done]. done.
  - apply run_cmds_lookup_ne, Forall_fmap.
    eapply Forall_impl; [done|]. intros t Ht Heq. simpl in Heq.
    by apply Ht, (inj (seen_key pfx)).
Qed.
End Classify.

Section Chunk.
Context `{Externals}.
Context (pfx : string) (ttl : option Z) (now : Z) (rid : string).
Context (Hpos : ∀ t, ttl = Some t → 0 < t).

Lemma benign_run_refl st : benign_run pfx ttl now rid st st.
Proof. by exists []. Qed.

Lemma benign_run_trans st1 st2 st3 :
  benign_run pfx ttl now rid st1 st2 →
  benign_run pfx ttl now rid st2 st3 →
  benign_run pfx ttl now rid st1 st3.
Proof.
  intros (c1 & H1 & ->) (c2 & H2 & ->). exists (c1 ++ c2).
  split; [by apply Forall_app|by rewrite run_cmds_app].
Qed.

Lemma benign_run_cmds st cmds :
  Forall (benign pfx ttl rid) cmds →
  benign_run pfx ttl now rid st (run_cmds now st cmds).
Proof. intros. by exists cmds. Qed.

Lemma marker_alive : alive now (marker ttl now) = true.
Proof.
  unfold alive, marker. simpl. destruct ttl as [t|]; [|done]. simpl.
  specialize (Hpos t eq_refl). lia.
Qed.

Lemma plan_first st pre t post :
  ¬ marked now st (seen_key pfx rid) →
  Forall (λ t' : string * dict * string, t'.1.1 ≠ rid) pre →
  t.1.1 = rid →
  let parsed := pre ++ t :: post in
  let rs := (exec_all now st (seen_cmds pfx ttl parsed)).2 in
  run_cmds now st (seen_cmds pfx ttl parsed) !! seen_key pfx rid = Some (marker ttl now)
  ∧ (t, RTrue) ∈ zip parsed rs
  ∧ ∃ B A, commit_plan pfx ttl (zip parsed rs) = B ++ commit_of pfx ttl t ++ A
           ∧ Forall (benign pfx ttl rid) B ∧ Forall (benign pfx ttl rid) A.
Proof.
  intros Hnm Hpre Ht parsed rs. subst parsed rs.
  destruct (seen_replies_other pfx ttl now rid pre st Hpre) as [Hrpre Hlpre].
  set (st_pre := run_cmds now st (seen_cmds pfx ttl pre)) in *.
  set (st_t := <[seen_key pfx rid := (marker ttl now)]> st_pre).
  assert (rlookup now st_pre (seen_key pfx rid) = None) as Hnone.
  { unfold rlookup. rewrite Hlpre.
    destruct (st !! seen_key pfx rid) as [e|] eqn:He; [|done].
    destruct (alive now e) eqn:Ha; [|done].
    destruct Hnm. exists e. by apply alive_rlookup. }
  assert (exec_cmd now st_pre (CSet (seen_key pfx t.1.1) "1" true ttl)
          = (st_t, RTrue)) as Hex.
  { simpl. rewrite Ht, Hnone.
    by rewrite bool_decide_eq_false_2 by (by intros [??]). }
  assert (exec_all now st (seen_cmds pfx ttl (pre ++ t :: post))
          = (run_cmds now st_t (seen_cmds pfx ttl post),
             (exec_all now st (seen_cmds pfx ttl pre)).2
             ++ RTrue :: (exec_all now st_t (seen_cmds pfx ttl post)).2)) as Hall.
  { unfold seen_cmds. rewrite fmap_app, fmap_cons, exec_all_app, exec_all_cons.
    fold (seen_cmds pfx ttl pre) (seen_cmds pfx ttl post).
    fold (run_cmds now st (seen_cmds pfx ttl pre)). fold st_pre.
    by rewrite Hex. }
  unfold run_cmds at 1. rewrite Hall. cbn [fst snd].
  assert (st_t !! seen_key pfx rid = Some (marker ttl now)) as Hst_t
    by apply lookup_insert_eq.
  assert (marked now st_t (seen_key pfx rid)) as Hm_t.
  { exists (marker ttl now). apply alive_rlookup; [done|apply marker_alive]. }
  rewrite zip_with_app; last first.
  { rewrite exec_all_length. unfold seen_cmds. by rewrite length_fmap. }
  cbn [zip_with]. split_and!.
  - apply keeps_markers_run; [apply seen_cmds_keep|done|apply marker_alive].
  - apply elem_of_app. right. left.
  - exists (commit_plan pfx ttl
              (zip pre (exec_all now st (seen_cmds pfx ttl pre)).2)),
           (commit_plan pfx ttl
              (zip post (exec_all now st_t (seen_cmds pfx ttl post)).2)).
    split_and!.
    + unfold commit_plan. rewrite flat_map_app. by f_equal.
    + by apply commit_plan_benign.
    + by apply commit_plan_benign, seen_replies_marked.
Qed.
End Chunk.

Section ChunkRun.
Context `{Externals}.
Context (pfx : string) (ttl : option Z) (now : Z) (rid : string).
Context (Hpos : ∀ t, ttl = Some t → 0 < t).

Lemma pass2_no_date_elem todo : ∀ cnt t r,
  (t, r) ∈ todo → reply_truthy r = true →
  py_float (dict_get t.1.2 "date") = None →
  (no_date cnt < no_date (pass2 pfx ttl todo cnt).2)%nat.
Proof.
  induction todo as [|[[[rid' obj'] raw'] r'] todo IH]; intros cnt t r Hin Hr Hd.
  { by apply elem_of_nil in Hin. }
  apply elem_of_cons in Hin as [Heq|Hin].
  - injection Heq as -> ->. cbn [fst snd] in Hd. cbn [pass2].
    rewrite Hr, Hd. cbn [negb].
    pose proof (pass2_new_count pfx ttl todo
      (Counters (new_count cnt) (bad_json cnt) (no_id cnt) (S (no_date cnt))))
      as (_ & Hle & _).
    simpl in Hle. lia.
  - simpl. destruct (reply_truthy r'); simpl; [|by eapply IH].
    destruct (py_float (dict_get obj' "date")).
    + specialize (IH (Counters (S (new_count cnt)) (bad_json cnt) (no_id cnt)
                               (no_date cnt)) t r Hin Hr Hd).
      destruct (pass2 pfx ttl todo _). simpl in *. lia.
    + specialize (IH (Counters (new_count cnt) (bad_json cnt) (no_id cnt)
                               (S (no_date cnt))) t r Hin Hr Hd).
      simpl in *. lia.
Qed.

(** A chunk processed while [rid] is marked, or that does not mention it. *)
Lemma process_chunk_benign st cnt items st' cnt' :
  process_chunk pfx ttl now st cnt items = Ok (st', cnt') →
  marked now st (seen_key pfx rid) ∨ first_with_id rid items = None →
  benign_run pfx ttl now rid st st'
  ∧ (first_with_id rid items = None →
     st' !! seen_key pfx rid = st !! seen_key pfx rid)
  ∧ (no_date cnt ≤ no_date cnt')%nat.
Proof.
  intros Hp Hcase.
  apply process_chunk_inv in Hp as (-> & _ & cnt1 & _ & Hd & ->).
  split_and!.
  - eapply benign_run_trans;
      [eapply benign_run_cmds; apply seen_cmds_benign|apply benign_run_cmds].
    apply commit_plan_benign. destruct Hcase as [Hm|Hnone].
    + by apply seen_replies_marked.
    + apply head_filter_none in Hnone. by apply seen_replies_other.
  - intros Hnone%head_filter_none.
    rewrite run_cmds_lookup_ne.
    + by apply seen_replies_other.
    + eapply Forall_impl; [apply commit_plan_not_seen|]. by intros c Hc.
  - rewrite <-Hd. apply pass2_new_count.
Qed.
End ChunkRun.

(** ** The slices of the main loop *)
Section Slices.
Context {A : Type}.

Lemma slices_concat (c : nat) n : ∀ l : list A,
  (0 < c)%nat → (length l ≤ n * c)%nat →
  concat ((λ i : nat, take c (drop (i * c) l)) <$> seq 0 n) = l.
Proof.
  induction n as [|n IH]; intros l Hc Hlen.
  - destruct l; [done|simpl in Hlen; lia].
  - rewrite <-cons_seq, <-fmap_S_seq, fmap_cons, <-list_fmap_compose.
    rewrite concat_cons. simpl drop.
    rewrite (list_fmap_ext _ (λ i : nat, take c (drop (i * c) (drop c l)))).
    { rewrite IH; [apply take_drop|done|rewrite length_drop; lia]. }
    intros i j _. simpl. by rewrite drop_drop.
Qed.

Lemma slices_nonempty (c : nat) n : ∀ l : list A,
  (0 < c)%nat → (n * c < length l + c)%nat →
  Forall (λ s, s ≠ []) ((λ i : nat, take c (drop (i * c) l)) <$> seq 0 n).
Proof.
  induction n as [|n IH]; intros l Hc Hlen; [constructor|].
  rewrite <-cons_seq, <-fmap_S_seq, fmap_cons, <-list_fmap_compose.
  constructor.
  - simpl drop. destruct l; [simpl in Hlen; lia|].
    destruct c; [lia|done].
  - rewrite (list_fmap_ext _ (λ i : nat, take c (drop (i * c) (drop c l)))).
    { apply IH; [done|]. rewrite length_drop. simpl in Hlen. lia. }
    intros i j _. simpl. by rewrite drop_drop.
Qed.
End Slices.

Lemma chunks_of_py_range (source : list string) (chunk : Z) :
  0 < chunk →
  chunks_of source chunk (py_range (Z.of_nat (length source)) chunk)
  = (λ i : nat, take (Z.to_nat chunk) (drop (i * Z.to_nat chunk) source))
      <$> seq 0 (Z.to_nat ((Z.of_nat (length source) + chunk - 1) `div` chunk)).
Proof.
  intros Hc. unfold chunks_of, py_range. rewrite <-list_fmap_compose.
  set (total := Z.of_nat (length source)).
  set (n := Z.to_nat ((total + chunk - 1) `div` chunk)).
  apply list_fmap_ext. intros i x Hi.
  apply lookup_seq in Hi as [-> Hi]. simpl.
  assert (Z.of_nat i * chunk < total) as Hlt.
  { assert (Z.of_nat i + 1 ≤ (total + chunk - 1) `div` chunk) as Hle by lia.
    pose proof (Z.mul_div_le (total + chunk - 1) chunk Hc). nia. }
  unfold lrange.
  replace (Z.to_nat (Z.of_nat i * chunk)) with (i * Z.to_nat chunk)%nat by lia.
  destruct (Z.le_gt_cases (Z.of_nat i * chunk + chunk - 1) (total - 1)).
  - rewrite Z.min_l by done. f_equal. lia.
  - rewrite Z.min_r by lia. rewrite !take_ge; [done|..];
      rewrite length_drop; unfold total in *; lia.
Qed.

Lemma chunks_of_concat (source : list string) (chunk : Z) :
  0 < chunk →
  concat (chunks_of source chunk (py_range (Z.of_nat (length source)) chunk))
  = source.
Proof.
  intros Hc. rewrite chunks_of_py_range by done.
  apply slices_concat; [lia|].
  set (total := Z.of_nat (length source)).
  assert (total ≤ chunk * ((total + chunk - 1) `div` chunk)).
  { pose proof (Z.mod_pos_bound (total + chunk - 1) chunk Hc).
    pose proof (Z.div_mod (total + chunk - 1) chunk). lia. }
  assert (0 ≤ (total + chunk - 1) `div` chunk).
  { apply Z.div_pos; unfold total; lia. }
  unfold total in *. nia.
Qed.

Lemma chunks_of_nonempty (source : list string) (chunk : Z) :
  0 < chunk →
  Forall (λ s, s ≠ [])
    (chunks_of source chunk (py_range (Z.of_nat (length source)) chunk)).
Proof.
  intros Hc. rewrite chunks_of_py_range by done.
  apply slices_nonempty; [lia|].
  set (total := Z.of_nat (length source)).
  pose proof (Z.mul_div_le (total + chunk - 1) chunk Hc).
  assert (0 ≤ (total + chunk - 1) `div` chunk).
  { apply Z.div_pos; unfold total; lia. }
  unfold total in *. nia.
Qed.

Lemma main_loop_chunks `{Externals} pfx ttl now source chunk starts : ∀ st cnt,
  main_loop pfx ttl now source chunk starts st cnt
  = loop_chunks pfx ttl now (chunks_of source chunk starts) st cnt.
Proof.
  induction starts as [|s starts IH]; intros st cnt; [done|].
  simpl. destruct (lrange source s _); [done|].
  destruct (process_chunk _ _ _ _ _ _) as [[st' cnt']|]; [|done].
  simpl. apply IH.
Qed.

Section LoopRun.
Context `{Externals}.
Context (pfx : string) (ttl : option Z) (now : Z) (rid : string).
Context (Hpos : ∀ t, ttl = Some t → 0 < t).

Lemma benign_keeps c : benign pfx ttl rid c → keeps_markers pfx c.
Proof.
  destruct 1; [left; eauto|right; simpl; intros r' Heq..].
  - by apply (seen_key_ne_req pfx r' r).
  - by apply (seen_key_ne_req pfx r' r).
  - by apply (seen_key_ne_z_ts pfx r').
  - by apply (set_key_ne_seen pfx kf v r').
  - by apply (set_key_ne_seen pfx kf v r').
Qed.

Lemma benign_run_marker st st' r e :
  benign_run pfx ttl now rid st st' →
  st !! seen_key pfx r = Some e → alive now e = true →
  st' !! seen_key pfx r = Some e.
Proof.
  intros (cmds & Hall & ->) He Ha. apply keeps_markers_run; [|done..].
  eapply Forall_impl; [done|]. apply benign_keeps.
Qed.

Lemma first_with_id_app l1 l2 :
  first_with_id rid (l1 ++ l2)
  = match first_with_id rid l1 with
    | Some t => Some t
    | None => first_with_id rid l2
    end.
Proof. unfold first_with_id. by rewrite omap_app, filter_app, head_app. Qed.

Lemma process_chunk_first st cnt items st' cnt' t :
  process_chunk pfx ttl now st cnt items = Ok (st', cnt') →
  ¬ marked now st (seen_key pfx rid) →
  first_with_id rid items = Some t →
  ∃ sa,
    benign_run pfx ttl now rid st sa
    ∧ existsb is_error (exec_all now sa (commit_of pfx ttl t)).2 = false
    ∧ benign_run pfx ttl now rid (run_cmds now sa (commit_of pfx ttl t)) st'
    ∧ st' !! seen_key pfx rid = Some (marker ttl now)
    ∧ (py_float (dict_get t.1.2 "date") = None →
       (no_date cnt < no_date cnt')%nat).
Proof.
  intros Hp Hnm Hfirst.
  apply process_chunk_inv in Hp as (-> & Herr & cnt1 & _ & Hd & ->).
  apply head_filter_split in Hfirst as (pre & post & Hparsed & Hpre & Ht).
  rewrite Hparsed in *.
  destruct (plan_first pfx ttl now rid Hpos st pre t post Hnm Hpre Ht)
    as (Hmarker & Hin & B & A & Hplan & HB & HA).
  rewrite Hplan in *.
  set (st1 := run_cmds now st (seen_cmds pfx ttl (pre ++ t :: post))) in *.
  exists (run_cmds now st1 B). split_and!.
  - eapply benign_run_trans; [eapply benign_run_cmds, seen_cmds_benign|].
    by apply benign_run_cmds.
  - rewrite !exec_all_app in Herr. cbn [fst snd] in Herr.
    rewrite !existsb_app in Herr.
    apply orb_false_iff in Herr as [_ Herr].
    by apply orb_false_iff in Herr as [Herr _].
  - rewrite !run_cmds_app. by apply benign_run_cmds.
  - rewrite <-Hplan. apply keeps_markers_run;
      [apply commit_plan_keep|done|by apply marker_alive].
  - intros Hbad. rewrite <-Hd. by eapply pass2_no_date_elem.
Qed.

Lemma loop_chunks_benign chunks : ∀ st cnt st' cnt',
  loop_chunks pfx ttl now chunks st cnt = Ok (st', cnt') →
  marked now st (seen_key pfx rid) →
  benign_run pfx ttl now rid st st' ∧ (no_date cnt ≤ no_date cnt')%nat.
Proof.
  induction chunks as [|items chunks IH]; intros st cnt st' cnt' Hl Hm;
    simpl in Hl.
  - injection Hl as <- <-. split; [apply benign_run_refl|done].
  - destruct items as [|i items].
    { injection Hl as <- <-. split; [apply benign_run_refl|done]. }
    apply bind_Ok in Hl as ([st1 cnt1] & Hp & Hl).
    destruct (process_chunk_benign pfx ttl now rid _ _ _ _ _ Hp)
      as (Hrun & _ & Hle); [by left|].
    destruct (IH _ _ _ _ Hl) as [Hrun' Hle'].
    { destruct Hm as [e [He Ha]%rlookup_alive]. exists e.
      apply alive_rlookup; [|done]. by eapply benign_run_marker. }
    split; [by eapply benign_run_trans|lia].
Qed.

Lemma loop_chunks_first chunks : ∀ st cnt st' cnt' t,
  loop_chunks pfx ttl now chunks st cnt = Ok (st', cnt') →
  Forall (λ s, s ≠ []) chunks →
  ¬ marked now st (seen_key pfx rid) →
  first_with_id rid (concat chunks) = Some t →
  ∃ sa,
    benign_run pfx ttl now rid st sa
    ∧ existsb is_error (exec_all now sa (commit_of pfx ttl t)).2 = false
    ∧ benign_run pfx ttl now rid (run_cmds now sa (commit_of pfx ttl t)) st'
    ∧ st' !! seen_key pfx rid = Some (marker ttl now)
    ∧ (py_float (dict_get t.1.2 "date") = None →
       (no_date cnt < no_date cnt')%nat).
Proof.
  induction chunks as [|items chunks IH]; intros st cnt st' cnt' t Hl Hne Hnm Hf;
    [done|].
  apply Forall_cons in Hne as [Hitems Hne]. simpl in Hl.
  destruct items as [|i items]; [done|].
  apply bind_Ok in Hl as ([st1 cnt1] & Hp & Hl).
  rewrite concat_cons, first_with_id_app in Hf.
  destruct (first_with_id rid (i :: items)) as [t0|] eqn:Hf0.
  - injection Hf as ->.
    destruct (process_chunk_first _ _ _ _ _ _ Hp Hnm Hf0)
      as (sa & Hrun & Herr & Hrun' & Hmarker & Hbad).
    assert (marked now st1 (seen_key pfx rid)) as Hm1.
    { eexists. apply alive_rlookup; [done|by apply marker_alive]. }
    destruct (loop_chunks_benign _ _ _ _ _ Hl Hm1) as [Hrest Hle].
    exists sa. split_and!; [done..| | |].
    + by eapply benign_run_trans.
    + eapply benign_run_marker; [done..|by apply marker_alive].
    + intros Hd. specialize (Hbad Hd). lia.
  - destruct (process_chunk_benign pfx ttl now rid _ _ _ _ _ Hp)
      as (Hrun & Hsame & Hle); [by right|].
    assert (¬ marked now st1 (seen_key pfx rid)) as Hnm1.
    { intros [e He]. apply Hnm. exists e. unfold rlookup in *.
      by rewrite <-Hsame. }
    destruct (IH _ _ _ _ _ Hl Hne Hnm1 Hf)
      as (sa & Hrun1 & Herr & Hrun' & Hmarker & Hbad).
    exists sa. split_and!; [|done..|].
    + by eapply benign_run_trans.
    + intros Hd. specialize (Hbad Hd). lia.
Qed.
End LoopRun.

(** ** The entries a run marks *)

Section Fresh.
Context `{Externals}.
Context (pfx : string) (ttl : option Z) (now : Z).
Context (Hpos : ∀ t, ttl = Some t → 0 < t).

Lemma fresh_entries_app st0 l1 : ∀ old l2,
  fresh_entries now st0 pfx old (l1 ++ l2)
  = fresh_entries now st0 pfx old l1
    ++ fresh_entries now st0 pfx
         (list_to_set ((λ t : string * dict * string, t.1.1) <$> l1) ∪ old) l2.
Proof.
  induction l1 as [|t l1 IH]; intros old l2.
  - simpl. by rewrite (left_id_L ∅ (∪)).
  - simpl. rewrite IH.
    replace (list_to_set ((λ t0 : string * dict * string, t0.1.1) <$> l1)
             ∪ ({[t.1.1]} ∪ old))
      with ({[t.1.1]}
            ∪ list_to_set ((λ t0 : string * dict * string, t0.1.1) <$> l1)
            ∪ old : gset string).
    + by destruct (_ || _).
    + rewrite (assoc_L (∪)). f_equal. apply (comm_L (∪)).
Qed.

(** The entries whose [SET NX] is answered with [True]. *)
Lemma seen_replies_fresh st0 parsed : ∀ old st,
  markers_of pfx now st0 old st →
  (filter (λ tr : (string * dict * string) * reply, reply_truthy tr.2 = true)
     (zip parsed (exec_all now st (seen_cmds pfx ttl parsed)).2)).*1
  = fresh_entries now st0 pfx old parsed
  ∧ markers_of pfx now st0
      (list_to_set ((λ t : string * dict * string, t.1.1) <$> parsed) ∪ old)
      (run_cmds now st (seen_cmds pfx ttl parsed)).
Proof.
  induction parsed as [|t parsed IH]; intros old st Hinv.
  - split; [done|]. simpl. unfold run_cmds. simpl.
    by rewrite (left_id_L ∅ (∪)).
  - unfold seen_cmds. rewrite fmap_cons, exec_all_cons, run_cmds_cons.
    fold (seen_cmds pfx ttl parsed).
    cbn [fst snd zip zip_with fresh_entries].
    set (c := CSet (seen_key pfx t.1.1) "1" true ttl).
    assert (markers_of pfx now st0 ({[t.1.1]} ∪ old) (exec_cmd now st c).1
            ∧ reply_truthy (exec_cmd now st c).2
              = negb (bool_decide (t.1.1 ∈ old)
                      || bool_decide (marked now st0 (seen_key pfx t.1.1))))
      as [Hinv' Hreply].
    { unfold c. simpl.
      destruct (decide (marked now st (seen_key pfx t.1.1))) as [Hm|Hm].
      - rewrite (bool_decide_eq_true_2 _ Hm). simpl. split.
        + intros r. rewrite (Hinv r), elem_of_union, elem_of_singleton. split; [tauto|].
          intros [?|[->|?]]; [auto| |auto]. by apply Hinv.
        + apply Hinv in Hm as [Hm|Hm].
          * rewrite (bool_decide_eq_true_2 _ Hm). by rewrite orb_true_r.
          * by rewrite (bool_decide_eq_true_2 _ Hm).
      - rewrite (bool_decide_eq_false_2 _ Hm). simpl. split.
        + intros r. destruct (decide (r = t.1.1)) as [->|Hne].
          * split.
            { intros _. right. apply elem_of_union. left.
              by apply elem_of_singleton. }
            intros _.
            eexists. apply alive_rlookup; [apply lookup_insert_eq|].
            by apply (marker_alive ttl now).
          * unfold marked, rlookup.
            rewrite lookup_insert_ne by (intros ?%(inj (seen_key pfx)); done).
            specialize (Hinv r). unfold marked, rlookup in Hinv.
            rewrite Hinv, elem_of_union, elem_of_singleton. tauto.
        + rewrite (Hinv t.1.1) in Hm.
          rewrite bool_decide_eq_false_2 by tauto.
          by rewrite bool_decide_eq_false_2 by tauto. }
    destruct (IH _ _ Hinv') as [Hfresh Hinv''].
    split.
    + rewrite <-Hfresh.
      destruct (bool_decide (t.1.1 ∈ old)
                || bool_decide (marked now st0 (seen_key pfx t.1.1))) eqn:Ht;
        simpl in Hreply.
      * rewrite filter_cons_False; [done|]. simpl. by rewrite Hreply.
      * rewrite filter_cons_True; [done|]. simpl. by rewrite Hreply.
    + intros r. rewrite (Hinv'' r).
      rewrite fmap_cons, list_to_set_cons, !elem_of_union. tauto.
Qed.

Lemma pass2_no_date todo : ∀ cnt,
  no_date (pass2 pfx ttl todo cnt).2
  = (no_date cnt
     + length (List.filter undated
         (filter (λ tr : (string * dict * string) * reply,
                    reply_truthy tr.2 = true) todo).*1))%nat.
Proof.
  induction todo as [|[[[rid obj] raw] r] todo IH]; intros cnt; [simpl; lia|].
  simpl. destruct (reply_truthy r) eqn:Hr; simpl.
  - rewrite filter_cons_True by done. rewrite fmap_cons.
    cbn [List.filter]. unfold undated at 1. cbn [fst snd].
    destruct (py_float (dict_get obj "date")).
    + specialize (IH (Counters (S (new_count cnt)) (bad_json cnt) (no_id cnt)
                               (no_date cnt))).
      destruct (pass2 pfx ttl todo _). simpl in *. lia.
    + rewrite IH. simpl. lia.
  - rewrite filter_cons_False by (simpl; congruence). apply IH.
Qed.

Lemma process_chunk_no_date st0 old st cnt items st' cnt' :
  process_chunk pfx ttl now st cnt items = Ok (st', cnt') →
  markers_of pfx now st0 old st →
  let parsed := omap entry_of items in
  no_date cnt'
  = (no_date cnt
     + length (List.filter undated (fresh_entries now st0 pfx old parsed)))%nat
  ∧ markers_of pfx now st0
      (list_to_set ((λ t : string * dict * string, t.1.1) <$> parsed) ∪ old)
      st'.
Proof.
  intros Hp Hinv parsed.
  apply process_chunk_inv in Hp as (-> & _ & cnt1 & _ & Hnd & ->).
  fold parsed.
  destruct (seen_replies_fresh st0 parsed old st Hinv) as [Hfresh Hinv'].
  split.
  - rewrite pass2_no_date, Hfresh. lia.
  - intros r. rewrite <-(Hinv' r). unfold marked, rlookup.
    rewrite run_cmds_lookup_ne; [done|].
    eapply Forall_impl; [apply commit_plan_not_seen|]. intros c Hc. apply Hc.
Qed.

Lemma loop_chunks_no_date st0 chunks : ∀ old st cnt st' cnt',
  loop_chunks pfx ttl now chunks st cnt = Ok (st', cnt') →
  Forall (λ s, s ≠ []) chunks →
  markers_of pfx now st0 old st →
  no_date cnt'
  = (no_date cnt
     + length (List.filter undated
         (fresh_entries now st0 pfx old (omap entry_of (concat chunks)))))%nat.
Proof.
  induction chunks as [|items chunks IH]; intros old st cnt st' cnt' Hl Hne Hinv;
    simpl in Hl.
  - injection Hl as <- <-. simpl. lia.
  - apply Forall_cons in Hne as [Hitems Hne].
    destruct items as [|i items]; [done|].
    apply bind_Ok in Hl as ([st1 cnt1] & Hp & Hl).
    destruct (process_chunk_no_date _ _ _ _ _ _ _ Hp Hinv) as [Hn Hinv'].
    rewrite (IH _ _ _ _ _ Hl Hne Hinv'), Hn.
    rewrite concat_cons, omap_app, fresh_entries_app, List.filter_app,
      length_app. lia.
Qed.

Lemma fresh_entries_first st0 rid t parsed : ∀ old,
  head (filter (λ t' : string * dict * string, t'.1.1 = rid) parsed) = Some t →
  rid ∉ old → ¬ marked now st0 (seen_key pfx rid) →
  t ∈ fresh_entries now st0 pfx old parsed.
Proof.
  induction parsed as [|t' parsed IH]; intros old Hh Hd Hm; [done|].
  cbn [fresh_entries].
  destruct (decide (t'.1.1 = rid)) as [Heq|Hne].
  - rewrite filter_cons_True in Hh by done. injection Hh as ->.
    rewrite Heq.
    rewrite (bool_decide_eq_false_2 _ Hd), (bool_decide_eq_false_2 _ Hm).
    left.
  - rewrite filter_cons_False in Hh by done.
    assert (t ∈ fresh_entries now st0 pfx ({[t'.1.1]} ∪ old) parsed) as Hin.
    { apply IH; [done| |done].
      rewrite elem_of_union, elem_of_singleton. intros [?|?]; congruence. }
    destruct (_ || _); [done|by right].
Qed.

Lemma fresh_entries_ids st0 parsed : ∀ old,
  NoDup ((λ t : string * dict * string, t.1.1)
           <$> fresh_entries now st0 pfx old parsed)
  ∧ ∀ t, t ∈ fresh_entries now st0 pfx old parsed →
         (t.1.1 ∉ old) ∧ ¬ marked now st0 (seen_key pfx t.1.1) ∧ t ∈ parsed.
Proof.
  induction parsed as [|t' parsed IH]; intros old.
  - split; [constructor|]. by intros t ?%elem_of_nil.
  - cbn [fresh_entries].
    destruct (IH ({[t'.1.1]} ∪ old)) as [Hnd Hin].
    assert (∀ t, t ∈ fresh_entries now st0 pfx ({[t'.1.1]} ∪ old) parsed →
              (t.1.1 ∉ old) ∧ ¬ marked now st0 (seen_key pfx t.1.1)
              ∧ t ∈ t' :: parsed) as Hin'.
    { intros t Ht. destruct (Hin t Ht) as (? & ? & ?).
      split_and!; [|done|by right].
      rewrite elem_of_union in *. tauto. }
    destruct (bool_decide (t'.1.1 ∈ old)) eqn:Hd;
      [by split|].
    destruct (bool_decide (marked now st0 (seen_key pfx t'.1.1))) eqn:Hm;
      [by split|].
    cbn [orb]. apply bool_decide_eq_false in Hd, Hm. split.
    + rewrite fmap_cons. apply NoDup_cons. split; [|done].
      intros (t & Heq & Ht)%list_elem_of_fmap.
      destruct (Hin t Ht) as (Hnot & _). apply Hnot, elem_of_union. left.
      by apply elem_of_singleton.
    + intros t [->|Ht]%elem_of_cons; [|by apply Hin'].
      split_and!; [done..|left].
Qed.
End Fresh.

Section PoisonCount.
Context `{Externals}.

Lemma main_no_date source pfx ttl_days chunk now st st1 cnt1 :
  main source pfx ttl_days chunk now st = Ok (st1, cnt1) →
  0 < chunk →
  no_date cnt1
  = length (List.filter undated (newly_marked now st pfx source)).
Proof.
  unfold main. intros Hm Hc.
  destruct (Z.eqb_spec chunk 0); [lia|].
  destruct (Z.ltb_spec chunk 0); [lia|].
  rewrite main_loop_chunks in Hm.
  eapply (loop_chunks_no_date pfx (ttl_of ttl_days) now
            (ttl_of_pos ttl_days) st _ ∅) in Hm.
  - rewrite chunks_of_concat in Hm by done. simpl in Hm. exact Hm.
  - by apply chunks_of_nonempty.
  - intros r. rewrite elem_of_empty. tauto.
Qed.
End PoisonCount.

Section Poison.
Context `{Externals}.

Lemma main_first source pfx ttl_days chunk now st st1 cnt1 rid t :
  main source pfx ttl_days chunk now st = Ok (st1, cnt1) →
  0 < chunk →
  ¬ marked now st (seen_key pfx rid) →
  first_with_id rid source = Some t →
  ∃ sa,
    benign_run pfx (ttl_of ttl_days) now rid st sa
    ∧ existsb is_error
        (exec_all now sa (commit_of pfx (ttl_of ttl_days) t)).2 = false
    ∧ benign_run pfx (ttl_of ttl_days) now rid
        (run_cmds now sa (commit_of pfx (ttl_of ttl_days) t)) st1
    ∧ st1 !! seen_key pfx rid = Some (marker (ttl_of ttl_days) now)
    ∧ (py_float (dict_get t.1.2 "date") = None → (0 < no_date cnt1)%nat).
Proof.
  unfold main. intros Hm Hc Hnm Hf.
  destruct (Z.eqb_spec chunk 0); [lia|].
  destruct (Z.ltb_spec chunk 0); [lia|].
  rewrite main_loop_chunks in Hm.
  rewrite <-(chunks_of_concat source chunk Hc) in Hf.
  destruct (loop_chunks_first pfx (ttl_of ttl_days) now rid
              (ttl_of_pos ttl_days) _ _ _ _ _ _ Hm
              (chunks_of_nonempty source chunk Hc) Hnm Hf)
    as (sa & ? & ? & ? & ? & Hbad).
  exists sa. split_and!; [done..|]. intros Hd. specialize (Hbad Hd).
  simpl in Hbad. lia.
Qed.

(** C6: the count [no_date] of a run is the number of the entries it marks
    whose date does not convert to a number, each id once; a record that
    gets its marker in the run and has such a date is one of them; it gains
    no entry in the forward store, the time index or any set; its marker is
    set; and no later run that still sees the marker gives it any entry
    either. *)
Theorem poison_skip source pfx ttl_days chunk now st st1 cnt1 rid obj raw :
  main source pfx ttl_days chunk now st = Ok (st1, cnt1) →
  0 < chunk →
  ¬ marked now st (seen_key pfx rid) →
  first_with_id rid source = Some (rid, obj, raw) →
  py_float (dict_get obj "date") = None →
  no_date cnt1
  = length (List.filter undated (newly_marked now st pfx source))
  ∧ (rid, obj, raw) ∈ List.filter undated (newly_marked now st pfx source)
  ∧ NoDup ((λ t : string * dict * string, t.1.1)
             <$> newly_marked now st pfx source)
  ∧ no_gain pfx rid st st1
  ∧ marked now st1 (seen_key pfx rid)
  ∧ ∀ source' ttl_days' chunk' now' st2 cnt2,
      marked now' st1 (seen_key pfx rid) →
      main source' pfx ttl_days' chunk' now' st1 = Ok (st2, cnt2) →
      no_gain pfx rid st1 st2 ∧ marked now' st2 (seen_key pfx rid).
Proof.
  intros Hm Hc Hnm Hf Hd.
  destruct (main_first _ _ _ _ _ _ _ _ _ _ Hm Hc Hnm Hf)
    as (sa & (c1 & Hc1 & ->) & _ & (c2 & Hc2 & ->) & Hmarker & Hbad).
  unfold commit_of in *. simpl in *. rewrite Hd in *.
  split_and!.
  - by eapply main_no_date.
  - apply list_elem_of_In, List.filter_In. split.
    + apply list_elem_of_In.
      apply (fresh_entries_first pfx now st rid); [done| |done].
      apply not_elem_of_empty.
    + unfold undated. simpl. by rewrite Hd.
  - apply fresh_entries_ids.
  - eapply no_gain_trans; by eapply benign_run_no_gain.
  - eexists. apply alive_rlookup; [done|]. apply marker_alive, ttl_of_pos.
  - intros source' ttl_days' chunk' now' st2 cnt2 Hm' Hrun. unfold main in Hrun.
    destruct (chunk' =? 0); [done|].
    destruct (chunk' <? 0).
    { injection Hrun as <- <-. split; [apply no_gain_refl|done]. }
    rewrite main_loop_chunks in Hrun.
    destruct (loop_chunks_benign pfx (ttl_of ttl_days') now' rid _ _ _ _ _
                Hrun Hm') as [(c3 & Hc3 & ->) _].
    split; [by eapply benign_run_no_gain|].
    destruct Hm' as [e [He Ha]%rlookup_alive]. exists e.
    apply alive_rlookup; [|done]. apply keeps_markers_run; [|done..].
    eapply Forall_impl; [done|]. apply benign_keeps.
Qed.
End Poison.

Section Retention.
Context `{Externals}.
Context (pfx : string) (T : Z) (now : Z) (rid : string).
Context (HT : 0 < T).

Lemma horizon_alive v : alive now (Entry v (Some (now + T))) = true.
Proof. unfold alive. simpl. lia. Qed.

Lemma attr_fact_exec k st c :
  attr_safe T k c → attr_fact T now rid k st →
  attr_fact T now rid k (exec_cmd now st c).1.
Proof.
  intros Hc (m & Hk & Hin).
  assert (rlookup now st k = Some (Entry (VSet m) (Some (now + T)))) as Hl.
  { apply alive_rlookup; [done|apply horizon_alive]. }
  destruct Hc as [Hne|[[r ->]| ->]].
  - exists m. by rewrite exec_cmd_lookup_ne.
  - simpl. rewrite Hl. simpl. exists ({[r]} ∪ m).
    rewrite lookup_insert_eq. split; [done|]. apply elem_of_union. by right.
  - simpl. rewrite Hl. simpl. exists m. by rewrite lookup_insert_eq.
Qed.

Lemma attr_fact_run k cmds : ∀ st,
  Forall (attr_safe T k) cmds → attr_fact T now rid k st →
  attr_fact T now rid k (run_cmds now st cmds).
Proof.
  induction cmds as [|c cmds IH]; intros st Hall Hf; [done|].
  apply Forall_cons in Hall as [Hc Hall]. rewrite run_cmds_cons.
  apply IH; [done|]. by apply attr_fact_exec.
Qed.

Lemma benign_attr_safe kf v c :
  kf ∈ index_fields →
  benign pfx (Some T) rid c → attr_safe T (set_key pfx kf.1 v) c.
Proof.
  intros Hkf Hc. set (k := set_key pfx kf.1 v).
  destruct (decide (cmd_key c = k)) as [Hk|Hk]; [|by left]. right.
  destruct Hc; simpl in Hk.
  - by apply symmetry, set_key_ne_seen in Hk.
  - by apply symmetry, set_key_ne_req in Hk.
  - by apply symmetry, set_key_ne_req in Hk.
  - by apply symmetry, set_key_ne_z_ts in Hk.
  - left. rewrite Hk. eauto.
  - right. rewrite Hk. congruence.
Qed.

Lemma zset_fact_exec ts st c :
  benign pfx (Some T) rid c → zset_fact pfx now rid ts st →
  zset_fact pfx now rid ts (exec_cmd now st c).1.
Proof.
  intros Hc (z & x & Hz & Ha & Hin).
  assert (rlookup now st (z_ts_key pfx) = Some (Entry (VZSet z) x)) as Hl
    by by apply alive_rlookup.
  destruct (decide (cmd_key c = z_ts_key pfx)) as [Hk|Hk].
  - destruct Hc; simpl in Hk.
    + by apply seen_key_ne_z_ts in Hk.
    + by apply req_key_ne_z_ts in Hk.
    + by apply req_key_ne_z_ts in Hk.
    + simpl. rewrite Hl. simpl. exists (<[r := s]> z), x.
      rewrite lookup_insert_eq, lookup_insert_ne by done. done.
    + by apply set_key_ne_z_ts in Hk.
    + by apply set_key_ne_z_ts in Hk.
  - exists z, x. by rewrite exec_cmd_lookup_ne.
Qed.

Lemma zset_fact_run ts cmds : ∀ st,
  Forall (benign pfx (Some T) rid) cmds → zset_fact pfx now rid ts st →
  zset_fact pfx now rid ts (run_cmds now st cmds).
Proof.
  induction cmds as [|c cmds IH]; intros st Hall Hf; [done|].
  apply Forall_cons in Hall as [Hc Hall]. rewrite run_cmds_cons.
  apply IH; [done|]. by apply zset_fact_exec.
Qed.

Lemma z_exp_exec st c :
  (z_neutral pfx) c → z_exp pfx now (exec_cmd now st c).1 = z_exp pfx now st.
Proof.
  intros [Hne|(m & s & ->)]; unfold z_exp.
  - unfold rlookup. by rewrite exec_cmd_lookup_ne.
  - simpl. destruct (rlookup now st (z_ts_key pfx)) as [[[ | |z] x]|] eqn:Hl;
      simpl; try by rewrite Hl.
    + apply rlookup_alive in Hl as [_ Ha].
      by rewrite (alive_rlookup _ _ _ (Entry (VZSet (<[m:=s]> z)) x)
                    (lookup_insert_eq _ _ _)).
    + by rewrite (alive_rlookup _ _ _ (Entry (VZSet {[m:=s]}) None)
                    (lookup_insert_eq _ _ _)).
Qed.

Lemma z_exp_run cmds : ∀ st,
  Forall (z_neutral pfx) cmds →
  z_exp pfx now (run_cmds now st cmds) = z_exp pfx now st.
Proof.
  induction cmds as [|c cmds IH]; intros st Hall; [done|].
  apply Forall_cons in Hall as [Hc Hall].
  by rewrite run_cmds_cons, IH, z_exp_exec.
Qed.

Lemma benign_z_neutral ttl c : benign pfx ttl rid c → (z_neutral pfx) c.
Proof.
  destruct 1; try (right; by eauto); left; simpl.
  - apply seen_key_ne_z_ts.
  - apply req_key_ne_z_ts.
  - apply req_key_ne_z_ts.
  - by apply set_key_ne_z_ts.
  - by apply set_key_ne_z_ts.
Qed.
End Retention.

Section RetentionGroup.
Context `{Externals}.
Context (pfx : string) (T : Z) (now : Z) (rid : string).
Context (HT : 0 < T).

Lemma attr_list_safe obj k l :
  Forall (attr_safe T k) (flat_map (attr_cmds_for pfx T rid obj) l).
Proof.
  induction l as [|kf l IH]; [constructor|].
  simpl. apply Forall_app. split; [|done].
  unfold attr_cmds_for. destruct (dict_get obj kf.2) as [v|]; [|constructor].
  destruct (none_or_empty v); [constructor|].
  set (k' := set_key pfx kf.1 (py_str v)).
  simpl. unfold attr_safe.
  destruct (decide (k' = k)) as [->|Hne].
  - constructor; [right; left; eauto|].
    constructor; [by right; right|constructor].
  - constructor; [by left|]. constructor; [by left|constructor].
Qed.

Lemma sadd_expire_fact st k :
  existsb is_error (exec_all now st [CSAdd k rid; CExpire k T]).2 = false →
  attr_fact T now rid k (run_cmds now st [CSAdd k rid; CExpire k T]).
Proof.
  rewrite !run_cmds_cons, !exec_all_cons. cbn [fst snd existsb].
  intros [Herr _]%orb_false_iff.
  set (s1 := (exec_cmd now st (CSAdd k rid)).1).
  assert (∃ m x, rlookup now s1 k = Some (Entry (VSet m) x) ∧ rid ∈ m)
    as (m & x & Hl & Hin).
  { subst s1. revert Herr. simpl.
    destruct (rlookup now st k) as [[[ |m|] x]|] eqn:Hl; simpl; try done;
      intros _.
    - apply rlookup_alive in Hl as [_ Ha].
      exists ({[rid]} ∪ m), x. split.
      + apply alive_rlookup; [apply lookup_insert_eq|done].
      + apply elem_of_union. left. by apply elem_of_singleton.
    - exists {[rid]}, None. split.
      + apply alive_rlookup; [apply lookup_insert_eq|done].
      + by apply elem_of_singleton. }
  unfold run_cmds. cbn [exec_all exec_cmd fst]. rewrite Hl. cbn [fst e_val].
  exists m. by rewrite lookup_insert_eq.
Qed.

Lemma attr_list_facts obj l : ∀ st,
  existsb is_error
    (exec_all now st (flat_map (attr_cmds_for pfx T rid obj) l)).2 = false →
  ∀ kf v, kf ∈ l → dict_get obj kf.2 = Some v → none_or_empty v = false →
  attr_fact T now rid (set_key pfx kf.1 (py_str v))
            (run_cmds now st (flat_map (attr_cmds_for pfx T rid obj) l)).
Proof.
  induction l as [|kf0 l IH]; intros st Herr kf v Hin Hv Hne.
  { by apply elem_of_nil in Hin. }
  simpl in *. rewrite exec_all_app in Herr. cbn [fst snd] in Herr.
  rewrite existsb_app in Herr. apply orb_false_iff in Herr as [Herr0 Herr].
  rewrite run_cmds_app.
  apply elem_of_cons in Hin as [->|Hin]; [|by eapply IH].
  apply attr_fact_run; [done|apply attr_list_safe|].
  unfold attr_cmds_for in *. rewrite Hv, Hne in *. simpl in *.
  by apply sadd_expire_fact.
Qed.

Lemma commit_cmds_z_neutral ttl r obj raw ts :
  Forall (z_neutral pfx) (commit_cmds pfx ttl r obj raw ts).
Proof.
  unfold commit_cmds. constructor; [|apply Forall_app; split; [|constructor]].
  - left. apply req_key_ne_z_ts.
  - destruct ttl; simpl; [constructor; [|constructor]|constructor].
    left. apply req_key_ne_z_ts.
  - right. eauto.
  - eapply Forall_impl; [apply attr_cmds_keys|].
    intros c (kf & v & Hin & Hk). left. rewrite Hk. by apply set_key_ne_z_ts.
Qed.

Lemma commit_group_facts st obj raw ts :
  existsb is_error
    (exec_all now st (commit_cmds pfx (Some T) rid obj raw ts)).2 = false →
  let sb := run_cmds now st (commit_cmds pfx (Some T) rid obj raw ts) in
  sb !! req_key pfx rid = Some (Entry (VStr raw) (Some (now + T)))
  ∧ zset_fact pfx now rid ts sb
  ∧ z_exp pfx now sb = z_exp pfx now st
  ∧ ∀ kf v, kf ∈ index_fields → dict_get obj kf.2 = Some v →
            none_or_empty v = false →
            attr_fact T now rid (set_key pfx kf.1 (py_str v)) sb.
Proof.
  intros Herr sb.
  assert (z_exp pfx now sb = z_exp pfx now st) as Hzexp
    by apply z_exp_run, commit_cmds_z_neutral.
  set (c12 := [CSet (req_key pfx rid) raw false None;
               CExpire (req_key pfx rid) T]).
  set (c3 := CZAdd (z_ts_key pfx) rid ts).
  set (s1 := <[req_key pfx rid := Entry (VStr raw) (Some (now + T))]> st).
  set (s2 := (exec_cmd now s1 c3).1).
  assert (run_cmds now st c12 = s1) as Hs1
    by apply (run_set_expire (Some T) now st (req_key pfx rid) raw).
  assert (sb = run_cmds now s2 (attr_cmds pfx (Some T) rid obj)) as Hsb.
  { subst sb.
    change (commit_cmds pfx (Some T) rid obj raw ts)
      with (c12 ++ c3 :: attr_cmds pfx (Some T) rid obj).
    by rewrite run_cmds_app, Hs1, run_cmds_cons. }
  assert (is_error (exec_cmd now s1 c3).2 = false
          ∧ existsb is_error
              (exec_all now s2 (attr_cmds pfx (Some T) rid obj)).2 = false)
    as [Hz Hattr].
  { revert Herr.
    change (commit_cmds pfx (Some T) rid obj raw ts)
      with (c12 ++ c3 :: attr_cmds pfx (Some T) rid obj).
    rewrite exec_all_app. cbn [snd].
    fold (run_cmds now st c12). rewrite Hs1, exec_all_cons. cbn [snd].
    rewrite existsb_app. cbn [existsb].
    intros [_ Herr]%orb_false_iff. by apply orb_false_iff in Herr. }
  rewrite Hsb. split_and!; [| |by rewrite <-Hsb|].
  - rewrite attr_cmds_lookup_ne by (intros; by apply set_key_ne_req).
    unfold s2. rewrite exec_cmd_lookup_ne
      by (simpl; intros Heq; by apply (req_key_ne_z_ts pfx rid)).
    apply lookup_insert_eq.
  - assert (zset_fact pfx now rid ts s2) as (z & x & Hs2 & Ha & Hin).
    { unfold s2. revert Hz. simpl.
      destruct (rlookup now s1 (z_ts_key pfx)) as [[[ | |z] x]|] eqn:Hl;
        simpl; try done; intros _.
      - apply rlookup_alive in Hl as [_ Ha].
        exists (<[rid := ts]> z), x. by rewrite !lookup_insert_eq.
      - exists {[rid := ts]}, None.
        by rewrite lookup_insert_eq, lookup_singleton_eq. }
    exists z, x. split_and!; [|done..].
    by rewrite attr_cmds_lookup_ne by (intros; by apply set_key_ne_z_ts).
  - by apply attr_list_facts.
Qed.
End RetentionGroup.

Section RetentionTheorem.
Context `{Externals}.

Lemma ttl_of_enabled ttl_days :
  0 < ttl_days → ttl_of ttl_days = Some (ttl_days * 86400).
Proof.
  intros Hd. unfold ttl_of.
  destruct (Z.eqb_spec ttl_days 0); [lia|].
  by destruct (Z.ltb_spec 0 ttl_days); [|lia].
Qed.

(** When the server executes every command of a run at one clock value
    [now]: with retention enabled, a record committed by the run has one
    and the same expiration deadline ([now] plus [ttl_days] days) on its
    forward entry, on its marker and on every attribute set it was added
    to.  The time index holds the record but keeps the expiration it had
    before the run: none, when the indexer created it. *)
Lemma horizon_one_clock source pfx ttl_days chunk now st st1 cnt1
    rid obj raw ts :
  main source pfx ttl_days chunk now st = Ok (st1, cnt1) →
  0 < ttl_days → 0 < chunk →
  ¬ marked now st (seen_key pfx rid) →
  first_with_id rid source = Some (rid, obj, raw) →
  py_float (dict_get obj "date") = Some ts →
  let horizon := Some (now + ttl_days * 86400) in
  st1 !! req_key pfx rid = Some (Entry (VStr raw) horizon)
  ∧ st1 !! seen_key pfx rid = Some (Entry (VStr "1") horizon)
  ∧ (∀ kf v, kf ∈ index_fields → dict_get obj kf.2 = Some v →
       none_or_empty v = false →
       ∃ m, st1 !! set_key pfx kf.1 (py_str v) = Some (Entry (VSet m) horizon)
            ∧ rid ∈ m)
  ∧ ∃ z, st1 !! z_ts_key pfx = Some (Entry (VZSet z) (z_exp pfx now st))
         ∧ z !! rid = Some ts.
Proof.
  intros Hm Hdays Hc Hnm Hf Hd horizon.
  assert (0 < ttl_days * 86400) as HT by lia.
  destruct (main_first _ _ _ _ _ _ _ _ _ _ Hm Hc Hnm Hf)
    as (sa & (c1 & Hc1 & ->) & Herr & (c2 & Hc2 & Hst1) & Hmarker & _).
  rewrite (ttl_of_enabled _ Hdays) in *.
  unfold commit_of in *. cbn [fst snd] in *. rewrite Hd in *.
  destruct (commit_group_facts pfx _ now rid HT _ obj raw ts Herr)
    as (Hreq & Hzset & Hzexp & Hattr).
  set (sb := run_cmds now _ (commit_cmds _ _ _ _ _ _)) in *.
  split_and!.
  - destruct (benign_run_no_gain pfx _ now rid c2 sb Hc2) as (Hr & _).
    by rewrite Hst1, Hr.
  - done.
  - intros kf v Hkf Hv Hne. rewrite Hst1. apply attr_fact_run; [done| |by apply Hattr].
    eapply Forall_impl; [done|]. intros c. by apply benign_attr_safe.
  - destruct (zset_fact_run pfx _ now rid ts c2 sb Hc2 Hzset)
      as (z & x & Hz & Ha & Hin).
    rewrite <-Hst1 in Hz. exists z. split; [|done].
    assert (z_exp pfx now st1 = x) as Hx.
    { unfold z_exp. by rewrite (alive_rlookup _ _ _ _ Hz Ha). }
    rewrite Hz. repeat f_equal. rewrite <-Hx, Hst1.
    rewrite z_exp_run, Hzexp, z_exp_run; [done|..];
      (eapply Forall_impl; [done|]; intros c; apply benign_z_neutral).
Qed.
End RetentionTheorem.

(** ** Retention under a running clock *)

Section Clock.
Context (clk : nat → Z) (T : Z) (z : string) (st0 : redis).

Lemma exec_all_at_cons n st c cmds :
  exec_all_at clk n st (c :: cmds)
  = ((exec_all_at clk (S n) (exec_cmd (clk n) st c).1 cmds).1,
     (exec_cmd (clk n) st c).2
       :: (exec_all_at clk (S n) (exec_cmd (clk n) st c).1 cmds).2).
Proof.
  simpl. destruct (exec_cmd (clk n) st c) as [st1 r]. simpl.
  by destruct (exec_all_at clk (S n) st1 cmds).
Qed.

Lemma touched_mono n n' k e :
  (n ≤ n')%nat → touched clk T z st0 n k e → touched clk T z st0 n' k e.
Proof.
  intros Hn [?|[?|(? & i & ? & ?)]]; [by left|by right; left|].
  right; right. split; [done|]. exists i. split; [lia|done].
Qed.

Lemma horizons_mono n n' st :
  (n ≤ n')%nat → horizons clk T z st0 n st → horizons clk T z st0 n' st.
Proof. intros Hn Hh k e He. eapply touched_mono; [done|by apply Hh]. Qed.

Lemma horizons_insert n st k e :
  horizons clk T z st0 n st → touched clk T z st0 n k e →
  horizons clk T z st0 n (<[k := e]> st).
Proof.
  intros Hh Ht k' e'. destruct (decide (k' = k)) as [->|Hne].
  - rewrite lookup_insert_eq. by intros [= <-].
  - rewrite lookup_insert_ne by done. apply Hh.
Qed.

Lemma rlookup_Some_alive now st k e :
  rlookup now st k = Some e → st !! k = Some e ∧ alive now e = true.
Proof.
  unfold rlookup. destruct (st !! k) as [e'|]; [|done].
  destruct (alive now e') eqn:Ha; [|done]. by intros [= <-].
Qed.

Lemma rlookup_None_dead now st k e :
  rlookup now st k = None → st !! k = Some e → alive now e = false.
Proof.
  unfold rlookup. intros Hl He. rewrite He in Hl.
  by destruct (alive now e).
Qed.

Lemma group_marker n st k v :
  k ≠ z → horizons clk T z st0 n st →
  horizons clk T z st0 (S n) (exec_cmd (clk n) st (CSet k v true (Some T))).1.
Proof.
  intros Hk Hh. simpl.
  destruct (bool_decide _); simpl.
  - eapply horizons_mono; [|done]. lia.
  - apply horizons_insert; [eapply horizons_mono; [|done]; lia|].
    right; right. split; [done|]. exists n. split; [lia|]. by left.
Qed.

Lemma group_set n st k v :
  k ≠ z → horizons clk T z st0 n st →
  horizons clk T z st0 (S (S n))
    (exec_cmd (clk (S n)) (exec_cmd (clk n) st (CSet k v false None)).1
       (CExpire k T)).1.
Proof.
  intros Hk Hh. cbn [exec_cmd andb fst fmap option_fmap option_map].
  unfold rlookup at 1. rewrite lookup_insert_eq. cbn [alive e_exp fst e_val].
  rewrite insert_insert_eq.
  apply horizons_insert; [eapply horizons_mono; [|done]; lia|].
  right; right. split; [done|]. exists (S n). split; [lia|]. by left.
Qed.

Lemma group_zadd n st r s :
  horizons clk T z st0 n st →
  horizons clk T z st0 (S n) (exec_cmd (clk n) st (CZAdd z r s)).1.
Proof.
  intros Hh. apply (horizons_mono n (S n)) in Hh; [|lia]. simpl.
  destruct (rlookup (clk n) st z) as [[[| |zs] x]|] eqn:Hl; simpl; try done.
  - apply rlookup_Some_alive in Hl as [Hl _]. apply horizons_insert; [done|].
    destruct (Hh _ _ Hl) as [H0|[(_ & Hz)|(? & _)]]; [| |done].
    + right; left. split; [done|]. right. by eexists.
    + right; left. by split.
  - apply horizons_insert; [done|]. right; left. split; [done|]. by left.
Qed.

Lemma group_sadd n st k r :
  k ≠ z → horizons clk T z st0 n st →
  horizons clk T z st0 (S (S n))
    (exec_cmd (clk (S n)) (exec_cmd (clk n) st (CSAdd k r)).1
       (CExpire k T)).1.
Proof.
  intros Hk Hh. apply (horizons_mono n (S (S n))) in Hh; [|lia].
  assert (∀ st' : redis,
    (∀ k', k' ≠ k → st' !! k' = st !! k') →
    horizons clk T z st0 (S (S n))
      (exec_cmd (clk (S n)) st' (CExpire k T)).1) as Hexp.
  { intros st' Hst'. simpl.
    destruct (rlookup (clk (S n)) st' k) as [e|] eqn:Hl; simpl.
    - intros k' e'. destruct (decide (k' = k)) as [->|Hne].
      + rewrite lookup_insert_eq. intros [= <-].
        right; right. split; [done|]. exists (S n). split; [lia|]. by left.
      + rewrite lookup_insert_ne by done. rewrite Hst' by done. apply Hh.
    - intros k' e' He'. destruct (decide (k' = k)) as [->|Hne].
      + right; right. split; [done|]. exists (S n). split; [lia|]. right.
        by eapply rlookup_None_dead.
      + rewrite Hst' in He' by done. by apply Hh. }
  apply Hexp. intros k' Hne. simpl.
  destruct (rlookup (clk n) st k) as [[[| |?] ?]|]; simpl;
    by rewrite ?lookup_insert_ne.
Qed.

Lemma grouped_exec cmds :
  grouped z T cmds → ∀ n st,
  horizons clk T z st0 n st →
  horizons clk T z st0 (n + length cmds) (exec_all_at clk n st cmds).1.
Proof.
  induction 1 as [|k v l Hk _ IH|k v l Hk _ IH|r s l _ IH|k r l Hk _ IH];
    intros n st Hh.
  - simpl. by rewrite Nat.add_0_r.
  - rewrite exec_all_at_cons. cbn [fst length].
    replace (n + S (length l))%nat with (S n + length l)%nat by lia.
    apply IH. by apply group_marker.
  - rewrite !exec_all_at_cons. cbn [fst length].
    replace (n + S (S (length l)))%nat with (S (S n) + length l)%nat by lia.
    apply IH. by apply group_set.
  - rewrite exec_all_at_cons. cbn [fst length].
    replace (n + S (length l))%nat with (S n + length l)%nat by lia.
    apply IH. by apply group_zadd.
  - rewrite !exec_all_at_cons. cbn [fst length].
    replace (n + S (S (length l)))%nat with (S (S n) + length l)%nat by lia.
    apply IH. by apply group_sadd.
Qed.

Lemma grouped_app l1 l2 :
  grouped z T l1 → grouped z T l2 → grouped z T (l1 ++ l2).
Proof.
  intros H1 H2. induction H1; simpl; [done|constructor; auto..].
Qed.
End Clock.

Section ClockRun.
Context `{Externals}.
Context (clk : nat → Z) (pfx : string) (T : Z) (st0 : redis).

Lemma grouped_flat_map {A} (f : A → list cmd) (l : list A) :
  (∀ a, a ∈ l → grouped (z_ts_key pfx) T (f a)) →
  grouped (z_ts_key pfx) T (flat_map f l).
Proof.
  induction l as [|a l IH]; intros Hf; simpl; [constructor|].
  apply grouped_app; [apply Hf; left|]. apply IH. intros b Hb. apply Hf.
  by right.
Qed.

Lemma seen_cmds_grouped (parsed : list (string * dict * string)) :
  grouped (z_ts_key pfx) T
    ((λ t : string * dict * string,
        CSet (seen_key pfx t.1.1) "1" true (Some T)) <$> parsed).
Proof.
  induction parsed as [|t parsed IH]; simpl; constructor; [|done].
  apply seen_key_ne_z_ts.
Qed.

Lemma attr_cmds_grouped rid obj :
  grouped (z_ts_key pfx) T (attr_cmds pfx (Some T) rid obj).
Proof.
  unfold attr_cmds. apply grouped_flat_map. intros kf Hkf.
  destruct (dict_get obj kf.2) as [v|]; [|constructor].
  destruct (none_or_empty v); [constructor|]. simpl.
  constructor; [by apply set_key_ne_z_ts|constructor].
Qed.

Lemma commit_plan_grouped todo :
  grouped (z_ts_key pfx) T (commit_plan pfx (Some T) todo).
Proof.
  unfold commit_plan. apply grouped_flat_map. intros [[[rid obj] raw] r] _.
  simpl. destruct (reply_truthy r); [|constructor].
  destruct (py_float _) as [ts|]; [|constructor].
  unfold commit_cmds. simpl.
  constructor; [apply req_key_ne_z_ts|]. constructor.
  apply attr_cmds_grouped.
Qed.

Lemma pipeline_execute_at_inv n st cmds st' rs n' :
  pipeline_execute_at clk n st cmds = Ok (st', rs, n') →
  st' = (exec_all_at clk n st cmds).1 ∧ n' = (n + length cmds)%nat.
Proof.
  unfold pipeline_execute_at. destruct (exec_all_at clk n st cmds) as [s r].
  destruct (existsb is_error r); [done|]. by intros [= <- <- <-].
Qed.

Lemma process_chunk_at_horizons n st cnt items st' cnt' n' :
  process_chunk_at pfx (Some T) clk n st cnt items = Ok (st', cnt', n') →
  horizons clk T (z_ts_key pfx) st0 n st →
  horizons clk T (z_ts_key pfx) st0 n' st'.
Proof.
  unfold process_chunk_at. intros Hp Hh.
  apply bind_Ok in Hp as ([[parsed p1] cnt1] & Hp1 & Hp).
  apply pass1_inv in Hp1 as (_ & -> & _).
  apply bind_Ok in Hp as ([[st1 rs] n1] & H1 & Hp).
  assert (horizons clk T (z_ts_key pfx) st0 n1 st1) as Hh1.
  { destruct parsed as [|t parsed]; [by injection H1 as <- <- <-|].
    apply pipeline_execute_at_inv in H1 as [-> ->].
    apply grouped_exec; [apply seen_cmds_grouped|done]. }
  destruct (pass2 pfx (Some T) _ cnt1) as [p2 cnt2] eqn:Hp2.
  assert (p2 = commit_plan pfx (Some T) (zip parsed rs)) as ->.
  { by rewrite <-(pass2_plan pfx (Some T) _ cnt1), Hp2. }
  destruct (negb _).
  - apply bind_Ok in Hp as ([[st2 rs2] n2] & H2 & Hp).
    injection Hp as <- <- <-.
    apply pipeline_execute_at_inv in H2 as [-> ->].
    apply grouped_exec; [apply commit_plan_grouped|done].
  - by injection Hp as <- <- <-.
Qed.

Lemma main_loop_at_horizons source chunk starts : ∀ n st cnt st' cnt' n',
  main_loop_at pfx (Some T) clk source chunk starts n st cnt
  = Ok (st', cnt', n') →
  horizons clk T (z_ts_key pfx) st0 n st →
  horizons clk T (z_ts_key pfx) st0 n' st'.
Proof.
  induction starts as [|s starts IH]; intros n st cnt st' cnt' n' Hl Hh;
    simpl in Hl.
  - by injection Hl as <- <- <-.
  - destruct (lrange source s _) as [|i items]; [by injection Hl as <- <- <-|].
    apply bind_Ok in Hl as ([[st1 cnt1] n1] & Hp & Hl).
    eapply IH; [done|]. by eapply process_chunk_at_horizons.
Qed.
End ClockRun.

(** The model with one clock value is the model with a running clock that
    stands still. *)
Section OneClock.
Context `{Externals}.
Context (pfx : string) (ttl : option Z) (now : Z).

Lemma exec_all_at_const cmds : ∀ n st,
  exec_all_at (λ _, now) n st cmds = exec_all now st cmds.
Proof.
  induction cmds as [|c cmds IH]; intros n st; [done|].
  simpl. destruct (exec_cmd now st c) as [st1 r]. by rewrite IH.
Qed.

Lemma pipeline_execute_at_const n st cmds :
  forget (pipeline_execute_at (λ _, now) n st cmds)
  = pipeline_execute now st cmds.
Proof.
  unfold pipeline_execute_at, pipeline_execute. rewrite exec_all_at_const.
  destruct (exec_all now st cmds) as [st' rs]. by destruct (existsb _ _).
Qed.

Lemma process_chunk_at_const n st cnt items :
  forget (process_chunk_at pfx ttl (λ _, now) n st cnt items)
  = process_chunk pfx ttl now st cnt items.
Proof.
  unfold process_chunk_at, process_chunk.
  destruct (pass1 pfx ttl items cnt) as [[[parsed p1] cnt1]|]; [|done].
  simpl.
  destruct parsed as [|t parsed].
  - simpl. by destruct (negb _).
  - pose proof (pipeline_execute_at_const n st p1) as Hpe.
    destruct (pipeline_execute_at _ n st p1) as [[[st1 rs] n1]|];
      simpl in *; rewrite <-Hpe; [|done]. simpl.
    destruct (pass2 pfx ttl _ cnt1) as [p2 cnt2].
    destruct (negb _); [|done].
    pose proof (pipeline_execute_at_const n1 st1 p2) as Hpe2.
    destruct (pipeline_execute_at _ n1 st1 p2) as [[[??]?]|];
      simpl in *; by rewrite <-Hpe2.
Qed.

Lemma main_loop_at_const source chunk starts : ∀ n st cnt,
  forget (main_loop_at pfx ttl (λ _, now) source chunk starts n st cnt)
  = main_loop pfx ttl now source chunk starts st cnt.
Proof.
  induction starts as [|s starts IH]; intros n st cnt; [done|].
  simpl. destruct (lrange source s _) as [|i items]; [done|].
  rewrite <-process_chunk_at_const with (n := n).
  destruct (process_chunk_at _ _ _ n st cnt (i :: items))
    as [[[st1 cnt1] n1]|]; [|done].
  simpl. apply IH.
Qed.
End OneClock.

Lemma main_at_const `{Externals} now source pfx ttl_days chunk st :
  forget (main_at (λ _, now) source pfx ttl_days chunk st)
  = main source pfx ttl_days chunk now st.
Proof.
  unfold main_at, main. destruct (chunk =? 0); [done|].
  destruct (chunk <? 0); [done|]. apply main_loop_at_const.
Qed.

Lemma main_at_horizons `{Externals} clk source pfx ttl_days chunk st st1 cnt1 n :
  main_at clk source pfx ttl_days chunk st = Ok (st1, cnt1, n) →
  0 < ttl_days →
  horizons clk (ttl_days * 86400) (z_ts_key pfx) st n st1.
Proof.
  intros Hm Hd. unfold main_at in Hm.
  destruct (chunk =? 0); [done|].
  destruct (chunk <? 0); [injection Hm as <- <- <-; by intros ???; left|].
  rewrite ttl_of_enabled in Hm by done.
  eapply (main_loop_at_horizons clk pfx _ st) in Hm; [done|].
  by intros ???; left.
Qed.

Section Sim.
Context (clk : nat → Z) (T : Z) (z : string) (N : nat).
Context (Hshort : ∀ i j, (i < N)%nat → (j < N)%nat → clk j < clk i + T).

Lemma rlookup_sim j stc sts k :
  (j < N)%nat → store_sim clk T z N stc sts →
  option_Forall2 (entry_sim clk T z N k)
    (rlookup (clk j) stc k) (rlookup (clk 0%nat) sts k).
Proof.
  intros Hj Hs. unfold rlookup. destruct (Hs k) as [ec es Hrel|]; [|constructor].
  destruct Hrel as (Hv & Ha & Hx). rewrite (Ha j Hj).
  destruct (alive (clk 0%nat) es) eqn:Hes; constructor.
  split_and!; [done| |done]. intros j' Hj'. rewrite Hes. by apply Ha.
Qed.

Lemma store_sim_insert stc sts k ec es :
  store_sim clk T z N stc sts → entry_sim clk T z N k ec es →
  store_sim clk T z N (<[k := ec]> stc) (<[k := es]> sts).
Proof.
  intros Hs He k'. destruct (decide (k' = k)) as [->|Hne].
  - rewrite !lookup_insert_eq. by constructor.
  - rewrite !lookup_insert_ne by done. apply Hs.
Qed.

Lemma entry_sim_fresh k v : entry_sim clk T z N k (Entry v None) (Entry v None).
Proof. split_and!; [done|done|by left]. Qed.

Lemma entry_sim_set j k v :
  (j < N)%nat → k ≠ z →
  entry_sim clk T z N k (Entry v (Some (clk j + T)))
    (Entry v (Some (clk 0%nat + T))).
Proof.
  intros Hj Hk. split_and!; [done| |].
  - intros j' Hj'. unfold alive. simpl.
    pose proof (Hshort j j' Hj Hj'). pose proof (Hshort 0%nat 0%nat).
    destruct (Z.ltb_spec (clk j') (clk j + T)); [|lia].
    destruct (Z.ltb_spec (clk 0%nat) (clk 0%nat + T)); [done|lia].
  - right. split_and!; [done..|]. by exists j.
Qed.

Lemma entry_sim_val k ec es v :
  entry_sim clk T z N k ec es →
  entry_sim clk T z N k (Entry v (e_exp ec)) (Entry v (e_exp es)).
Proof. intros (_ & Ha & Hx). split_and!; done. Qed.

Lemma exec_cmd_sim j stc sts c :
  (j < N)%nat → timed z T c → store_sim clk T z N stc sts →
  store_sim clk T z N (exec_cmd (clk j) stc c).1 (exec_cmd (clk 0%nat) sts c).1
  ∧ (exec_cmd (clk j) stc c).2 = (exec_cmd (clk 0%nat) sts c).2.
Proof.
  intros Hj Hc Hs. pose proof (rlookup_sim j stc sts) as Hl.
  destruct c as [k v nx ex|k s|k m s|k m]; simpl;
    specialize (Hl k Hj Hs).
  - destruct Hl as [ec es Hrel|].
    + rewrite !bool_decide_eq_true_2 by done.
      destruct nx; simpl; [done|]. split; [|done].
      apply store_sim_insert; [done|].
      destruct Hc as [->|[-> Hk]]; simpl;
        [apply entry_sim_fresh|by apply entry_sim_set].
    + rewrite !bool_decide_eq_false_2 by (by intros [??]).
      rewrite andb_false_r. simpl. split; [|done].
      apply store_sim_insert; [done|].
      destruct Hc as [->|[-> Hk]]; simpl;
        [apply entry_sim_fresh|by apply entry_sim_set].
  - destruct Hc as [-> Hk]. destruct Hl as [ec es (Hv & _)|]; simpl; [|done].
    split; [|done]. apply store_sim_insert; [done|]. rewrite Hv.
    by apply entry_sim_set.
  - destruct Hl as [[vc xc] [vs xs] Hrel|]; simpl.
    + pose proof Hrel as (Hv & _). simpl in Hv. subst vs.
      destruct vc as [| |zs]; simpl; try done.
      split; [|done]. apply store_sim_insert; [done|].
      by apply (entry_sim_val _ _ _ _ Hrel).
    + split; [|done]. apply store_sim_insert; [done|]. apply entry_sim_fresh.
  - destruct Hl as [[vc xc] [vs xs] Hrel|]; simpl.
    + pose proof Hrel as (Hv & _). simpl in Hv. subst vs.
      destruct vc as [|ms|]; simpl; try done.
      split; [|done]. apply store_sim_insert; [done|].
      by apply (entry_sim_val _ _ _ _ Hrel).
    + split; [|done]. apply store_sim_insert; [done|]. apply entry_sim_fresh.
Qed.

Lemma exec_all_sim cmds : ∀ j stc sts,
  (j + length cmds ≤ N)%nat → Forall (timed z T) cmds →
  store_sim clk T z N stc sts →
  store_sim clk T z N (exec_all_at clk j stc cmds).1
    (exec_all (clk 0%nat) sts cmds).1
  ∧ (exec_all_at clk j stc cmds).2 = (exec_all (clk 0%nat) sts cmds).2.
Proof.
  induction cmds as [|c cmds IH]; intros j stc sts Hj Hall Hs; [done|].
  apply Forall_cons in Hall as [Hc Hall]. simpl in Hj.
  rewrite exec_all_at_cons, exec_all_cons. cbn [fst snd].
  destruct (exec_cmd_sim j stc sts c) as [Hs1 Hr1]; [lia|done..|].
  destruct (IH (S j) _ _ ltac:(lia) Hall Hs1) as [Hs2 Hr2].
  split; [done|]. by rewrite Hr1, Hr2.
Qed.

Lemma grouped_timed cmds : grouped z T cmds → Forall (timed z T) cmds.
Proof.
  induction 1 as [|k v l Hk _ IH|k v l Hk _ IH|r s l _ IH|k r l Hk _ IH].
  - constructor.
  - constructor; [by right|done].
  - constructor; [by left|]. by constructor.
  - by constructor.
  - constructor; [done|]. by constructor.
Qed.
End Sim.

Section SimRun.
Context `{Externals}.
Context (clk : nat → Z) (pfx : string) (T : Z) (N : nat).
Context (Hshort : ∀ i j, (i < N)%nat → (j < N)%nat → clk j < clk i + T).

Lemma pipeline_execute_at_Ok n st cmds st' rs n' :
  pipeline_execute_at clk n st cmds = Ok (st', rs, n') →
  exec_all_at clk n st cmds = (st', rs)
  ∧ existsb is_error rs = false ∧ n' = (n + length cmds)%nat.
Proof.
  unfold pipeline_execute_at. destruct (exec_all_at clk n st cmds) as [s r].
  destruct (existsb is_error r) eqn:He; [done|]. by intros [= <- <- <-].
Qed.

Lemma pipeline_execute_sim n stc sts cmds stc' rs n' :
  pipeline_execute_at clk n stc cmds = Ok (stc', rs, n') →
  (n' ≤ N)%nat → grouped (z_ts_key pfx) T cmds →
  store_sim clk T (z_ts_key pfx) N stc sts →
  ∃ sts', pipeline_execute (clk 0%nat) sts cmds = Ok (sts', rs)
          ∧ store_sim clk T (z_ts_key pfx) N stc' sts'.
Proof.
  intros (He & Herr & ->)%pipeline_execute_at_Ok Hn Hg Hs.
  destruct (exec_all_sim clk T (z_ts_key pfx) N Hshort cmds n stc sts Hn
              (grouped_timed _ _ _ Hg) Hs) as [Hs' Hr].
  rewrite He in Hs', Hr. simpl in Hs', Hr.
  exists (exec_all (clk 0%nat) sts cmds).1. split; [|done].
  unfold pipeline_execute.
  destruct (exec_all (clk 0%nat) sts cmds) as [s r]. simpl in *. subst r.
  by rewrite Herr.
Qed.

Lemma process_chunk_at_le n st cnt items st' cnt' n' ttl :
  process_chunk_at pfx ttl clk n st cnt items = Ok (st', cnt', n') →
  (n ≤ n')%nat.
Proof.
  unfold process_chunk_at. intros Hp.
  apply bind_Ok in Hp as ([[parsed p1] cnt1] & _ & Hp).
  apply bind_Ok in Hp as ([[st1 rs] n1] & H1 & Hp).
  assert (n ≤ n1)%nat.
  { destruct parsed; [injection H1 as <- <- <-; lia|].
    apply pipeline_execute_at_Ok in H1 as (_ & _ & ->). lia. }
  destruct (pass2 pfx ttl _ cnt1) as [p2 cnt2].
  destruct (negb _).
  - apply bind_Ok in Hp as ([[st2 rs2] n2] & H2 & Hp).
    injection Hp as <- <- <-.
    apply pipeline_execute_at_Ok in H2 as (_ & _ & ->). lia.
  - injection Hp as <- <- <-. lia.
Qed.

Lemma main_loop_at_le ttl source chunk starts : ∀ n st cnt st' cnt' n',
  main_loop_at pfx ttl clk source chunk starts n st cnt = Ok (st', cnt', n') →
  (n ≤ n')%nat.
Proof.
  induction starts as [|s starts IH]; intros n st cnt st' cnt' n' Hl;
    simpl in Hl.
  - injection Hl as <- <- <-. lia.
  - destruct (lrange source s _) as [|i items]; [injection Hl as <- <- <-; lia|].
    apply bind_Ok in Hl as ([[st1 cnt1] n1] & Hp & Hl).
    apply process_chunk_at_le in Hp. apply IH in Hl. lia.
Qed.

Lemma process_chunk_sim n stc sts cnt items stc' cnt' n' :
  process_chunk_at pfx (Some T) clk n stc cnt items = Ok (stc', cnt', n') →
  (n' ≤ N)%nat →
  store_sim clk T (z_ts_key pfx) N stc sts →
  ∃ sts', process_chunk pfx (Some T) (clk 0%nat) sts cnt items
          = Ok (sts', cnt')
          ∧ store_sim clk T (z_ts_key pfx) N stc' sts'.
Proof.
  intros Hp Hn Hs. pose proof Hp as Hle. unfold process_chunk_at in Hp.
  unfold process_chunk.
  apply bind_Ok in Hp as ([[parsed p1] cnt1] & Hp1 & Hp). rewrite Hp1.
  apply pass1_inv in Hp1 as (_ & -> & _). simpl.
  apply bind_Ok in Hp as ([[st1 rs] n1] & H1 & Hp).
  assert (∃ sts1,
    match parsed with
    | [] => Ok (sts, [])
    | _ => pipeline_execute (clk 0%nat) sts
             ((λ t : string * dict * string,
                 CSet (seen_key pfx t.1.1) "1" true (Some T)) <$> parsed)
    end = Ok (sts1, rs)
    ∧ store_sim clk T (z_ts_key pfx) N st1 sts1
    ∧ (n1 ≤ n')%nat) as (sts1 & -> & Hs1 & Hn1).
  { assert (n1 ≤ n')%nat as Hn1.
    { destruct (pass2 pfx (Some T) _ cnt1) as [p2 cnt2].
      destruct (negb _).
      - apply bind_Ok in Hp as ([[st2 rs2] n2] & H2 & Hp).
        injection Hp as <- <- <-.
        apply pipeline_execute_at_Ok in H2 as (_ & _ & ->). lia.
      - injection Hp as <- <- <-. lia. }
    destruct parsed as [|t parsed].
    - injection H1 as <- <- <-. by exists sts.
    - eapply pipeline_execute_sim in H1 as (sts1 & ? & ?);
        [|lia|apply seen_cmds_grouped|done].
      by exists sts1. }
  simpl.
  destruct (pass2 pfx (Some T) _ cnt1) as [p2 cnt2] eqn:Hp2.
  assert (p2 = commit_plan pfx (Some T) (zip parsed rs)) as ->.
  { by rewrite <-(pass2_plan pfx (Some T) _ cnt1), Hp2. }
  destruct (negb _).
  - apply bind_Ok in Hp as ([[st2 rs2] n2] & H2 & Hp).
    injection Hp as <- <- <-.
    eapply pipeline_execute_sim in H2 as (sts2 & -> & ?);
      [|done|apply commit_plan_grouped|done].
    by exists sts2.
  - injection Hp as <- <- <-. by exists sts1.
Qed.

Lemma main_loop_sim source chunk starts : ∀ n stc sts cnt stc' cnt' n',
  main_loop_at pfx (Some T) clk source chunk starts n stc cnt
  = Ok (stc', cnt', n') →
  (n' ≤ N)%nat →
  store_sim clk T (z_ts_key pfx) N stc sts →
  ∃ sts', main_loop pfx (Some T) (clk 0%nat) source chunk starts sts cnt
          = Ok (sts', cnt')
          ∧ store_sim clk T (z_ts_key pfx) N stc' sts'.
Proof.
  induction starts as [|s starts IH]; intros n stc sts cnt stc' cnt' n' Hl Hn Hs;
    simpl in *.
  - injection Hl as <- <- <-. by exists sts.
  - destruct (lrange source s _) as [|i items].
    { injection Hl as <- <- <-. by exists sts. }
    apply bind_Ok in Hl as ([[st1 cnt1] n1] & Hp & Hl).
    pose proof (main_loop_at_le _ _ _ _ _ _ _ _ _ _ Hl) as Hle.
    eapply process_chunk_sim in Hp as (sts1 & -> & Hs1); [|lia|done].
    simpl. by eapply IH.
Qed.
End SimRun.

Section ClockTheorem.
Context `{Externals}.

Lemma store_sim_refl clk T z n st :
  short_run clk n T → no_expiry clk n st → store_sim clk T z n st st.
Proof.
  intros [Hmono _] Hno k. destruct (st !! k) as [e|] eqn:He; constructor.
  split_and!; [done| |by left]. intros j Hj.
  destruct (alive (clk 0%nat) e) eqn:Ha; [by eapply Hno|].
  unfold alive in *. destruct (e_exp e) as [d|]; [|done].
  specialize (Hmono 0%nat j). lia.
Qed.

Lemma main_at_sim clk source pfx ttl_days chunk st st1 cnt1 n :
  main_at clk source pfx ttl_days chunk st = Ok (st1, cnt1, n) →
  0 < ttl_days →
  short_run clk n (ttl_days * 86400) → no_expiry clk n st →
  ∃ sts, main source pfx ttl_days chunk (clk 0%nat) st = Ok (sts, cnt1)
         ∧ store_sim clk (ttl_days * 86400) (z_ts_key pfx) n st1 sts.
Proof.
  intros Hm Hd Hshort Hno. unfold main_at in Hm. unfold main.
  destruct (chunk =? 0); [done|].
  destruct (chunk <? 0).
  { injection Hm as <- <- <-. exists st. split; [done|].
    by apply store_sim_refl. }
  rewrite ttl_of_enabled in * by done.
  eapply main_loop_sim in Hm; [done| |done|by apply store_sim_refl].
  intros i j Hi Hj. destruct Hshort as [Hmono Hlt].
  specialize (Hmono 0%nat i). specialize (Hlt j Hj). lia.
Qed.

Lemma sim_deadline clk T z n k ec es :
  entry_sim clk T z n k ec es → (0 < n)%nat →
  e_exp es = Some (clk 0%nat + T) → deadline_in clk n T ec.
Proof.
  intros (_ & _ & [Hx|(_ & _ & i & Hi & Hx)]) Hn Hes.
  - exists 0%nat. split; [done|]. congruence.
  - by exists i.
Qed.

(** C1, as amended: with retention enabled, every key other than the time
    index that a run has created or changed, and that is still visible when
    the run ends, expires [ttl_days] days after the moment the server
    executed one of the commands of the run; the time index has no
    expiration, or the one it had before the run.  And in a run shorter
    than the retention, during which no older key expires, a record that
    the run commits has its forward entry, its marker and every attribute
    set it was added to under such deadlines, which need not be equal, and
    its entry in the time index. *)
Theorem retention_horizon clk source pfx ttl_days chunk st st1 cnt1 n :
  main_at clk source pfx ttl_days chunk st = Ok (st1, cnt1, n) →
  0 < ttl_days →
  (∀ now' k e1,
     (∀ i, (i < n)%nat → clk i ≤ now') →
     st1 !! k = Some e1 → st !! k ≠ Some e1 →
     (k = z_ts_key pfx →
        e_exp e1 = None ∨ ∃ e0, st !! k = Some e0 ∧ e_exp e1 = e_exp e0)
     ∧ (k ≠ z_ts_key pfx → alive now' e1 = true →
        deadline_in clk n (ttl_days * 86400) e1))
  ∧ (∀ rid obj raw ts,
       0 < chunk →
       short_run clk n (ttl_days * 86400) → no_expiry clk n st →
       ¬ marked (clk 0%nat) st (seen_key pfx rid) →
       first_with_id rid source = Some (rid, obj, raw) →
       py_float (dict_get obj "date") = Some ts →
       (∃ e, st1 !! req_key pfx rid = Some e ∧ e_val e = VStr raw
             ∧ deadline_in clk n (ttl_days * 86400) e)
       ∧ (∃ e, st1 !! seen_key pfx rid = Some e ∧ e_val e = VStr "1"
               ∧ deadline_in clk n (ttl_days * 86400) e)
       ∧ (∀ kf v, kf ∈ index_fields → dict_get obj kf.2 = Some v →
            none_or_empty v = false →
            ∃ e m, st1 !! set_key pfx kf.1 (py_str v) = Some e
                   ∧ e_val e = VSet m ∧ rid ∈ m
                   ∧ deadline_in clk n (ttl_days * 86400) e)
       ∧ ∃ z, st1 !! z_ts_key pfx
              = Some (Entry (VZSet z) (z_exp pfx (clk 0%nat) st))
              ∧ z !! rid = Some ts).
Proof.
  intros Hm Hd. pose proof (main_at_horizons _ _ _ _ _ _ _ _ _ Hm Hd) as Hh.
  split.
  - intros now' k e1 Hclk He1 Hne.
    destruct (Hh _ _ He1) as [?|[[-> Hz]|(Hk & i & Hi & Hx)]]; [done| |].
    + split; [done|]. by intros [].
    + split; [done|]. intros _ Ha. exists i. split; [done|].
      destruct Hx as [?|Hdead]; [done|].
      unfold alive in *. destruct (e_exp e1) as [d|]; [|done].
      specialize (Hclk i Hi). lia.
  - intros rid obj raw ts Hc Hshort Hno Hnm Hf Hts.
    destruct (main_at_sim _ _ _ _ _ _ _ _ _ Hm Hd Hshort Hno)
      as (sts & Hms & Hsim).
    destruct (horizon_one_clock _ _ _ _ _ _ _ _ _ _ _ _ Hms Hd Hc Hnm Hf Hts)
      as (Hreq & Hseen & Hattr & zs & Hz & Hzs).
    assert (∀ k es, sts !! k = Some es →
      ∃ ec, st1 !! k = Some ec
            ∧ entry_sim clk (ttl_days * 86400) (z_ts_key pfx) n k ec es)
      as Hback.
    { intros k es Hes. specialize (Hsim k). rewrite Hes in Hsim.
      inversion Hsim as [ec ? Hrel|]; subst. by exists ec. }
    assert (0 < n)%nat as Hn.
    { destruct (Hback _ _ Hseen) as (ec & Hec & _ & _ & Hx).
      destruct n as [|n]; [|lia]. exfalso. apply Hnm.
      destruct (Hh _ _ Hec) as [H0|[[Hk _]|(_ & i & ? & _)]]; [| |lia].
      - exists ec. apply alive_rlookup; [done|].
        destruct Hx as [Hx|(_ & _ & i & ? & _)]; [|lia].
        unfold alive. rewrite Hx. simpl. lia.
      - by apply seen_key_ne_z_ts in Hk. }
    split_and!.
    + destruct (Hback _ _ Hreq) as (ec & Hec & Hrel).
      exists ec. split_and!; [done|by destruct Hrel as [-> _]|].
      by eapply sim_deadline.
    + destruct (Hback _ _ Hseen) as (ec & Hec & Hrel).
      exists ec. split_and!; [done|by destruct Hrel as [-> _]|].
      by eapply sim_deadline.
    + intros kf v Hkf Hv Hne.
      destruct (Hattr kf v Hkf Hv Hne) as (m & Hm' & Hin).
      destruct (Hback _ _ Hm') as (ec & Hec & Hrel).
      exists ec, m. split_and!; [done|by destruct Hrel as [-> _]|done|].
      by eapply sim_deadline.
    + destruct (Hback _ _ Hz) as ([vc xc] & Hec & Hv & _ & Hx).
      simpl in Hv, Hx. subst vc. exists zs. split; [|done].
      destruct Hx as [->|(Hk & _)]; done.
Qed.
End ClockTheorem.

(** ** Examples of the indexer's properties *)




Lemma poison_skip_witness :
  no_date (Counters 1 0 0 2)
  = length (List.filter (@undated odd)
      (@newly_marked odd 0 ∅ "bw_idx"
         ["rec_nodate"; "rec_m"; "rec_a"; "rec_nodate"]))
  ∧ no_gain "bw_idx" "m" ∅
      (odd_run ["rec_nodate"; "rec_m"; "rec_a"; "rec_nodate"] 60 0 ∅)
  ∧ marked 0 (odd_run ["rec_nodate"; "rec_m"; "rec_a"; "rec_nodate"] 60 0 ∅)
      (seen_key "bw_idx" "m").
Proof.
  destruct (@poison_skip odd ["rec_nodate"; "rec_m"; "rec_a"; "rec_nodate"]
              "bw_idx" 60 500 0 ∅
              (odd_run ["rec_nodate"; "rec_m"; "rec_a"; "rec_nodate"] 60 0 ∅)
              (Counters 1 0 0 2) "m" rec_m "rec_m")
    as (Hcount & _ & _ & Hgain & Hmarked & _).
  - vm_compute. reflexivity.
  - reflexivity.
  - intros [e He]. vm_compute in He. discriminate.
  - vm_compute. reflexivity.
  - reflexivity.
  - by split_and!.
Defined.

Lemma retention_horizon_witness :
  (∃ e, demo_index_at ["rec_a"] !! req_key "bw_idx" "a" = Some e
        ∧ e_val e = VStr "rec_a" ∧ deadline_in Z.of_nat 8 (60 * 86400) e)
  ∧ (∃ e, demo_index_at ["rec_a"] !! seen_key "bw_idx" "a" = Some e
          ∧ e_val e = VStr "1" ∧ deadline_in Z.of_nat 8 (60 * 86400) e)
  ∧ (∃ z, demo_index_at ["rec_a"] !! z_ts_key "bw_idx"
          = Some (Entry (VZSet z) None)
          ∧ z !! "a" = Some (inject_Z 1000))
  ∧ e_exp <$> demo_index_at ["rec_a"] !! seen_key "bw_idx" "a"
    = Some (Some 5184000)
  ∧ e_exp <$> demo_index_at ["rec_a"] !! req_key "bw_idx" "a"
    = Some (Some 5184002)
  ∧ e_exp <$> demo_index_at ["rec_a"] !! set_key "bw_idx" "ip" "1.2.3.4"
    = Some (Some 5184005)
  ∧ deadline_in Z.of_nat 8 (60 * 86400)
      (Entry (VSet {["a"]}) (Some 5184007)).
Proof.
  destruct (@retention_horizon demo Z.of_nat ["rec_a"] "bw_idx" 60 500 ∅
              (demo_index_at ["rec_a"]) (Counters 1 0 0 0) 8%nat)
    as [Hkey Hrec].
  - vm_compute. reflexivity.
  - reflexivity.
  - destruct (Hrec "a" rec_a "rec_a" (inject_Z 1000))
      as (Hreq & Hseen & _ & Hz).
    + reflexivity.
    + split; intros; lia.
    + intros k e i _ He. by rewrite lookup_empty in He.
    + intros [e He]. vm_compute in He. discriminate.
    + vm_compute. reflexivity.
    + reflexivity.
    + destruct (Hkey 7 (set_key "bw_idx" "mode" "block")
                  (Entry (VSet {["a"]}) (Some 5184007))) as [_ Hmode].
      * intros i Hi. lia.
      * vm_compute. reflexivity.
      * rewrite lookup_empty. discriminate.
      * split_and!; [done..| | | |]; try (vm_compute; reflexivity).
        apply Hmode; [|reflexivity]. vm_compute. discriminate.
Defined.

(** C1, as stated, fails.  After one run with a retention of 60 days the
    forward entry and the marker of [a] expire at 5184000 while the time
    index has no expiration at all.  And once that deadline has passed, [a]
    is gone from the forward store, yet it is still in the time window and
    still in the set of its address, which a later run over [rec_e] has
    kept alive. *)
Lemma retention_horizon_counterexample :
  ¬ same_horizon "bw_idx" (demo_index ["rec_a"]) "a"
  ∧ @search_ids demo 5184050 demo_index_later ip_request = Ok ["e"; "a"]
  ∧ search_candidates 5184050 demo_index_later ip_request ["e"; "a"]
    = Ok {["a"; "e"]}
  ∧ rget 5184050 demo_index_later (req_key "bw_idx" "a") = Ok None.
Proof.
  split_and!.
  - intros (h & Hreq & _ & Hz). vm_compute in Hreq, Hz. congruence.
  - vm_compute. reflexivity.
  - vm_compute. reflexivity.
  - vm_compute. reflexivity.
Qed.

(** * Further properties *)

(** ** The indexer: counters, deduplication, frame *)

Section Admission.
Context `{Externals}.
Context (pfx : string) (ttl : option Z) (now : Z).

Lemma pass1_counters items : ∀ cnt parsed p cnt',
  pass1 pfx ttl items cnt = Ok (parsed, p, cnt') →
  bad_json cnt' = (bad_json cnt + length (List.filter malformed items))%nat
  ∧ no_id cnt' = (no_id cnt + length (List.filter lacks_id items))%nat
  ∧ (length (List.filter malformed items)
     + length (List.filter lacks_id items)
     + length parsed = length items)%nat.
Proof.
  induction items as [|raw items IH]; intros cnt parsed p cnt' Hp; simpl in Hp.
  - injection Hp as <- <- <-. simpl. lia.
  - cbn [List.filter].
    assert (malformed raw
            = match json_loads raw with None => true | Some _ => false end)
      as -> by done.
    assert (lacks_id raw
            = match json_loads raw with
              | Some (JObj obj) =>
                  match dict_get obj "id" with
                  | None => true
                  | Some v => negb (py_truthy v)
                  end
              | _ => false
              end) as -> by done.
    destruct (json_loads raw) as [[| | | | | |obj]|] eqn:Hraw; try done.
    + destruct (dict_get obj "id") as [v|] eqn:Hid.
      * destruct (py_truthy v) eqn:Htruthy; simpl in Hp.
        -- destruct v as [| | | |rid| |]; try done.
           apply bind_Ok in Hp as ([[parsed' p'] cnt''] & Hrec & Hp).
           injection Hp as <- <- <-.
           destruct (IH _ _ _ _ Hrec) as (? & ? & ?).
           simpl in *. lia.
        -- destruct (IH _ _ _ _ Hp) as (? & ? & ?). simpl in *.
           simpl in *. lia.
      * destruct (IH _ _ _ _ Hp) as (? & ? & ?). simpl in *.
        simpl in *. lia.
    + destruct (IH _ _ _ _ Hp) as (? & ? & ?). simpl in *.
      simpl in *. lia.
Qed.

Lemma pass2_counters todo : ∀ cnt,
  bad_json (pass2 pfx ttl todo cnt).2 = bad_json cnt
  ∧ no_id (pass2 pfx ttl todo cnt).2 = no_id cnt
  ∧ (new_count (pass2 pfx ttl todo cnt).2 + no_date (pass2 pfx ttl todo cnt).2
     ≤ new_count cnt + no_date cnt + length todo)%nat.
Proof.
  induction todo as [|[[[rid obj] raw] r] todo IH]; intros cnt; [simpl; lia|].
  simpl. destruct (reply_truthy r); simpl.
  - destruct (py_float (dict_get obj "date")).
    + specialize (IH (Counters (S (new_count cnt)) (bad_json cnt) (no_id cnt)
                               (no_date cnt))).
      destruct (pass2 pfx ttl todo _). simpl in *. lia.
    + specialize (IH (Counters (new_count cnt) (bad_json cnt) (no_id cnt)
                               (S (no_date cnt)))).
      simpl in *. lia.
  - specialize (IH cnt). lia.
Qed.

Lemma process_chunk_counters st cnt items st' cnt' :
  process_chunk pfx ttl now st cnt items = Ok (st', cnt') →
  bad_json cnt' = (bad_json cnt + length (List.filter malformed items))%nat
  ∧ no_id cnt' = (no_id cnt + length (List.filter lacks_id items))%nat
  ∧ (new_count cnt' + no_date cnt' + length (List.filter malformed items)
     + length (List.filter lacks_id items)
     ≤ new_count cnt + no_date cnt + length items)%nat.
Proof.
  unfold process_chunk. intros Hp.
  apply bind_Ok in Hp as ([[parsed p1] cnt1] & Hp1 & Hp).
  pose proof (pass1_counters _ _ _ _ _ Hp1) as (Hb & Hi & Hlen).
  apply pass1_inv in Hp1 as (_ & _ & Hn & Hd).
  apply bind_Ok in Hp as ([st1 rs] & _ & Hp).
  pose proof (pass2_counters (zip parsed rs) cnt1) as (Hb2 & Hi2 & Hle).
  assert (length (zip parsed rs) ≤ length parsed)%nat as Hz.
  { rewrite length_zip_with. lia. }
  destruct (pass2 pfx ttl (zip parsed rs) cnt1) as [p2 cnt2]. simpl in *.
  assert (cnt' = cnt2) as ->.
  { destruct (new_count cnt2 =? 0)%nat; simpl in Hp.
    - by injection Hp as <- <-.
    - apply bind_Ok in Hp as ([st2 rs2] & _ & Hp). by injection Hp as <- <-. }
  lia.
Qed.

Lemma loop_chunks_counters chunks : ∀ st cnt st' cnt',
  loop_chunks pfx ttl now chunks st cnt = Ok (st', cnt') →
  Forall (λ s, s ≠ []) chunks →
  let items := concat chunks in
  bad_json cnt' = (bad_json cnt + length (List.filter malformed items))%nat
  ∧ no_id cnt' = (no_id cnt + length (List.filter lacks_id items))%nat
  ∧ (new_count cnt' + no_date cnt' + length (List.filter malformed items)
     + length (List.filter lacks_id items)
     ≤ new_count cnt + no_date cnt + length items)%nat.
Proof.
  induction chunks as [|c chunks IH]; intros st cnt st' cnt' Hl Hne; simpl in Hl.
  - injection Hl as <- <-. simpl. lia.
  - apply Forall_cons in Hne as [Hc Hne].
    destruct c as [|i c]; [done|].
    apply bind_Ok in Hl as ([st1 cnt1] & Hp & Hl).
    apply process_chunk_counters in Hp as (? & ? & ?).
    destruct (IH _ _ _ _ Hl Hne) as (? & ? & ?).
    cbn zeta. rewrite concat_cons, !List.filter_app, !length_app. lia.
Qed.
End Admission.

(** X1: at the end of a run with a positive chunk size, [bad_json] is the
    number of entries of the source that do not parse, [no_id] is the number
    of the parsed dicts without a truthy id, and the four counters together
    never exceed the number of entries. *)
Theorem counters_account `{Externals} source pfx ttl_days chunk now st st1 cnt1 :
  main source pfx ttl_days chunk now st = Ok (st1, cnt1) →
  0 < chunk →
  bad_json cnt1 = length (List.filter malformed source)
  ∧ no_id cnt1 = length (List.filter lacks_id source)
  ∧ (new_count cnt1 + no_date cnt1 + bad_json cnt1 + no_id cnt1
     ≤ length source)%nat.
Proof.
  unfold main. intros Hm Hc.
  destruct (Z.eqb_spec chunk 0); [lia|].
  destruct (Z.ltb_spec chunk 0); [lia|].
  rewrite main_loop_chunks in Hm.
  apply loop_chunks_counters in Hm; [|by apply chunks_of_nonempty].
  rewrite chunks_of_concat in Hm by done. simpl in Hm. lia.
Qed.

Section Frames.
Context `{Externals}.
Context (pfx : string) (ttl : option Z) (now : Z) (rid : string).
Context (Hpos : ∀ t, ttl = Some t → 0 < t).

Lemma loop_chunks_absent chunks : ∀ st cnt st' cnt',
  loop_chunks pfx ttl now chunks st cnt = Ok (st', cnt') →
  first_with_id rid (concat chunks) = None →
  benign_run pfx ttl now rid st st'
  ∧ st' !! seen_key pfx rid = st !! seen_key pfx rid.
Proof.
  induction chunks as [|items chunks IH]; intros st cnt st' cnt' Hl Hf;
    simpl in Hl.
  - injection Hl as <- <-. split; [apply benign_run_refl|done].
  - destruct items as [|i items].
    { injection Hl as <- <-. split; [apply benign_run_refl|done]. }
    apply bind_Ok in Hl as ([st1 cnt1] & Hp & Hl).
    rewrite concat_cons, first_with_id_app in Hf.
    destruct (first_with_id rid (i :: items)) eqn:Hf0; [done|].
    destruct (process_chunk_benign pfx ttl now rid _ _ _ _ _ Hp)
      as (Hrun & Hsame & _); [by right|].
    destruct (IH _ _ _ _ Hl Hf) as [Hrun' Hsame'].
    split; [by eapply benign_run_trans|]. rewrite Hsame'. by apply Hsame.
Qed.

End Frames.

Section IndexerExtras.
Context `{Externals}.


(** X3: a run touches the ids of its source only: an id that no valid
    entry of the source carries keeps its forward entry and its marker as
    they were, and enters neither the time index nor any set. *)
Theorem absent_left_alone source pfx ttl_days chunk now st st1 cnt1 rid :
  main source pfx ttl_days chunk now st = Ok (st1, cnt1) →
  first_with_id rid source = None →
  no_gain pfx rid st st1
  ∧ st1 !! seen_key pfx rid = st !! seen_key pfx rid.
Proof.
  unfold main. intros Hm Hf.
  destruct (Z.eqb_spec chunk 0); [done|].
  destruct (Z.ltb_spec chunk 0).
  { injection Hm as <- <-. split; [apply no_gain_refl|done]. }
  rewrite main_loop_chunks in Hm.
  rewrite <-(chunks_of_concat source chunk) in Hf by lia.
  destruct (loop_chunks_absent pfx (ttl_of ttl_days) now rid _ _ _ _ _ Hm Hf)
    as [(cmds & Hall & ->) Hsame].
  split; [by eapply benign_run_no_gain|done].
Qed.

End IndexerExtras.

Section NoEntry.
Context `{Externals}.
Context (pfx : string) (ttl : option Z) (now : Z).

Lemma loop_chunks_no_entry chunks : ∀ st cnt st' cnt',
  loop_chunks pfx ttl now chunks st cnt = Ok (st', cnt') →
  omap entry_of (concat chunks) = [] →
  st' = st ∧ new_count cnt' = new_count cnt ∧ no_date cnt' = no_date cnt.
Proof.
  induction chunks as [|items chunks IH]; intros st cnt st' cnt' Hl Hnone;
    simpl in Hl.
  - by injection Hl as <- <-.
  - destruct items as [|i items]; [by injection Hl as <- <-|].
    apply bind_Ok in Hl as ([st1 cnt1] & Hp & Hl).
    rewrite concat_cons, omap_app in Hnone.
    apply app_eq_nil in Hnone as [Hnone0 Hnone].
    apply process_chunk_inv in Hp as (-> & _ & cnt0 & Hn & Hd & ->).
    rewrite Hnone0 in *. simpl in *.
    destruct (IH _ _ _ _ Hl Hnone) as (-> & -> & ->). by rewrite Hn, Hd.
Qed.
End NoEntry.

(** X5: a run over a source without a single valid entry leaves the store
    exactly as it was, and counts nothing as new or as undated. *)
Theorem no_entry_no_write `{Externals} source pfx ttl_days chunk now st st1 cnt1 :
  main source pfx ttl_days chunk now st = Ok (st1, cnt1) →
  omap entry_of source = [] →
  st1 = st ∧ new_count cnt1 = 0%nat ∧ no_date cnt1 = 0%nat.
Proof.
  unfold main. intros Hm Hnone.
  destruct (Z.eqb_spec chunk 0); [done|].
  destruct (Z.ltb_spec chunk 0); [by injection Hm as <- <-|].
  rewrite main_loop_chunks in Hm.
  rewrite <-(chunks_of_concat source chunk) in Hnone by lia.
  by apply loop_chunks_no_entry in Hm.
Qed.

Lemma filter_all {A} (P : A → Prop) `{∀ x, Decision (P x)} l :
  Forall P l → filter P l = l.
Proof.
  induction 1 as [|x l Hx _ IH]; [done|]. by rewrite filter_cons_True, IH.
Qed.

Section IngestSearch.
Context `{Externals}.

Lemma commit_cmds_req pfx ttl now st rid obj raw ts :
  run_cmds now st (commit_cmds pfx ttl rid obj raw ts) !! req_key pfx rid
  = Some (Entry (VStr raw) ((λ t, now + t) <$> ttl)).
Proof.
  unfold commit_cmds.
  rewrite (app_comm_cons _ _ (CSet _ _ _ _)), run_cmds_app, run_set_expire.
  rewrite run_cmds_cons.
  rewrite attr_cmds_lookup_ne by (intros; by apply set_key_ne_req).
  rewrite exec_cmd_lookup_ne
    by (simpl; intros Heq; by apply (req_key_ne_z_ts pfx rid)).
  apply lookup_insert_eq.
Qed.

(** The forward entry a run writes for a record it commits. *)
Lemma main_commits source pfx ttl_days chunk now st st1 cnt1 rid obj raw ts :
  main source pfx ttl_days chunk now st = Ok (st1, cnt1) →
  0 < chunk →
  ¬ marked now st (seen_key pfx rid) →
  first_with_id rid source = Some (rid, obj, raw) →
  py_float (dict_get obj "date") = Some ts →
  st1 !! req_key pfx rid
  = Some (Entry (VStr raw) ((λ t, now + t) <$> ttl_of ttl_days))
  ∧ st1 !! seen_key pfx rid = Some (marker (ttl_of ttl_days) now).
Proof.
  intros Hm Hc Hnm Hf Hd.
  destruct (main_first _ _ _ _ _ _ _ _ _ _ Hm Hc Hnm Hf)
    as (sa & _ & _ & (c2 & Hc2 & ->) & Hmarker & _).
  split; [|done].
  unfold commit_of. cbn [fst snd]. rewrite Hd.
  destruct (benign_run_no_gain pfx _ now rid c2
              (run_cmds now sa (commit_cmds pfx (ttl_of ttl_days) rid obj raw ts))
              Hc2) as (-> & _).
  apply commit_cmds_req.
Qed.

(** X6: with retention disabled ([ttl_days] zero or negative), the forward
    entry and the marker of a record committed by a run carry no
    expiration. *)
Theorem retention_disabled source pfx ttl_days chunk now st st1 cnt1
    rid obj raw ts :
  main source pfx ttl_days chunk now st = Ok (st1, cnt1) →
  ttl_days ≤ 0 → 0 < chunk →
  ¬ marked now st (seen_key pfx rid) →
  first_with_id rid source = Some (rid, obj, raw) →
  py_float (dict_get obj "date") = Some ts →
  st1 !! req_key pfx rid = Some (Entry (VStr raw) None)
  ∧ st1 !! seen_key pfx rid = Some (Entry (VStr "1") None).
Proof.
  intros Hm Hdays Hc Hnm Hf Hd.
  destruct (main_commits _ _ _ _ _ _ _ _ _ _ _ _ Hm Hc Hnm Hf Hd)
    as [Hreq Hseen].
  assert (ttl_of ttl_days = None) as Hoff.
  { unfold ttl_of. destruct (Z.ltb_spec 0 ttl_days); [lia|].
    by rewrite andb_false_r. }
  rewrite Hoff in Hreq, Hseen. by split.
Qed.

Lemma first_with_id_entry rid source t :
  first_with_id rid source = Some t →
  t.1.1 = rid ∧ json_loads t.2 = Some (JObj t.1.2) ∧ t.2 ∈ source.
Proof.
  unfold first_with_id. intros Hh.
  apply head_Some_elem_of in Hh.
  apply list_elem_of_filter in Hh as [Hid Hin].
  apply list_elem_of_omap in Hin as (raw & Hraw & He).
  unfold entry_of in He.
  destruct (json_loads raw) as [[| | | | | |obj]|] eqn:Hl; try done.
  destruct (dict_get obj "id") as [[| | | |r| |]|]; try done.
  destruct (String.eqb r ""); [done|]. injection He as <-. simpl in *.
  by rewrite Hl.
Qed.

Lemma zrangebyscore_complete now st k lo hi ids z x rid ts :
  zrangebyscore now st k lo hi = Ok ids →
  rlookup now st k = Some (Entry (VZSet z) x) →
  z !! rid = Some ts → (lo <= ts <= hi)%Q →
  rid ∈ ids.
Proof.
  unfold zrangebyscore. intros Hz Hl Hin [Hlo Hhi]. rewrite Hl in Hz.
  injection Hz as <-. apply list_elem_of_fmap. exists (rid, ts). split; [done|].
  apply list_elem_of_filter. split.
  - unfold in_range. simpl. apply andb_true_iff.
    split; by apply Qle_bool_iff.
  - unfold zset_sorted. rewrite merge_sort_Permutation.
    by apply elem_of_map_to_list.
Qed.

Lemma collect_complete now st q l rs rid raw :
  collect now st q l = Ok rs →
  rid ∈ l →
  rget now st (req_key (prefix q) rid) = Ok (Some raw) →
  raw ≠ "" →
  ∃ o, load_record q raw = Ok o ∧ ∀ obj, o = Some obj → obj ∈ rs.
Proof.
  intros Hc Hin Hget Hne. revert rs Hc.
  induction l as [|r l IH]; intros rs Hc; [by apply elem_of_nil in Hin|].
  simpl in Hc.
  apply bind_Ok in Hc as (oraw & Hget' & Hc).
  apply elem_of_cons in Hin as [<-|Hin].
  - rewrite Hget in Hget'. injection Hget' as <-.
    apply String.eqb_neq in Hne. rewrite Hne in Hc.
    apply bind_Ok in Hc as (o & Hload & Hc).
    apply bind_Ok in Hc as (rs' & _ & Hc). injection Hc as <-.
    exists o. split; [done|]. intros obj ->. left.
  - destruct oraw as [raw'|]; [|by apply IH].
    destruct (String.eqb raw' ""); [by apply IH|].
    apply bind_Ok in Hc as (o' & _ & Hc).
    apply bind_Ok in Hc as (rs' & Hrs' & Hc). injection Hc as <-.
    destruct (IH Hin _ Hrs') as (o & Hload & Ho).
    exists o. split; [done|]. intros obj Hobj.
    destruct o'; [right|]; by apply Ho.
Qed.

(** X7: a record committed by a run is found by a later search without
    filters, annotated with its readable date, when its date lies in the
    window, its forward entry has not expired, and the window holds no more
    ids than [limit]. *)
Theorem ingested_found source pfx ttl_days chunk now st st1 cnt1
    rid obj raw ts now' q resp lo hi :
  built pfx st →
  main source pfx ttl_days chunk now st = Ok (st1, cnt1) →
  0 < chunk →
  ¬ marked now st (seen_key pfx rid) →
  first_with_id rid source = Some (rid, obj, raw) →
  py_float (dict_get obj "date") = Some ts →
  raw ≠ "" →
  (∀ T, ttl_of ttl_days = Some T → now' < now + T) →
  prefix q = pfx →
  exact_filters q = [] → url_contains q = None → ua_contains q = None →
  to_epoch (start q) = Ok lo → to_epoch (end_ q) = Ok hi →
  (lo <= ts <= hi)%Q →
  (∀ ids, search_ids now' st1 q = Ok ids → Z.of_nat (length ids) ≤ limit q) →
  search_reports now' st1 q = Ok resp →
  ∃ h, date_human ts = Some h
       ∧ dict_set obj "_date_human" (JStr h) ∈ results resp.
Proof.
  intros Hb Hm Hc Hnm Hf Hd Hne Hret <- Hfil Hurl Hua Hlo Hhi Hwin Hlim Hs.
  assert (index_ok (prefix q) st1) as Hok.
  { eapply main_index_ok; [done|]. by apply built_index_ok. }
  destruct (main_commits _ _ _ _ _ _ _ _ _ _ _ _ Hm Hc Hnm Hf Hd) as [Hreq _].
  destruct (first_with_id_entry _ _ _ Hf) as (_ & Hraw & _). simpl in Hraw.
  (* the record is in the time index *)
  destruct Hok as [Hzok Hrok].
  destruct (Hrok _ _ Hreq) as (raw' & obj' & ts' & [= <-] & Hraw' & Hd' & Hz).
  rewrite Hraw in Hraw'. injection Hraw' as <-.
  rewrite Hd in Hd'. injection Hd' as <-.
  unfold zset_at in Hz.
  destruct (st1 !! z_ts_key (prefix q)) as [ez|] eqn:Hzk; [|done].
  destruct (Hzok _ eq_refl) as [z ->]. simpl in Hz.
  (* the forward entry is visible *)
  assert (rget now' st1 (req_key (prefix q) rid) = Ok (Some raw)) as Hget.
  { unfold rget. rewrite (alive_rlookup _ _ _ _ Hreq); [done|].
    unfold alive. simpl. destruct (ttl_of ttl_days) as [T|]; [|done]. simpl.
    specialize (Hret T eq_refl). lia. }
  (* the search *)
  unfold search_reports in Hs.
  apply bind_Ok in Hs as (ids & Hids & Hs).
  apply bind_Ok in Hs as (c & Hcand & Hs).
  apply bind_Ok in Hs as (rs & Hrs & Hs). injection Hs as <-. simpl.
  specialize (Hlim _ Hids).
  destruct (search_ids_inv _ _ _ _ Hids)
    as (lo' & hi' & ids0 & Hlo' & Hhi' & Hrange & ->).
  rewrite Hlo in Hlo'. injection Hlo' as <-.
  rewrite Hhi in Hhi'. injection Hhi' as <-.
  assert (rid ∈ ids0) as Hin0.
  { eapply zrangebyscore_complete; [done| |done..].
    by apply alive_rlookup. }
  set (ids := if String.eqb (order q) "newest" then reverse ids0 else ids0) in *.
  assert (rid ∈ ids) as Hin.
  { unfold ids. destruct (String.eqb (order q) "newest"); [|done].
    by apply elem_of_reverse. }
  unfold search_candidates in Hcand. rewrite Hfil in Hcand.
  simpl in Hcand. injection Hcand as <-.
  assert (search_ordered q ids (list_to_set ids) = ids) as Hord.
  { unfold search_ordered, py_slice_to.
    assert (filter (λ r, r ∈ (list_to_set ids : gset string)) ids = ids) as ->.
    { apply filter_all, Forall_forall. intros r Hr.
      by apply elem_of_list_to_set. }
    destruct (Z.leb_spec 0 (limit q)); [|lia]. apply take_ge. lia. }
  rewrite Hord in Hrs.
  destruct (collect_complete _ _ _ _ _ _ _ Hrs Hin Hget Hne) as (o & Hload & Ho).
  unfold load_record in Hload. rewrite Hraw, Hurl, Hua in Hload.
  simpl in Hload.
  destruct (dict_get obj "date") as [v|] eqn:Hv; [|done].
  simpl in Hload, Hd. rewrite Hd in Hload.
  destruct (date_human ts) as [h|]; [|done]. injection Hload as <-.
  exists h. split; [done|]. by apply Ho.
Qed.
End IngestSearch.

(** ** The search API: substring filters and empty answers *)

Lemma dict_get_set_eq d k v : dict_get (dict_set d k v) k = Some v.
Proof.
  induction d as [|[k0 v0] d IH]; simpl.
  - by rewrite String.eqb_refl.
  - destruct (String.eqb_spec k0 k) as [->|Hne]; simpl.
    + by rewrite String.eqb_refl.
    + by apply String.eqb_neq in Hne as ->.
Qed.

Section SearchSound.
Context `{Externals}.
Context (now : Z) (st : redis).

Lemma rejects_false n hay :
  rejects (Some n) hay = false → n ≠ "" → contains n hay = true.
Proof.
  unfold rejects. intros Hr Hn. apply String.eqb_neq in Hn. rewrite Hn in Hr.
  simpl in Hr. by destruct (contains n hay).
Qed.

Lemma load_record_sound q raw obj' :
  load_record q raw = Ok (Some obj') →
  ∃ obj ts h,
    json_loads raw = Some (JObj obj)
    ∧ obj' = dict_set obj "_date_human" (JStr h)
    ∧ py_float (Some (default (JInt 0) (dict_get obj "date"))) = Some ts
    ∧ date_human ts = Some h
    ∧ rejects (url_contains q)
        (py_str (default (JStr "") (dict_get obj "url"))) = false
    ∧ rejects (str_lower <$> ua_contains q)
        (str_lower (py_str (default (JStr "") (dict_get obj "user_agent"))))
      = false.
Proof.
  unfold load_record.
  destruct (json_loads raw) as [[| | | | | |obj]|]; try done.
  destruct (rejects (url_contains q) _) eqn:Hu; [done|].
  destruct (rejects (str_lower <$> ua_contains q) _) eqn:Ha; [done|].
  destruct (py_float _) as [ts|] eqn:Hts; [|done].
  destruct (date_human ts) as [h|] eqn:Hh; [|done].
  intros [= <-]. by exists obj, ts, h.
Qed.

Lemma collect_sound q l rs obj' :
  collect now st q l = Ok rs → obj' ∈ rs →
  ∃ rid raw, rid ∈ l
    ∧ rget now st (req_key (prefix q) rid) = Ok (Some raw)
    ∧ load_record q raw = Ok (Some obj').
Proof.
  revert rs. induction l as [|r l IH]; intros rs Hc Hin; simpl in Hc.
  - injection Hc as <-. by apply elem_of_nil in Hin.
  - assert (∀ rs', collect now st q l = Ok rs' → obj' ∈ rs' →
      ∃ rid raw, rid ∈ r :: l
        ∧ rget now st (req_key (prefix q) rid) = Ok (Some raw)
        ∧ load_record q raw = Ok (Some obj')) as IH'.
    { intros rs' Hrs' Hin'. destruct (IH _ Hrs' Hin') as (rid & raw & ? & ? & ?).
      exists rid, raw. split_and!; [by right|done..]. }
    apply bind_Ok in Hc as ([raw|] & Hget & Hc); [|by eapply IH'].
    destruct (String.eqb raw ""); [by eapply IH'|].
    apply bind_Ok in Hc as (o & Hload & Hc).
    apply bind_Ok in Hc as (rs' & Hrs' & Hc). injection Hc as <-.
    destruct o as [obj|]; [|by eapply IH'].
    apply elem_of_cons in Hin as [->|Hin]; [|by eapply IH'].
    exists r, raw. split_and!; [left|done..].
Qed.

(** X8: every record a search returns passes the substring filters of the
    request: its url contains [url_contains] as it is written, its user
    agent contains [ua_contains] whatever the case of the letters, and it
    carries the readable form of its date under [_date_human]. *)
Theorem results_pass_substring_filters q resp obj :
  search_reports now st q = Ok resp →
  obj ∈ results resp →
  (∀ n, url_contains q = Some n → n ≠ "" →
     ∃ a b, py_str (default (JStr "") (dict_get obj "url")) = a +:+ n +:+ b)
  ∧ (∀ n, ua_contains q = Some n → n ≠ "" →
     ∃ a b, str_lower (py_str (default (JStr "") (dict_get obj "user_agent")))
            = a +:+ str_lower n +:+ b)
  ∧ ∃ h, dict_get obj "_date_human" = Some (JStr h)
         ∧ date_human (date_of obj) = Some h.
Proof.
  intros Hs Hin. unfold search_reports in Hs.
  apply bind_Ok in Hs as (ids & _ & Hs).
  apply bind_Ok in Hs as (c & _ & Hs).
  apply bind_Ok in Hs as (rs & Hrs & Hs). injection Hs as <-. simpl in Hin.
  destruct (collect_sound _ _ _ _ Hrs Hin) as (rid & raw & _ & _ & Hload).
  apply load_record_sound in Hload
    as (obj0 & ts & h & _ & -> & Hts & Hh & Hurl & Hua).
  split_and!.
  - intros n Hn Hne. rewrite Hn in Hurl.
    rewrite dict_get_set_ne by done. by apply contains_spec, rejects_false.
  - intros n Hn Hne. rewrite Hn in Hua. simpl in Hua.
    rewrite dict_get_set_ne by done.
    by apply contains_spec, rejects_false, str_lower_nonempty.
  - exists h. split; [apply dict_get_set_eq|].
    unfold date_of. rewrite dict_get_set_ne by done. by rewrite Hts.
Qed.
End SearchSound.

Section SearchEmpty.
Context `{Externals}.

Lemma apply_filters_empty now pfx fs : ∀ c,
  apply_filters now ∅ pfx c fs = Ok (if fs is [] then c else ∅).
Proof.
  induction fs as [|kv fs IH]; intros c; [done|].
  simpl. unfold intersect, smembers, rlookup. rewrite lookup_empty. simpl.
  rewrite IH. f_equal. destruct fs; [|done]. apply (right_absorb_L _ _).
Qed.

(** X9: on an empty store a search whose [start] and [end] resolve
    returns the empty response, whatever its filters, order and limit. *)
Theorem search_empty_store now q lo hi :
  to_epoch (start q) = Ok lo → to_epoch (end_ q) = Ok hi →
  search_reports now ∅ q = Ok (Response 0 []).
Proof.
  intros Hlo Hhi. unfold search_reports, search_ids.
  rewrite Hlo, Hhi. simpl.
  unfold zrangebyscore, rlookup. rewrite lookup_empty. simpl.
  assert ((if String.eqb (order q) "newest" then reverse [] else [])
          = @nil string) as -> by by destruct (String.eqb _ _).
  unfold search_candidates. rewrite apply_filters_empty. simpl.
  unfold search_ordered. rewrite filter_nil.
  assert (py_slice_to (limit q) (@nil string) = []) as ->.
  { unfold py_slice_to. destruct (0 <=? limit q); apply take_nil. }
  done.
Qed.

Lemma collect_nil now st q : collect now st q [] = Ok [].
Proof. done. Qed.

(** X10: a search whose window ends before it starts, or whose [limit] is
    0, returns the empty response when it returns. *)
Theorem search_degenerate now st q resp lo hi :
  search_reports now st q = Ok resp →
  to_epoch (start q) = Ok lo → to_epoch (end_ q) = Ok hi →
  (hi < lo)%Q ∨ limit q = 0 →
  resp = Response 0 [].
Proof.
  intros Hs Hlo Hhi Hcase. unfold search_reports in Hs.
  apply bind_Ok in Hs as (ids & Hids & Hs).
  apply bind_Ok in Hs as (c & _ & Hs).
  apply bind_Ok in Hs as (rs & Hrs & Hs). injection Hs as <-.
  assert (search_ordered q ids c = []) as Hord; last first.
  { rewrite Hord in Hrs. by injection Hrs as <-. }
  destruct Hcase as [Hlt|Hlim].
  - destruct (search_ids_inv _ _ _ _ Hids)
      as (lo' & hi' & ids0 & Hlo' & Hhi' & Hrange & ->).
    rewrite Hlo in Hlo'. injection Hlo' as <-.
    rewrite Hhi in Hhi'. injection Hhi' as <-.
    apply zrangebyscore_inv in Hrange as [_ Hall].
    assert (ids0 = []) as ->.
    { destruct ids0 as [|r ids0]; [done|].
      apply Forall_cons in Hall as [[[H1 H2] _] _].
      exfalso. apply (Qlt_not_le _ _ Hlt). by eapply Qle_trans. }
    assert ((if String.eqb (order q) "newest" then reverse [] else [])
            = @nil string) as -> by by destruct (String.eqb _ _).
    unfold search_ordered. rewrite filter_nil.
    unfold py_slice_to. destruct (0 <=? limit q); apply take_nil.
  - unfold search_ordered, py_slice_to. by rewrite Hlim.
Qed.

(** X11: an exact filter on a value that has no visible set in the index
    empties the search: the response is the empty one. *)
Theorem search_unknown_value now st q resp kv :
  search_reports now st q = Ok resp →
  kv ∈ exact_filters q →
  rlookup now st (set_key (prefix q) kv.1 kv.2) = None →
  resp = Response 0 [].
Proof.
  intros Hs Hkv Hnone. unfold search_reports in Hs.
  apply bind_Ok in Hs as (ids & Hids & Hs).
  apply bind_Ok in Hs as (c & Hc & Hs).
  apply bind_Ok in Hs as (rs & Hrs & Hs). injection Hs as <-.
  assert (c = ∅) as ->.
  { apply set_eq. intros r. split; [|by intros ?%elem_of_empty].
    intros Hr. unfold search_candidates in Hc.
    apply (apply_filters_elem _ _ _ _ _ _ Hc) in Hr as [_ Hall].
    destruct (Hall _ Hkv) as (m & Hm & Hin).
    unfold smembers in Hm. rewrite Hnone in Hm. injection Hm as <-.
    done. }
  assert (search_ordered q ids ∅ = []) as Hord.
  { unfold search_ordered.
    match goal with |- py_slice_to _ ?f = _ => assert (f = []) as -> end.
    { clear. induction ids as [|r ids IH]; [done|].
      rewrite filter_cons_False; [exact IH|]. by intros ?%elem_of_empty. }
    unfold py_slice_to. destruct (0 <=? limit q); apply take_nil. }
  rewrite Hord in Hrs. by injection Hrs as <-.
Qed.
End SearchEmpty.

(** ** Seconds and milliseconds *)

(** ** Digit strings *)

Lemma digit_not_space c : is_digit c = true → is_space c = false.
Proof.
  unfold is_digit, is_space. cbv zeta.
  generalize (Ascii.N_of_ascii c). intros n Hd.
  apply andb_true_iff in Hd as [H1%N.leb_le H2%N.leb_le].
  apply orb_false_iff. split; apply andb_false_iff.
  - right. apply N.leb_gt. lia.
  - right. apply N.leb_gt. lia.
Qed.

Lemma lstrip_digits s : all_digits s = true → lstrip s = s.
Proof.
  destruct s as [|c s]; [done|]. simpl.
  intros [Hc _]%andb_true_iff. by rewrite (digit_not_space _ Hc).
Qed.

Lemma rev_app_rev_app s : ∀ a b,
  String.rev_app (String.rev_app s a) b = String.rev_app a (s +:+ b).
Proof.
  induction s as [|c s IH]; intros a b; [done|].
  change (String.rev_app (String.rev_app s (String c a)) b
          = String.rev_app a (String c (s +:+ b))).
  by rewrite IH.
Qed.

Lemma rev_rev s : String.rev (String.rev s) = s.
Proof.
  unfold String.rev. rewrite rev_app_rev_app. simpl. apply string_app_nil_r.
Qed.

Lemma all_digits_rev_app s : ∀ a,
  all_digits s = true → all_digits a = true →
  all_digits (String.rev_app s a) = true.
Proof.
  induction s as [|c s IH]; intros a Hs Ha; simpl in *; [done|].
  apply andb_true_iff in Hs as [Hc Hs]. apply IH; [done|].
  simpl. by rewrite Hc.
Qed.

Lemma py_strip_digits s : all_digits s = true → py_strip s = s.
Proof.
  intros Hs. unfold py_strip. rewrite (lstrip_digits _ Hs).
  rewrite lstrip_digits; [apply rev_rev|].
  by apply all_digits_rev_app.
Qed.

Lemma decimal_go_thousand s : ∀ num,
  all_digits s = true →
  ∃ k, decimal_go s num 1 false = Qmake k 1
       ∧ decimal_go (s +:+ "000") num 1 false = Qmake (k * 1000) 1.
Proof.
  induction s as [|c s IH]; intros num Hs.
  - exists num. split; [done|].
    change ("" +:+ "000") with "000". cbn. f_equal. lia.
  - simpl in Hs. apply andb_true_iff in Hs as [Hc Hs].
    change (String c s +:+ "000") with (String c (s +:+ "000")).
    cbn [decimal_go]. rewrite (digit_not_dot _ Hc).
    apply IH, Hs.
Qed.

Section Millis.
Context `{Externals}.

Lemma to_epoch_digits s :
  all_digits s = true → s ≠ "" →
  to_epoch s =
    Ok (if negb (Qle_bool (float_round (decimal_value s)) 10000000000)
        then float_round (float_round (decimal_value s) / 1000)
        else float_round (decimal_value s))%Q.
Proof.
  intros Hs Hne. unfold to_epoch. rewrite (py_strip_digits _ Hs).
  rewrite (drop_first_dot_digits _ Hs).
  assert (isdigit s = true) as ->; [|done].
  destruct s; [done|exact Hs].
Qed.

(** X12: for a string of digits whose value lies above 10^7 and at most
    at 10^10, the same instant written in milliseconds (three zeros
    appended) resolves to the same epoch as the one written in seconds. *)
Theorem to_epoch_millis s :
  all_digits s = true → s ≠ "" →
  (10000000 < decimal_value s)%Q → (decimal_value s <= 10000000000)%Q →
  ∃ v w, to_epoch s = Ok v ∧ to_epoch (s +:+ "000") = Ok w ∧ (v == w)%Q.
Proof.
  intros Hs Hne Hlo Hhi.
  rewrite (to_epoch_digits s Hs Hne).
  rewrite (to_epoch_digits (s +:+ "000")); [|by apply all_digits_app|by destruct s].
  destruct (decimal_go_thousand s 0 Hs) as (k & Hk & Hk').
  unfold decimal_value in *. rewrite Hk, Hk' in *.
  change (k # 1) with (inject_Z k) in *.
  change (k * 1000 # 1) with (inject_Z (k * 1000)).
  assert (10000000 < k ≤ 10000000000) as Hrange.
  { unfold Qlt, Qle in Hlo, Hhi. simpl in Hlo, Hhi. lia. }
  assert (float_round (inject_Z k) == inject_Z k)%Q as Hk1
    by (apply float_round_int; lia).
  assert (float_round (inject_Z (k * 1000)) == inject_Z (k * 1000))%Q as Hk2
    by (apply float_round_int; lia).
  assert (Qle_bool (float_round (inject_Z k)) 10000000000 = true) as ->.
  { apply Qle_bool_iff. by rewrite Hk1. }
  assert (Qle_bool (float_round (inject_Z (k * 1000))) 10000000000 = false)
    as ->.
  { destruct (Qle_bool _ _) eqn:Hle; [|done].
    apply Qle_bool_iff in Hle. rewrite Hk2 in Hle.
    unfold Qle in Hle. simpl in Hle. lia. }
  simpl negb. cbv iota.
  eexists _, _. split_and!; [done..|].
  rewrite (float_round_proper
             (float_round (inject_Z (k * 1000)) / 1000) (inject_Z k));
    [reflexivity|].
  rewrite Hk2. unfold Qeq, Qdiv, Qmult, Qinv. simpl. lia.
Qed.
End Millis.

(** ** The aggregates *)

Lemma Qeq_bool_sym' x y : Qeq_bool x y = Qeq_bool y x.
Proof.
  destruct (Qeq_bool x y) eqn:H1, (Qeq_bool y x) eqn:H2; try done.
  - apply Qeq_bool_iff in H1. symmetry in H1. apply Qeq_bool_iff in H1.
    congruence.
  - apply Qeq_bool_iff in H2. symmetry in H2. apply Qeq_bool_iff in H2.
    congruence.
Qed.

Lemma py_eq_refl k : py_hashable k = true → py_eq k k = true.
Proof.
  destruct k as [|b|z|q|s|l|o]; intros Hh; try done; unfold py_eq; simpl.
  - apply Qeq_bool_iff. reflexivity.
  - apply Qeq_bool_iff. reflexivity.
  - apply Qeq_bool_iff. reflexivity.
  - apply String.eqb_refl.
Qed.

Lemma py_eq_sym a b : py_eq a b = py_eq b a.
Proof.
  unfold py_eq.
  destruct (key_num a) as [x|] eqn:Ha, (key_num b) as [y|] eqn:Hb; try done.
  - apply Qeq_bool_sym'.
  - destruct a, b; try done. apply String.eqb_sym.
Qed.

Lemma py_eq_trans a b c :
  py_eq a b = true → py_eq b c = true → py_eq a c = true.
Proof.
  intros H1 H2.
  destruct a, b, c; cbv [py_eq key_num] in *; try done;
    first [ apply Qeq_bool_iff; apply Qeq_bool_iff in H1, H2; by rewrite H1
          | apply String.eqb_eq in H1, H2; apply String.eqb_eq; congruence ].
Qed.

Lemma count_of_snoc k l v :
  count_of k (l ++ [v]) = (count_of k l + if py_eq k v then 1 else 0)%nat.
Proof.
  unfold count_of. rewrite List.filter_app, length_app. simpl.
  by destruct (py_eq k v).
Qed.

Lemma count_of_pos k l :
  k ∈ l → py_hashable k = true → (1 ≤ count_of k l)%nat.
Proof.
  intros Hin Hh. unfold count_of.
  assert (k ∈ List.filter (py_eq k) l) as Hk.
  { apply list_elem_of_In, List.filter_In. split; [by apply list_elem_of_In|].
    by apply py_eq_refl. }
  destruct (List.filter (py_eq k) l); [by apply elem_of_nil in Hk|simpl; lia].
Qed.

(** What [counter_add] does to a table without equal keys. *)
Lemma counter_add_spec c v :
  distinct_keys c →
  (∃ c1 k n c2, c = c1 ++ (k, n) :: c2 ∧ py_eq k v = true
     ∧ counter_add c v = c1 ++ (k, S n) :: c2
     ∧ ∀ x, x ∈ c1 ++ c2 → py_eq x.1 v = false)
  ∨ ((∀ x, x ∈ c → py_eq x.1 v = false) ∧ counter_add c v = c ++ [(v, 1%nat)]).
Proof.
  induction c as [|[k n] c IH]; intros [Hnd Hd].
  - right. split; [by intros x ?%elem_of_nil|done].
  - simpl. destruct (py_eq k v) eqn:Hkv.
    + left. exists [], k, n, c. split_and!; [done..|].
      simpl. intros x Hx.
      destruct (py_eq x.1 v) eqn:Hxv; [|done].
      assert (x = (k, n)) as ->.
      { apply Hd; [by right|by left|].
        eapply py_eq_trans; [done|]. by rewrite py_eq_sym. }
      apply NoDup_cons in Hnd as [Hnot _]. done.
    + destruct IH as [(c1 & k' & n' & c2 & -> & Hk' & -> & Hrest)|[Hall ->]].
      { split; [by apply NoDup_cons in Hnd as [_ ?]|].
        intros x y Hx Hy. apply Hd; by right. }
      * left. exists ((k, n) :: c1), k', n', c2. split_and!; [done..|].
        intros x [->|Hx]%elem_of_cons; [done|by apply Hrest].
      * right. split; [|done].
        intros x [->|Hx]%elem_of_cons; [done|by apply Hall].
Qed.

Lemma counts_ok_add l c v :
  Forall (λ x, py_hashable x = true) (l ++ [v]) →
  counts_ok l c → counts_ok (l ++ [v]) (counter_add c v).
Proof.
  intros Hh (Hd & Hc & Hcov).
  apply Forall_app in Hh as [Hl Hv]. rewrite Forall_singleton in Hv.
  destruct (counter_add_spec c v Hd)
    as [(c1 & k & n & c2 & -> & Hkv & -> & Hrest)|[Hall ->]].
  - split_and!.
    + destruct Hd as [Hnd Hd].
      assert (∀ m, (k, m) ∈ c1 ++ c2 → False) as Hfresh.
      { intros m Hm. apply Hrest in Hm. simpl in Hm. congruence. }
      split.
      * apply NoDup_app in Hnd as (H1 & H2 & H3).
        apply NoDup_cons in H3 as [H3 H4].
        apply NoDup_app. split_and!; [done| |].
        -- intros x Hx [->|Hx']%elem_of_cons.
           ++ apply (Hfresh (S n)), elem_of_app. by left.
           ++ apply (H2 x Hx). by right.
        -- apply NoDup_cons. split; [|done].
           intros Hin. apply (Hfresh (S n)), elem_of_app. by right.
      * assert (∀ x, x ∈ c1 ++ (k, S n) :: c2 →
                  x = (k, S n) ∨ x ∈ c1 ++ c2) as Hsplit.
        { intros x [?|[->|?]%elem_of_cons]%elem_of_app;
            [right|by left|right]; apply elem_of_app; auto. }
        assert (∀ x, x ∈ c1 ++ c2 → x ∈ c1 ++ (k, n) :: c2) as Hback.
        { intros x [?|?]%elem_of_app; apply elem_of_app;
            [by left|right; by right]. }
        intros x y Hx Hy Hxy.
        destruct (Hsplit _ Hx) as [->|Hx'], (Hsplit _ Hy) as [->|Hy'].
        -- done.
        -- exfalso. apply Hrest in Hy' as Hyv.
           assert (py_eq y.1 v = true); [|congruence].
           eapply py_eq_trans; [|exact Hkv]. by rewrite py_eq_sym.
        -- exfalso. apply Hrest in Hx' as Hxv.
           assert (py_eq x.1 v = true); [|congruence].
           eapply py_eq_trans; [|exact Hkv]. done.
        -- apply Hd; [by apply Hback..|done].
    + intros k' n' Hin.
      assert ((k', n') = (k, S n) ∨ (k', n') ∈ c1 ++ c2) as [Heq|Hin'].
      { apply elem_of_app in Hin as [?|[->|?]%elem_of_cons];
          [right|by left|right]; apply elem_of_app; auto. }
      * injection Heq as -> ->.
        destruct (Hc k n) as [Hk ->].
        { apply elem_of_app. right. by left. }
        split; [apply elem_of_app; by left|].
        rewrite count_of_snoc, Hkv. lia.
      * destruct (Hc k' n') as [Hk' ->].
        { apply elem_of_app in Hin' as [?|?]; apply elem_of_app;
            [by left|right; by right]. }
        split; [apply elem_of_app; by left|].
        apply Hrest in Hin'. simpl in Hin'.
        rewrite count_of_snoc, Hin'. lia.
    + intros w [Hw|Hw%list_elem_of_singleton]%elem_of_app.
      * destruct (Hcov w Hw) as (k' & n' & Hin & Hkw).
        apply elem_of_app in Hin as [Hin|[Heq|Hin]%elem_of_cons].
        -- exists k', n'. split; [apply elem_of_app; by left|done].
        -- injection Heq as -> ->. exists k, (S n).
           split; [apply elem_of_app; right; by left|done].
        -- exists k', n'. split; [apply elem_of_app; right; by right|done].
      * subst w. exists k, (S n).
        split; [apply elem_of_app; right; by left|done].
  - destruct Hd as [Hnd Hd]. split_and!.
    + split.
      * apply NoDup_app. split_and!; [done| |apply NoDup_singleton].
        intros x Hx Hx'%list_elem_of_singleton. subst x.
        apply Hall in Hx. simpl in Hx. rewrite py_eq_refl in Hx; done.
      * intros x y [Hx|Hx%list_elem_of_singleton]%elem_of_app
                   [Hy|Hy%list_elem_of_singleton]%elem_of_app Hxy; subst.
        -- by apply Hd.
        -- apply Hall in Hx. simpl in Hxy. congruence.
        -- apply Hall in Hy. simpl in Hxy. rewrite py_eq_sym in Hxy. congruence.
        -- done.
    + intros k n [Hin|Heq%list_elem_of_singleton]%elem_of_app.
      * destruct (Hc k n Hin) as [Hk ->].
        split; [apply elem_of_app; by left|].
        apply Hall in Hin. simpl in Hin. rewrite count_of_snoc, Hin. lia.
      * injection Heq as -> ->.
        split; [apply elem_of_app; right; by left|].
        rewrite count_of_snoc, py_eq_refl by done.
        assert (count_of v l = 0%nat) as ->; [|done].
        unfold count_of.
        destruct (List.filter (py_eq v) l) as [|w ws] eqn:Hf; [done|].
        assert (w ∈ List.filter (py_eq v) l) as Hw by (rewrite Hf; by left).
        apply list_elem_of_In, List.filter_In in Hw as [Hw%list_elem_of_In Hvw].
        destruct (Hcov w Hw) as (k' & n' & Hin & Hkw).
        apply Hall in Hin. simpl in Hin.
        assert (py_eq k' v = true); [|congruence].
        eapply py_eq_trans; [done|]. by rewrite py_eq_sym.
    + intros w [Hw|Hw%list_elem_of_singleton]%elem_of_app.
      * destruct (Hcov w Hw) as (k' & n' & Hin & Hkw).
        exists k', n'. split; [apply elem_of_app; by left|done].
      * subst w. exists v, 1%nat.
        split; [apply elem_of_app; right; by left|by apply py_eq_refl].
Qed.

Lemma counts_ok_foldl l :
  Forall (λ x, py_hashable x = true) l →
  counts_ok l (foldl counter_add [] l).
Proof.
  induction l as [|v l IH] using rev_ind; intros Hh.
  - split_and!.
    + split; [constructor|by intros x y ?%elem_of_nil].
    + by intros k n ?%elem_of_nil.
    + by intros v ?%elem_of_nil.
  - rewrite foldl_app. simpl. apply counts_ok_add; [done|].
    apply IH. by apply Forall_app in Hh as [? _].
Qed.

Lemma Counter_Ok l c :
  Counter l = Ok c →
  Forall (λ x, py_hashable x = true) l ∧ counts_ok l c.
Proof.
  unfold Counter. destruct (forallb py_hashable l) eqn:Hall; [|done].
  intros [= <-].
  assert (Forall (λ x, py_hashable x = true) l) as Hh.
  { apply Forall_forall. intros x Hx.
    by apply (proj1 (forallb_forall _ _) Hall), list_elem_of_In. }
  split; [done|by apply counts_ok_foldl].
Qed.

(** *** Sorting by count *)

Lemma insert_by_count_perm x l : insert_by_count x l ≡ₚ x :: l.
Proof.
  induction l as [|y l IH]; simpl; [done|].
  destruct (y.2 <=? x.2)%nat; [done|].
  rewrite IH. apply Permutation_swap.
Qed.

Lemma sorted_by_count_perm c : foldr insert_by_count [] c ≡ₚ c.
Proof.
  induction c as [|x c IH]; simpl; [done|].
  by rewrite insert_by_count_perm, IH.
Qed.

Lemma insert_by_count_sorted x l :
  StronglySorted by_count l → StronglySorted by_count (insert_by_count x l).
Proof.
  induction l as [|y l IH]; intros Hs; simpl.
  - repeat constructor.
  - apply StronglySorted_cons in Hs as Hs'. destruct Hs' as [Hy Hl].
    destruct (Nat.leb_spec y.2 x.2) as [Hle|Hgt].
    + apply StronglySorted_cons. split; [|done].
      constructor; [done|].
      eapply Forall_impl; [exact Hy|]. unfold by_count. intros z Hz. simpl in *. lia.
    + apply StronglySorted_cons. split; [|by apply IH].
      rewrite insert_by_count_perm. constructor; [|done].
      unfold by_count. lia.
Qed.

Lemma sorted_by_count_sorted c :
  StronglySorted by_count (foldr insert_by_count [] c).
Proof.
  induction c as [|x c IH]; simpl; [constructor|].
  by apply insert_by_count_sorted.
Qed.

Lemma most_common_sublist n c :
  most_common n c `sublist_of` foldr insert_by_count [] c.
Proof. apply sublist_take. Qed.

Lemma most_common_elem n c x : x ∈ most_common n c → x ∈ c.
Proof.
  intros Hx. rewrite <- (sorted_by_count_perm c).
  eapply elem_of_sublist; [exact Hx|apply most_common_sublist].
Qed.

Lemma StronglySorted_app_le {A} (R : relation A) l1 l2 x y :
  StronglySorted R (l1 ++ l2) → x ∈ l1 → y ∈ l2 → R x y.
Proof.
  induction l1 as [|a l1 IH]; intros Hs Hx Hy; [by apply elem_of_nil in Hx|].
  simpl in Hs. apply StronglySorted_cons in Hs as [Ha Hs].
  apply elem_of_cons in Hx as [->|Hx]; [|by apply IH].
  apply (proj1 (Forall_forall _ _) Ha). apply elem_of_app. by right.
Qed.

(** A pair that [most_common] drops counts no more than any it keeps, and
    then [n] pairs are kept. *)
Lemma most_common_cut n c x :
  x ∈ c →
  x ∈ most_common n c
  ∨ (length (most_common n c) = n
     ∧ ∀ y, y ∈ most_common n c → (x.2 ≤ y.2)%nat).
Proof.
  intros Hx. unfold most_common in *.
  set (s := foldr insert_by_count [] c) in *.
  assert (x ∈ take n s ++ drop n s) as Hin.
  { rewrite take_drop. unfold s. by rewrite sorted_by_count_perm. }
  apply elem_of_app in Hin as [Htake|Hdrop]; [by left|right].
  split.
  - rewrite length_take. apply Nat.min_l.
    destruct (decide (n ≤ length s)%nat) as [?|Hlt]; [done|].
    rewrite drop_ge in Hdrop by lia. by apply elem_of_nil in Hdrop.
  - intros y Hy.
    apply (StronglySorted_app_le by_count (take n s) (drop n s) y x);
      [|done..].
    rewrite take_drop. apply sorted_by_count_sorted.
Qed.

Lemma distinct_keys_sub c t :
  NoDup t → (∀ x, x ∈ t → x ∈ c) → distinct_keys c → distinct_keys t.
Proof.
  intros Hnd Hsub [_ Hd]. split; [done|].
  intros x y Hx Hy. apply Hd; by apply Hsub.
Qed.

Lemma most_common_distinct n c :
  distinct_keys c → distinct_keys (most_common n c).
Proof.
  intros Hd. eapply distinct_keys_sub; [|apply most_common_elem|done].
  eapply sublist_NoDup; [|apply most_common_sublist].
  rewrite sorted_by_count_perm. apply Hd.
Qed.

Section Tops.
Context (field : string) (rs : list dict) (t : list (json * nat)).
Context (Htop : top field rs = Ok t).

(** The list is a ranking of at most ten keys. *)
Lemma top_is_ranking :
  (length t ≤ 10)%nat
  ∧ StronglySorted (λ x y, (y.2 ≤ x.2)%nat) t
  ∧ distinct_keys t
  ∧ ∀ k n, (k, n) ∈ t →
      k ∈ field_values field rs
      ∧ n = count_of k (field_values field rs) ∧ (1 ≤ n)%nat.
Proof using Htop.
  unfold top in Htop. apply bind_Ok in Htop as (c & Hc & Ht).
  injection Ht as <-. apply Counter_Ok in Hc as (Hh & Hd & Hcount & _).
  split_and!.
  - unfold most_common. rewrite length_take. lia.
  - eapply StronglySorted_sublist; [apply most_common_sublist|].
    apply sorted_by_count_sorted.
  - by apply most_common_distinct.
  - intros k n Hin. apply most_common_elem in Hin.
    destruct (Hcount _ _ Hin) as [Hk ->]. split_and!; [done..|].
    apply count_of_pos; [done|].
    by apply (proj1 (Forall_forall _ _) Hh).
Qed.

(** Nothing more frequent is left out. *)
Lemma top_covers v :
  v ∈ field_values field rs →
  (∃ k n, (k, n) ∈ t ∧ py_eq k v = true)
  ∨ (length t = 10%nat
     ∧ ∀ k n, (k, n) ∈ t → (count_of v (field_values field rs) ≤ n)%nat).
Proof using Htop.
  intros Hv. unfold top in Htop. apply bind_Ok in Htop as (c & Hc & Ht).
  injection Ht as <-. apply Counter_Ok in Hc as (Hh & Hd & Hcount & Hcov).
  destruct (Hcov v Hv) as (k & n & Hin & Hkv).
  destruct (most_common_cut 10 c (k, n) Hin) as [Hkept|[Hlen Hle]].
  - left. by exists k, n.
  - right. split; [done|]. intros k' n' Hin'. specialize (Hle _ Hin'). simpl in Hle.
    destruct (Hcount _ _ Hin) as [_ ->].
    assert (count_of v (field_values field rs)
            = count_of k (field_values field rs)) as ->; [|done].
    unfold count_of. f_equal. apply List.filter_ext. intros a.
    destruct (py_eq v a) eqn:Hva.
    + symmetry. by eapply py_eq_trans.
    + destruct (py_eq k a) eqn:Hka; [|done].
      assert (py_eq v a = true); [|congruence].
      eapply py_eq_trans; [|exact Hka]. by rewrite py_eq_sym.
Qed.
End Tops.

Lemma Counter_hashable l :
  Forall (λ x, py_hashable x = true) l → ∃ c, Counter l = Ok c.
Proof.
  intros Hh. unfold Counter.
  assert (forallb py_hashable l = true) as ->; [|by eexists].
  apply forallb_forall. intros x Hx%list_elem_of_In.
  by apply (proj1 (Forall_forall _ _) Hh).
Qed.

Lemma Counter_unhashable l v :
  v ∈ l → py_hashable v = false → Counter l = Raise TypeError.
Proof.
  intros Hin Hv. unfold Counter.
  destruct (forallb py_hashable l) eqn:Hall; [|done].
  assert (py_hashable v = true); [|congruence].
  by apply (proj1 (forallb_forall _ _) Hall), list_elem_of_In.
Qed.

Lemma field_values_elem f rs v :
  v ∈ field_values f rs ↔
  ∃ x, x ∈ rs ∧ dict_get x f = Some v ∧ py_truthy v = true.
Proof.
  unfold field_values. rewrite list_elem_of_omap. split.
  - intros (x & Hx & Hv). exists x. split; [done|].
    destruct (dict_get x f) as [w|]; [|done].
    destruct (py_truthy w) eqn:Hw; [|done]. by injection Hv as ->.
  - intros (x & Hx & Hget & Hv). exists x. split; [done|].
    by rewrite Hget, Hv.
Qed.

Lemma top_hashable f rs :
  (∀ x v, x ∈ rs → dict_get x f = Some v → py_hashable v = true) →
  ∃ t, top f rs = Ok t.
Proof.
  intros Hh. unfold top.
  destruct (Counter_hashable (field_values f rs)) as [c ->]; [|by eexists].
  apply Forall_forall. intros v (x & Hx & Hget & _)%field_values_elem.
  by eapply Hh.
Qed.

Lemma top_unhashable f rs x v :
  x ∈ rs → dict_get x f = Some v → py_truthy v = true →
  py_hashable v = false → top f rs = Raise TypeError.
Proof.
  intros Hx Hget Hv Hh. unfold top.
  rewrite (Counter_unhashable _ v); [done| |done].
  apply field_values_elem. by exists x.
Qed.

Lemma top_exn f rs e : top f rs = Raise e → e = TypeError.
Proof.
  unfold top, Counter. destruct (forallb _ _); [done|]. by intros [= <-].
Qed.

Section AnswerProps.
Context `{Externals}.
Context (now : Z) (st : redis).

Lemma answer_tops q a :
  search_reports_answer now st q = Ok a →
  search_reports now st q = Ok (body a)
  ∧ ∀ f t, (f, t) ∈ tops_of a → top f (results (body a)) = Ok t.
Proof.
  intros Ha. unfold search_reports_answer in Ha.
  apply bind_Ok in Ha as (resp & Hresp & Ha).
  apply bind_Ok in Ha as (ips & Hips & Ha).
  apply bind_Ok in Ha as (urls & Hurls & Ha).
  apply bind_Ok in Ha as (reasons & Hreasons & Ha). injection Ha as <-.
  split; [done|]. intros f t Hin. unfold tops_of in Hin. simpl in Hin.
  repeat (apply elem_of_cons in Hin as [[= -> ->]|Hin]; [done|]).
  by apply elem_of_nil in Hin.
Qed.

(** X13: each aggregate of an answer has at most ten pairs, in order of
    decreasing count, with keys that differ from one another; the count of
    a pair is the number of returned records whose field equals its key,
    and is at least 1. *)
Theorem answer_tops_ranked q a f t :
  search_reports_answer now st q = Ok a →
  (f, t) ∈ tops_of a →
  (length t ≤ 10)%nat
  ∧ StronglySorted (λ x y, (y.2 ≤ x.2)%nat) t
  ∧ distinct_keys t
  ∧ ∀ k n, (k, n) ∈ t →
      k ∈ field_values f (results (body a))
      ∧ n = count_of k (field_values f (results (body a)))
      ∧ (1 ≤ n)%nat.
Proof.
  intros [_ Htops]%answer_tops Hin. by apply top_is_ranking, Htops.
Qed.

(** X14: an aggregate leaves no frequent value out: a value of the field
    among the returned records is either the key of a pair, or the
    aggregate is full (ten pairs) and each of its pairs counts at least as
    many records as the value has. *)
Theorem answer_tops_cover q a f t v :
  search_reports_answer now st q = Ok a →
  (f, t) ∈ tops_of a →
  v ∈ field_values f (results (body a)) →
  (∃ k n, (k, n) ∈ t ∧ py_eq k v = true)
  ∨ (length t = 10%nat
     ∧ ∀ k n, (k, n) ∈ t →
         (count_of v (field_values f (results (body a))) ≤ n)%nat).
Proof.
  intros [_ Htops]%answer_tops Hin. by apply top_covers, Htops.
Qed.

(** X15: when the search itself succeeds, the aggregates fail with a
    [TypeError] as soon as one returned record holds a non-empty list or
    dict under [ip], [url] or [reason]; and the whole answer succeeds, on
    the same response, when no returned record does. *)
Theorem answer_unhashable q resp :
  search_reports now st q = Ok resp →
  ((∃ x f v, x ∈ results resp ∧ f ∈ top_fields ∧ dict_get x f = Some v
             ∧ py_truthy v = true ∧ py_hashable v = false) →
   search_reports_answer now st q = Raise TypeError)
  ∧ ((∀ x f v, x ∈ results resp → f ∈ top_fields → dict_get x f = Some v →
               py_hashable v = true) →
     ∃ a, search_reports_answer now st q = Ok a ∧ body a = resp).
Proof.
  intros Hresp. unfold search_reports_answer. rewrite Hresp.
  cbn [mbind result_bind]. split.
  - intros (x & f & v & Hx & Hf & Hget & Hv & Hh).
    assert (top f (results resp) = Raise TypeError) as Hraise
      by by eapply top_unhashable.
    destruct (top "ip" (results resp)) as [ips|e] eqn:Hips;
      [|by apply top_exn in Hips as ->].
    destruct (top "url" (results resp)) as [urls|e] eqn:Hurls;
      [|by apply top_exn in Hurls as ->].
    destruct (top "reason" (results resp)) as [reasons|e] eqn:Hreasons;
      [|by apply top_exn in Hreasons as ->].
    unfold top_fields in Hf.
    repeat (apply elem_of_cons in Hf as [->|Hf]; [congruence|]).
    by apply elem_of_nil in Hf.
  - intros Hall.
    destruct (top_hashable "ip" (results resp)) as [ips ->].
    { intros x v Hx. apply Hall; [done|]. unfold top_fields. repeat constructor. }
    destruct (top_hashable "url" (results resp)) as [urls ->].
    { intros x v Hx. apply Hall; [done|]. unfold top_fields. repeat constructor. }
    destruct (top_hashable "reason" (results resp)) as [reasons ->].
    { intros x v Hx. apply Hall; [done|]. unfold top_fields. repeat constructor. }
    by eexists.
Qed.
End AnswerProps.

(** ** The chat client's summary *)

Lemma samples_of_dicts ds : samples_of (JObj <$> ds) = Ok (sample <$> ds).
Proof.
  induction ds as [|d ds IH]; [done|].
  rewrite !fmap_cons. cbn [samples_of sample_of]. by rewrite IH.
Qed.

Lemma samples_of_shape l : ∀ ss,
  samples_of l = Ok ss →
  length ss = length l
  ∧ Forall (λ s, ∃ d : dict, s = JObj d ∧ d.*1 = sample_keys) ss.
Proof.
  induction l as [|r l IH]; intros ss Hs; simpl in Hs.
  - injection Hs as <-. by split.
  - apply bind_Ok in Hs as (s & Hr & Hs).
    apply bind_Ok in Hs as (ss' & Hss & Hs). injection Hs as <-.
    destruct (IH _ Hss) as [Hlen Hall]. split; [simpl; by rewrite Hlen|].
    constructor; [|done].
    destruct r; try done. injection Hr as <-. by eexists.
Qed.

Lemma py_slice10_top t :
  (length t ≤ 10)%nat → py_slice10 (encode_top t) = Ok (encode_top t).
Proof.
  intros Hlen. unfold encode_top, py_slice10.
  rewrite take_ge; [done|]. by rewrite length_fmap.
Qed.

Lemma api_search_reports_body cnt ips urls reasons rs :
  api_search_reports (JObj [("count", cnt); ("top_ips", ips); ("top_urls", urls);
                     ("top_reasons", reasons); ("results", rs)])
  = (ips' ← py_slice10 ips;
     urls' ← py_slice10 urls;
     reasons' ← py_slice10 reasons;
     first ← py_slice10 (if py_truthy rs then rs else JArr []);
     samples ← match first with
               | JArr l => samples_of l
               | _ => Raise AttributeError
               end;
     Ok (JObj [("count", cnt); ("top_ips", ips'); ("top_urls", urls');
               ("top_reasons", reasons'); ("samples", JArr samples)])).
Proof. reflexivity. Qed.

Section Summary.
Context `{Externals}.

(** X16: of an answer of the search API the chat client keeps the count
    and the three aggregates whole (its own cut at ten removes nothing),
    and samples the first ten records. *)
Theorem summary_of_answer now st q a :
  search_reports_answer now st q = Ok a →
  api_search_reports (encode_answer a)
  = Ok (JObj [("count", JInt (Z.of_nat (count (body a))));
              ("top_ips", encode_top (top_ips a));
              ("top_urls", encode_top (top_urls a));
              ("top_reasons", encode_top (top_reasons a));
              ("samples", JArr (sample <$> take 10 (results (body a))))]).
Proof.
  intros Ha. unfold search_reports_answer in Ha.
  apply bind_Ok in Ha as (resp & Hresp & Ha).
  apply bind_Ok in Ha as (ips & Hips & Ha).
  apply bind_Ok in Ha as (urls & Hurls & Ha).
  apply bind_Ok in Ha as (reasons & Hreasons & Ha). injection Ha as <-.
  destruct (top_is_ranking _ _ _ Hips) as [Hi _].
  destruct (top_is_ranking _ _ _ Hurls) as [Hu _].
  destruct (top_is_ranking _ _ _ Hreasons) as [Hr _].
  unfold encode_answer. cbn [body top_ips top_urls top_reasons].
  rewrite api_search_reports_body, !py_slice10_top by done.
  cbn [mbind result_bind].
  destruct (results resp) as [|d ds] eqn:Hres; [done|].
  rewrite <-Hres.
  assert (py_truthy (JArr (JObj <$> results resp)) = true) as ->
    by by rewrite Hres.
  cbn [py_slice10 mbind result_bind]. rewrite <-fmap_take, samples_of_dicts. done.
Qed.

(** X17: whatever the body of the reply, a summary that is returned has at
    most ten samples, and each sample is a dict with exactly the eight
    sample keys, in their order. *)
Theorem summary_samples data s :
  api_search_reports data = Ok s →
  ∃ d l, s = JObj d
    ∧ dict_get d "samples" = Some (JArr l)
    ∧ (length l ≤ 10)%nat
    ∧ ∀ x, x ∈ l → ∃ e : dict, x = JObj e ∧ e.*1 = sample_keys.
Proof.
  unfold api_search_reports. destruct data as [| | | | | |d]; try done.
  intros Hs.
  apply bind_Ok in Hs as (ips & _ & Hs).
  apply bind_Ok in Hs as (urls & _ & Hs).
  apply bind_Ok in Hs as (reasons & _ & Hs).
  apply bind_Ok in Hs as (first & Hfirst & Hs).
  apply bind_Ok in Hs as (samples & Hsamples & Hs). injection Hs as <-.
  eexists _, samples. split_and!; [done..| |].
  - destruct first as [| | | | |l|]; try done.
    apply samples_of_shape in Hsamples as [-> _].
    destruct (if py_truthy _ then _ else _) as [| | | | |l'|]; try done.
    injection Hfirst as <-. rewrite length_take. lia.
  - destruct first as [| | | | |l|]; try done.
    apply samples_of_shape in Hsamples as [_ Hall].
    by apply Forall_forall.
Qed.
End Summary.

(** ** What a run sends to the store *)

Section Issued.
Context `{Externals}.
Context (pfx : string) (ttl : option Z) (now : Z).

Lemma entry_of_ok raw t : entry_of raw = Some t → parsed_ok t.
Proof.
  unfold entry_of, parsed_ok.
  destruct (json_loads raw) as [[| | | | | |obj]|] eqn:Hl; try done.
  destruct (dict_get obj "id") as [[| | | |r| |]|] eqn:Hid; try done.
  destruct (String.eqb_spec r ""); [done|]. by intros [= <-].
Qed.

Lemma attr_cmds_issued r obj :
  Forall (issued pfx ttl) (attr_cmds pfx ttl r obj).
Proof.
  unfold attr_cmds.
  assert (∀ kf, kf ∈ index_fields → kf ∈ index_fields) as Hsub by done.
  revert Hsub. generalize index_fields at 1 3. intros l.
  induction l as [|kf l IH]; intros Hsub; [by constructor|].
  simpl. apply Forall_app. split.
  - assert (kf ∈ index_fields) by (apply Hsub; left).
    destruct (dict_get obj kf.2) as [v|]; [|by constructor].
    destruct (none_or_empty v); [by constructor|].
    constructor; [by constructor|].
    destruct ttl as [t|] eqn:Httl; simpl; [|constructor].
    constructor; [|constructor]. rewrite <-Httl. by econstructor.
  - apply IH. intros ? ?. apply Hsub. by right.
Qed.

Lemma commit_cmds_issued r obj raw ts :
  parsed_ok (r, obj, raw) →
  Forall (issued pfx ttl) (commit_cmds pfx ttl r obj raw ts).
Proof.
  intros Hok. unfold commit_cmds.
  constructor; [by econstructor|].
  apply Forall_app. split.
  - destruct ttl as [t|] eqn:Httl; simpl; [|constructor].
    constructor; [|constructor]. rewrite <-Httl. by econstructor.
  - constructor; [by constructor|by apply attr_cmds_issued].
Qed.

Lemma seen_cmds_issued parsed :
  Forall (issued pfx ttl) (seen_cmds pfx ttl parsed).
Proof. apply Forall_fmap, Forall_true. intros t. constructor. Qed.

Lemma commit_plan_issued todo :
  Forall parsed_ok todo.*1 →
  Forall (issued pfx ttl) (commit_plan pfx ttl todo).
Proof.
  unfold commit_plan.
  induction todo as [|[[[r obj] raw] rep] todo IH]; intros Hall; [constructor|].
  rewrite fmap_cons in Hall. apply Forall_cons in Hall as [Hok Hall].
  simpl. apply Forall_app. split; [|by apply IH].
  destruct (reply_truthy rep); [|constructor].
  destruct (py_float _); [|constructor].
  by apply commit_cmds_issued.
Qed.

Lemma process_chunk_issued st cnt items st' cnt' :
  process_chunk pfx ttl now st cnt items = Ok (st', cnt') →
  ∃ cmds, Forall (issued pfx ttl) cmds ∧ st' = run_cmds now st cmds.
Proof.
  intros Hp. apply process_chunk_inv in Hp as (-> & _ & _).
  eexists (_ ++ _). split; [|by rewrite run_cmds_app].
  apply Forall_app. split; [apply seen_cmds_issued|].
  apply commit_plan_issued, Forall_zip_fst, Forall_forall.
  intros t (raw & _ & Ht)%list_elem_of_omap. by eapply entry_of_ok.
Qed.

Lemma loop_chunks_issued chunks : ∀ st cnt st' cnt',
  loop_chunks pfx ttl now chunks st cnt = Ok (st', cnt') →
  ∃ cmds, Forall (issued pfx ttl) cmds ∧ st' = run_cmds now st cmds.
Proof.
  induction chunks as [|items chunks IH]; intros st cnt st' cnt' Hl;
    simpl in Hl.
  - injection Hl as <- <-. by exists [].
  - destruct items as [|i items]; [injection Hl as <- <-; by exists []|].
    apply bind_Ok in Hl as ([st1 cnt1] & Hp & Hl).
    apply process_chunk_issued in Hp as (c1 & Hc1 & ->).
    apply IH in Hl as (c2 & Hc2 & ->).
    exists (c1 ++ c2). split; [by apply Forall_app|by rewrite run_cmds_app].
Qed.

(** An invariant that every issued command keeps holds after a run. *)
Lemma issued_invariant (I : redis → Prop) cmds : ∀ st,
  (∀ st c, issued pfx ttl c → I st → I (exec_cmd now st c).1) →
  Forall (issued pfx ttl) cmds → I st → I (run_cmds now st cmds).
Proof.
  induction cmds as [|c cmds IH]; intros st Hstep Hall Hst; [done|].
  apply Forall_cons in Hall as [Hc Hall]. rewrite run_cmds_cons.
  apply IH; [done..|]. by apply Hstep.
Qed.

Lemma issued_key c : issued pfx ttl c → ∃ s, cmd_key c = pfx +:+ s.
Proof. destruct 1; simpl; by eexists. Qed.

Lemma issued_sets_ok st c :
  issued pfx ttl c → sets_ok pfx st → sets_ok pfx (exec_cmd now st c).1.
Proof.
  intros Hc Hok kf v e Hkf.
  destruct (decide (cmd_key c = set_key pfx kf.1 v)) as [Heq|Hne];
    [|rewrite exec_cmd_lookup_ne by done; by apply Hok].
  destruct Hc as [r|r obj raw _|r t _|r s|r kf' v' _|kf' v' t _ _];
    simpl in Heq.
  - exfalso. by eapply set_key_ne_seen.
  - exfalso. by eapply set_key_ne_req.
  - exfalso. by eapply set_key_ne_req.
  - exfalso. by eapply set_key_ne_z_ts.
  - rewrite Heq. simpl.
    destruct (rlookup now st (set_key pfx kf.1 v)) as [[[ | m| ] x]|] eqn:Hl;
      simpl; rewrite ?lookup_insert_eq; try (intros [= <-]; by eexists);
      by apply Hok.
  - rewrite Heq. simpl.
    destruct (rlookup now st (set_key pfx kf.1 v)) as [e0|] eqn:Hl;
      simpl; [|by apply Hok].
    rewrite lookup_insert_eq. intros [= <-]. simpl.
    apply rlookup_Some in Hl. by eapply Hok.
Qed.

End Issued.

Section Runs.
Context `{Externals}.

Lemma main_issued source pfx ttl_days chunk now st st1 cnt1 :
  main source pfx ttl_days chunk now st = Ok (st1, cnt1) →
  ∃ cmds, Forall (issued pfx (ttl_of ttl_days)) cmds
          ∧ st1 = run_cmds now st cmds.
Proof.
  unfold main. intros Hm.
  destruct (chunk =? 0); [done|].
  destruct (chunk <? 0); [injection Hm as <- <-; by exists []|].
  rewrite main_loop_chunks in Hm. by eapply loop_chunks_issued.
Qed.

Lemma built_sets_ok pfx st : built pfx st → sets_ok pfx st.
Proof.
  induction 1 as [|st source ttl_days chunk now st' cnt _ IH Hm].
  - intros kf v e _. by rewrite lookup_empty.
  - apply main_issued in Hm as (cmds & Hall & ->).
    eapply issued_invariant; [|done..]. intros. by eapply issued_sets_ok.
Qed.


(** X18: a run writes under its prefix only: a key that does not start
    with the prefix is after the run what it was before. *)
Theorem indexer_prefix_only source pfx ttl_days chunk now st st1 cnt1 k :
  main source pfx ttl_days chunk now st = Ok (st1, cnt1) →
  (∀ s, k ≠ pfx +:+ s) →
  st1 !! k = st !! k.
Proof.
  intros (cmds & Hall & ->)%main_issued Hk.
  apply run_cmds_lookup_ne. eapply Forall_impl; [done|].
  intros c [s Hs]%issued_key. rewrite Hs. intros Heq. by eapply Hk.
Qed.

Lemma issued_no_deadline pfx now st c k e' d :
  issued pfx None c →
  (exec_cmd now st c).1 !! k = Some e' → e_exp e' = Some d →
  ∃ e, st !! k = Some e ∧ e_exp e = Some d.
Proof.
  intros Hc He' Hd.
  destruct (decide (cmd_key c = k)) as [<-|Hne];
    [|rewrite exec_cmd_lookup_ne in He' by done; by exists e'].
  destruct Hc as [r|r obj raw _|r t Ht|r s|r kf v _|kf v t _ Ht];
    try done; simpl in He'.
  - destruct (bool_decide _); simpl in He'; [by exists e'|].
    rewrite lookup_insert_eq in He'. injection He' as <-. done.
  - rewrite lookup_insert_eq in He'. injection He' as <-. done.
  - destruct (rlookup now st (z_ts_key pfx)) as [[[ | |z] x]|] eqn:Hl;
      simpl in He'; try (by exists e').
    + rewrite lookup_insert_eq in He'. injection He' as <-.
      apply rlookup_Some in Hl. by eexists.
    + rewrite lookup_insert_eq in He'. injection He' as <-. done.
  - destruct (rlookup now st (set_key pfx kf.1 v)) as [[[ |m| ] x]|] eqn:Hl;
      simpl in He'; try (by exists e').
    + rewrite lookup_insert_eq in He'. injection He' as <-.
      apply rlookup_Some in Hl. by eexists.
    + rewrite lookup_insert_eq in He'. injection He' as <-. done.
Qed.

(** X19: with retention disabled ([ttl_days] zero or negative) a run gives
    no key an expiration: a key that has a deadline after the run had that
    deadline before it. *)
Theorem no_deadline_when_disabled source pfx ttl_days chunk now st st1 cnt1
    k e1 d :
  main source pfx ttl_days chunk now st = Ok (st1, cnt1) →
  ttl_days ≤ 0 →
  st1 !! k = Some e1 → e_exp e1 = Some d →
  ∃ e, st !! k = Some e ∧ e_exp e = Some d.
Proof.
  intros (cmds & Hall & ->)%main_issued Hdays.
  assert (ttl_of ttl_days = None) as Hoff.
  { unfold ttl_of. destruct (Z.ltb_spec 0 ttl_days); [lia|].
    by rewrite andb_false_r. }
  rewrite Hoff in Hall. clear Hoff Hdays.
  revert e1. induction cmds as [|c cmds IH] using rev_ind; intros e1 H1 Hd;
    [by exists e1|].
  apply Forall_app in Hall as [Hall Hc]. rewrite Forall_singleton in Hc.
  rewrite run_cmds_app, run_cmds_cons in H1.
  change (run_cmds now ?s []) with s in H1.
  destruct (issued_no_deadline _ _ _ _ _ _ _ Hc H1 Hd) as (e & He & Hde).
  by eapply IH.
Qed.
End Runs.

Section Total.
Context `{Externals}.
Context (now : Z) (st : redis).

Lemma exact_filters_kinds q :
  Forall (λ kv : string * string, ∃ kf, kf ∈ index_fields ∧ kf.1 = kv.1)
         (exact_filters q).
Proof.
  assert (∀ kind kf o, kf ∈ index_fields → kf.1 = kind →
    Forall (λ kv : string * string, ∃ kf, kf ∈ index_fields ∧ kf.1 = kv.1)
           (filter_if kind o)) as Hf.
  { intros kind kf o Hkf Hk. unfold filter_if.
    destruct o as [v|]; [|constructor].
    destruct (String.eqb v ""); constructor; [|constructor]. by exists kf. }
  unfold exact_filters. repeat apply Forall_app_2.
  - apply (Hf _ ("ip", "ip")); [|done]. unfold index_fields. set_solver.
  - apply (Hf _ ("server", "server_name")); [|done]. unfold index_fields. set_solver.
  - apply (Hf _ ("mode", "security_mode")); [|done]. unfold index_fields. set_solver.
  - destruct (status q); constructor; [|constructor].
    exists ("status", "status"). split; [|done]. unfold index_fields. set_solver.
  - apply (Hf _ ("reason", "reason")); [|done]. unfold index_fields. set_solver.
  - apply (Hf _ ("country", "country")); [|done]. unfold index_fields. set_solver.
  - apply (Hf _ ("method", "method")); [|done]. unfold index_fields. set_solver.
Qed.

Lemma apply_filters_total pfx fs : ∀ c,
  sets_ok pfx st →
  Forall (λ kv : string * string, ∃ kf, kf ∈ index_fields ∧ kf.1 = kv.1) fs →
  ∃ c', apply_filters now st pfx c fs = Ok c'.
Proof.
  induction fs as [|kv fs IH]; intros c Hok Hall; [by eexists|].
  apply Forall_cons in Hall as [(kf & Hkf & Hk) Hall]. simpl.
  unfold intersect, smembers.
  destruct (rlookup now st (set_key pfx kv.1 kv.2)) as [e|] eqn:Hl.
  - apply rlookup_Some in Hl. rewrite <-Hk in Hl.
    destruct (Hok _ _ _ Hkf Hl) as [m Hm]. destruct e as [val x].
    simpl in Hm. subst val. simpl. by apply IH.
  - simpl. by apply IH.
Qed.

Lemma zrangebyscore_total pfx lo hi :
  index_ok pfx st → ∃ ids, zrangebyscore now st (z_ts_key pfx) lo hi = Ok ids.
Proof.
  intros [Hz _]. unfold zrangebyscore.
  destruct (rlookup now st (z_ts_key pfx)) as [e|] eqn:Hl; [|by eexists].
  apply rlookup_Some in Hl. destruct (Hz _ Hl) as [z ->]. by eexists.
Qed.

Lemma load_record_total q raw obj ts :
  json_loads raw = Some (JObj obj) →
  py_float (dict_get obj "date") = Some ts →
  is_Some (date_human ts) →
  ∃ o, load_record q raw = Ok o.
Proof.
  intros Hraw Hts [h Hh]. unfold load_record. rewrite Hraw.
  destruct (rejects (url_contains q) _); [by eexists|].
  destruct (rejects _ _); [by eexists|].
  destruct (dict_get obj "date") as [v|]; [|done].
  change (default (JInt 0) (Some v)) with v.
  rewrite Hts, Hh. by eexists.
Qed.

Lemma collect_total q lo hi l :
  index_ok (prefix q) st →
  (∀ ts, (lo <= ts <= hi)%Q → is_Some (date_human ts)) →
  Forall (λ rid, (lo <= score_at st (z_ts_key (prefix q)) rid <= hi)%Q) l →
  ∃ rs, collect now st q l = Ok rs.
Proof.
  intros [_ Hr] Hdate. induction 1 as [|rid l Hrid _ [rs IH]]; [by eexists|].
  simpl. unfold rget.
  destruct (rlookup now st (req_key (prefix q) rid)) as [e|] eqn:Hl;
    [|simpl; by eexists].
  apply rlookup_Some in Hl.
  destruct (Hr _ _ Hl) as (raw & obj & ts & Hval & Hraw & Hts & Hz).
  destruct e as [val x]. simpl in Hval. subst val. simpl.
  destruct (String.eqb raw ""); [by eexists|].
  destruct (load_record_total q raw obj ts Hraw Hts) as [o ->].
  { apply Hdate. unfold score_at in Hrid. by rewrite Hz in Hrid. }
  simpl. rewrite IH. simpl. by eexists.
Qed.

(** X20: on a store that runs of the indexer built under the prefix of the
    request, the search, up to its aggregates, returns a response as soon
    as [start] and [end] resolve and every date of the window has a
    readable form: no key of the index has a type the search does not
    expect, and every stored record parses and has a date. *)
Theorem search_total pfx q lo hi :
  built pfx st → prefix q = pfx →
  to_epoch (start q) = Ok lo → to_epoch (end_ q) = Ok hi →
  (∀ ts, (lo <= ts <= hi)%Q → is_Some (date_human ts)) →
  ∃ resp, search_reports now st q = Ok resp.
Proof.
  intros Hb <- Hlo Hhi Hdate.
  pose proof (built_index_ok _ _ Hb) as Hok.
  pose proof (built_sets_ok _ _ Hb) as Hsets.
  unfold search_reports.
  destruct (zrangebyscore_total (prefix q) lo hi Hok) as [ids0 Hz].
  assert (search_ids now st q
          = Ok (if String.eqb (order q) "newest" then reverse ids0 else ids0))
    as Hids.
  { unfold search_ids. rewrite Hlo, Hhi. simpl. by rewrite Hz. }
  rewrite Hids. simpl.
  set (ids := if String.eqb (order q) "newest" then reverse ids0 else ids0).
  destruct (apply_filters_total (prefix q) (exact_filters q)
              (list_to_set ids) Hsets (exact_filters_kinds q)) as [c Hc].
  unfold search_candidates. rewrite Hc. simpl.
  destruct (collect_total q lo hi (search_ordered q ids c) Hok Hdate)
    as [rs ->]; [|by eexists].
  apply zrangebyscore_inv in Hz as [_ Hall].
  apply Forall_forall. intros rid Hrid.
  eapply elem_of_sublist in Hrid; [|apply search_ordered_sublist].
  assert (rid ∈ ids0) as Hin.
  { unfold ids in Hrid.
    destruct (String.eqb (order q) "newest"); [by apply elem_of_reverse|done]. }
  eapply Forall_forall in Hall; [|done]. tauto.
Qed.
End Total.

Section Distinct.
Context `{Externals}.
Context (now : Z) (st : redis).



End Distinct.

(** ** Examples of the further properties *)

Lemma counters_account_witness :
  bad_json (Counters 1 1 1 1)
  = length (List.filter (@malformed odd)
              ["rec_a"; "bad"; "rec_noid"; "rec_nodate"; "rec_a"])
  ∧ no_id (Counters 1 1 1 1)
    = length (List.filter (@lacks_id odd)
                ["rec_a"; "bad"; "rec_noid"; "rec_nodate"; "rec_a"])
  ∧ (new_count (Counters 1 1 1 1) + no_date (Counters 1 1 1 1)
     + bad_json (Counters 1 1 1 1) + no_id (Counters 1 1 1 1)
     ≤ length ["rec_a"; "bad"; "rec_noid"; "rec_nodate"; "rec_a"])%nat.
Proof.
  apply (@counters_account odd
           ["rec_a"; "bad"; "rec_noid"; "rec_nodate"; "rec_a"] "bw_idx" 60 2 0 ∅
           (odd_run ["rec_a"; "bad"; "rec_noid"; "rec_nodate"; "rec_a"] 60 0 ∅)).
  - vm_compute. reflexivity.
  - lia.
Defined.


Lemma absent_left_alone_witness :
  no_gain "bw_idx" "a" (demo_index ["rec_a"]) demo_index_later
  ∧ demo_index_later !! seen_key "bw_idx" "a"
    = demo_index ["rec_a"] !! seen_key "bw_idx" "a".
Proof.
  apply (@absent_left_alone demo ["rec_e"] "bw_idx" 60 500 100
           (demo_index ["rec_a"]) demo_index_later (Counters 1 0 0 0) "a").
  - vm_compute. reflexivity.
  - reflexivity.
Defined.


Lemma no_entry_no_write_witness :
  odd_run ["bad"; "rec_noid"] 60 100 (odd_run ["rec_a"] 60 0 ∅)
  = odd_run ["rec_a"] 60 0 ∅
  ∧ new_count (Counters 0 1 1 0) = 0%nat
  ∧ no_date (Counters 0 1 1 0) = 0%nat.
Proof.
  apply (@no_entry_no_write odd ["bad"; "rec_noid"] "bw_idx" 60 500 100
           (odd_run ["rec_a"] 60 0 ∅)).
  - vm_compute. reflexivity.
  - reflexivity.
Defined.

Lemma retention_disabled_witness :
  odd_run ["rec_a"; "rec_a"] 0 0 ∅ !! req_key "bw_idx" "a"
  = Some (Entry (VStr "rec_a") None)
  ∧ odd_run ["rec_a"; "rec_a"] 0 0 ∅ !! seen_key "bw_idx" "a"
    = Some (Entry (VStr "1") None).
Proof.
  apply (@retention_disabled odd ["rec_a"; "rec_a"] "bw_idx" 0 500 0 ∅
           (odd_run ["rec_a"; "rec_a"] 0 0 ∅) (Counters 1 0 0 0)
           "a" rec_a "rec_a" (inject_Z 1000)).
  - vm_compute. reflexivity.
  - lia.
  - lia.
  - intros [e He]. vm_compute in He. discriminate.
  - reflexivity.
  - reflexivity.
Defined.

Lemma ingested_found_witness :
  ∃ h, @date_human demo (inject_Z 1000) = Some h
       ∧ dict_set rec_a "_date_human" (JStr h)
         ∈ results (Response 1 [annotated rec_a]).
Proof.
  apply (@ingested_found demo ["rec_a"; "rec_b"] "bw_idx" 60 500 0 ∅
           (demo_index ["rec_a"; "rec_b"]) (Counters 2 0 0 0)
           "a" rec_a "rec_a" (inject_Z 1000) 100
           (plain_request "500" "1500" "newest" 50)
           (Response 1 [annotated rec_a]) (inject_Z 500) (inject_Z 1500)).
  - apply built_empty.
  - vm_compute. reflexivity.
  - lia.
  - intros [e He]. vm_compute in He. discriminate.
  - reflexivity.
  - reflexivity.
  - discriminate.
  - intros T HT. vm_compute in HT. injection HT as <-. lia.
  - reflexivity.
  - reflexivity.
  - reflexivity.
  - reflexivity.
  - reflexivity.
  - reflexivity.
  - split; vm_compute; discriminate.
  - intros ids Hids. vm_compute in Hids. injection Hids as <-. simpl. lia.
  - vm_compute. reflexivity.
Defined.

Lemma results_pass_substring_filters_witness :
  (∀ n, url_contains probe_request = Some n → n ≠ "" →
     ∃ a b, @py_str odd (default (JStr "") (dict_get (annotated rec_u) "url"))
            = a +:+ n +:+ b)
  ∧ (∀ n, ua_contains probe_request = Some n → n ≠ "" →
     ∃ a b, str_lower (@py_str odd
              (default (JStr "") (dict_get (annotated rec_u) "user_agent")))
            = a +:+ str_lower n +:+ b)
  ∧ ∃ h, dict_get (annotated rec_u) "_date_human" = Some (JStr h)
         ∧ @date_human odd (@date_of odd (annotated rec_u)) = Some h.
Proof.
  apply (@results_pass_substring_filters odd 0
           (odd_run ["rec_d"; "rec_u"] 60 0 ∅) probe_request
           (Response 1 [annotated rec_u])).
  - vm_compute. reflexivity.
  - left.
Defined.

Lemma search_empty_store_witness :
  @search_reports demo 0 ∅ blocked_request = Ok (Response 0 []).
Proof.
  apply (@search_empty_store demo 0 blocked_request
           (inject_Z 0) (inject_Z 9999)); reflexivity.
Defined.

Lemma search_degenerate_witness :
  ∃ resp,
    @search_reports demo 0 (demo_index ["rec_a"])
      (plain_request "2000" "500" "newest" 50) = Ok resp
    ∧ resp = Response 0 [].
Proof.
  exists (Response 0 []). split; [vm_compute; reflexivity|].
  apply (@search_degenerate demo 0 (demo_index ["rec_a"])
           (plain_request "2000" "500" "newest" 50) (Response 0 [])
           (inject_Z 2000) (inject_Z 500)).
  - vm_compute. reflexivity.
  - reflexivity.
  - reflexivity.
  - left. vm_compute. reflexivity.
Defined.

Lemma search_unknown_value_witness :
  ∃ resp,
    @search_reports demo 0 (demo_index ["rec_b"]) ip_request = Ok resp
    ∧ resp = Response 0 [].
Proof.
  exists (Response 0 []). split; [vm_compute; reflexivity|].
  apply (@search_unknown_value demo 0 (demo_index ["rec_b"]) ip_request
           (Response 0 []) ("ip", "1.2.3.4")).
  - vm_compute. reflexivity.
  - left.
  - vm_compute. reflexivity.
Defined.

Lemma to_epoch_millis_witness :
  ∃ v w, @to_epoch demo "1767285096" = Ok v
         ∧ @to_epoch demo ("1767285096" +:+ "000") = Ok w ∧ (v == w)%Q.
Proof.
  apply (@to_epoch_millis demo "1767285096").
  - reflexivity.
  - discriminate.
  - vm_compute. reflexivity.
  - vm_compute. discriminate.
Defined.

Lemma answer_tops_ranked_witness :
  (length (top_ips demo_answer) ≤ 10)%nat
  ∧ StronglySorted (λ x y, (y.2 ≤ x.2)%nat) (top_ips demo_answer)
  ∧ distinct_keys (top_ips demo_answer)
  ∧ ∀ k n, (k, n) ∈ top_ips demo_answer →
      k ∈ field_values "ip" (results (body demo_answer))
      ∧ n = count_of k (field_values "ip" (results (body demo_answer)))
      ∧ (1 ≤ n)%nat.
Proof.
  apply (@answer_tops_ranked demo 0
           (demo_index ["rec_a"; "rec_b"; "rec_c"; "rec_d"; "rec_e"])
           (plain_request "0" "9999" "newest" 50) demo_answer).
  - vm_compute. reflexivity.
  - left.
Defined.

Lemma answer_tops_cover_witness :
  (∃ k n, (k, n) ∈ top_ips demo_answer ∧ py_eq k (JStr "5.6.7.8") = true)
  ∨ (length (top_ips demo_answer) = 10%nat
     ∧ ∀ k n, (k, n) ∈ top_ips demo_answer →
         (count_of (JStr "5.6.7.8")
            (field_values "ip" (results (body demo_answer))) ≤ n)%nat).
Proof.
  apply (@answer_tops_cover demo 0
           (demo_index ["rec_a"; "rec_b"; "rec_c"; "rec_d"; "rec_e"])
           (plain_request "0" "9999" "newest" 50) demo_answer).
  - vm_compute. reflexivity.
  - left.
  - vm_compute. right. left.
Defined.

Lemma answer_unhashable_witness :
  @search_reports_answer odd 0 (odd_run ["rec_a"; "rec_l"] 60 0 ∅)
    (plain_request "0" "9999" "newest" 50) = Raise TypeError.
Proof.
  destruct (@answer_unhashable odd 0 (odd_run ["rec_a"; "rec_l"] 60 0 ∅)
              (plain_request "0" "9999" "newest" 50)
              (Response 2 [annotated rec_l; annotated rec_a]))
    as [Hraise _].
  - vm_compute. reflexivity.
  - apply Hraise.
    exists (annotated rec_l), "ip", (JArr [JStr "1.2.3.4"; JStr "5.6.7.8"]).
    split_and!; [left|left|reflexivity..].
Defined.

Lemma summary_of_answer_witness :
  api_search_reports (encode_answer demo_answer)
  = Ok (JObj [("count", JInt (Z.of_nat (count (body demo_answer))));
              ("top_ips", encode_top (top_ips demo_answer));
              ("top_urls", encode_top (top_urls demo_answer));
              ("top_reasons", encode_top (top_reasons demo_answer));
              ("samples",
               JArr (sample <$> take 10 (results (body demo_answer))))]).
Proof.
  apply (@summary_of_answer demo 0
           (demo_index ["rec_a"; "rec_b"; "rec_c"; "rec_d"; "rec_e"])
           (plain_request "0" "9999" "newest" 50) demo_answer).
  vm_compute. reflexivity.
Defined.

Lemma summary_samples_witness :
  ∃ d l, demo_summary = JObj d
    ∧ dict_get d "samples" = Some (JArr l)
    ∧ (length l ≤ 10)%nat
    ∧ ∀ x, x ∈ l → ∃ e : dict, x = JObj e ∧ e.*1 = sample_keys.
Proof.
  apply (summary_samples (encode_answer demo_answer) demo_summary).
  vm_compute. reflexivity.
Defined.

Lemma indexer_prefix_only_witness :
  odd_run ["rec_a"; "rec_u"] 60 0 {["requests" := Entry (VStr "raw") None]}
    !! "requests"
  = ({["requests" := Entry (VStr "raw") None]} : redis) !! "requests".
Proof.
  apply (@indexer_prefix_only odd ["rec_a"; "rec_u"] "bw_idx" 60 500 0
           {["requests" := Entry (VStr "raw") None]}
           (odd_run ["rec_a"; "rec_u"] 60 0
              {["requests" := Entry (VStr "raw") None]})
           (Counters 2 0 0 0) "requests").
  - vm_compute. reflexivity.
  - intros s Hs. vm_compute in Hs. discriminate.
Defined.

Lemma no_deadline_when_disabled_witness :
  ∃ e, odd_run ["rec_a"] 60 0 ∅ !! req_key "bw_idx" "a" = Some e
       ∧ e_exp e = Some 5184000.
Proof.
  apply (@no_deadline_when_disabled odd ["rec_b"] "bw_idx" 0 500 100
           (odd_run ["rec_a"] 60 0 ∅)
           (odd_run ["rec_b"] 0 100 (odd_run ["rec_a"] 60 0 ∅))
           (Counters 1 0 0 0) (req_key "bw_idx" "a")
           (Entry (VStr "rec_a") (Some 5184000))).
  - vm_compute. reflexivity.
  - lia.
  - vm_compute. reflexivity.
  - reflexivity.
Defined.

Lemma search_total_witness :
  ∃ resp,
    @search_reports demo 100 (demo_index ["rec_a"; "rec_b"; "rec_nodate"])
      blocked_request = Ok resp.
Proof.
  apply (@search_total demo 100
           (demo_index ["rec_a"; "rec_b"; "rec_nodate"]) "bw_idx"
           blocked_request (inject_Z 0) (inject_Z 9999)).
  - apply demo_index_built.
  - reflexivity.
  - reflexivity.
  - reflexivity.
  - intros ts _. by eexists.
Defined.

